(** * NYC collisions ETL: standardisation, enrichment and aggregation

    A shallow embedding of the transformation engine of the repository
    (src/utils.py, src/layers/silver_processing.py,
    src/layers/gold_processing.py) together with the part of the data-frame
    library, of the HTTP retry policy and of the file system that the code
    relies on, followed by the properties established about it.

    Layout: the library models ([Polars], [World] for files and the log,
    [Requests]), the helpers of src/utils.py ([Utils]), the silver layer
    ([SilverProcessor]), the gold layer ([GoldProcessor]), sample tables
    ([Sample]) and the notions the statements use ([Stmt]); then the
    lemmas and theorems. *)

From Stdlib Require Import ZArith Lia SpecFloat Ascii String.
From stdpp Require Import base option list sorting gmap strings fin_maps pretty.

Open Scope Z_scope.

(* ===================================================================== *)
(** * Part I: definitions                                                 *)
(* ===================================================================== *)

(** ** Errors and results

    Python exceptions are values of [error]; a computation that may raise
    returns a [result]. *)

Inductive error : Type :=
| ColumnNotFoundError (c : string)
| DuplicateError (c : string)
| InvalidOperationError (what : string)
| ComputeError (what : string)
| TypeError (what : string)
| ValueError (what : string)
| RuntimeError (what : string)
| FileExistsError
| IsADirectoryError
| NotADirectoryError
| FileNotFoundError.

Inductive result (A : Type) : Type :=
| Ok (a : A)
| Err (e : error).
Arguments Ok {A} a.
Arguments Err {A} e.

Definition result_bind {A B} (m : result A) (k : A → result B) : result B :=
  match m with
  | Ok a => k a
  | Err e => Err e
  end.

#[global] Instance result_ret : MRet result := λ A a, Ok a.
#[global] Instance result_mbind : MBind result := λ A B k m, result_bind m k.

Definition is_ok {A} (m : result A) : bool :=
  match m with Ok _ => true | Err _ => false end.

(** [mapR f l] evaluates [f] on every element, left to right, and stops at
    the first error. *)
Fixpoint mapR {A B} (f : A → result B) (l : list A) : result (list B) :=
  match l with
  | [] => Ok []
  | x :: l' => y ← f x; ys ← mapR f l'; Ok (y :: ys)
  end.

(** First element occurring twice in a list of names, if any. *)
Fixpoint first_dup (l : list string) : option string :=
  match l with
  | [] => None
  | x :: l' => if bool_decide (x ∈ l') then Some x else first_dup l'
  end.

(** First element of [l] that is not in [cols], if any. *)
Definition first_missing (cols l : list string) : option string :=
  head (filter (λ c, c ∉ cols) l).

(* --------------------------------------------------------------------- *)
(** ** The data-frame library                                             *)
(* --------------------------------------------------------------------- *)

Module Polars.

(** *** Floating point: IEEE 754 binary64 *)

Definition prec : Z := 53.
Definition emax : Z := 1024.

Definition f64_of_Z (z : Z) : spec_float :=
  match z with
  | Z0 => S754_zero false
  | Zpos _ => binary_normalize prec emax z 0 false
  | Zneg _ => binary_normalize prec emax z 0 true
  end.

Definition f64_ten : spec_float := f64_of_Z 10.
Definition f64_div (x y : spec_float) : spec_float := SFdiv prec emax x y.
Definition f64_mul (x y : spec_float) : spec_float := SFmul prec emax x y.
Definition f64_add (x y : spec_float) : spec_float := SFadd prec emax x y.

(** The value [(-1)^neg * m * 10^e10] rounded once to binary64 (round to
    nearest, ties to even), as a decimal-to-binary conversion does. *)
Definition f64_of_decimal (neg : bool) (m : Z) (e10 : Z) : spec_float :=
  match m with
  | Zpos p =>
      if 0 <=? e10
      then binary_round prec emax neg (p * Z.to_pos (10 ^ e10)) 0
      else
        let '(q, e, l) := SFdiv_core_binary prec emax m 0 (10 ^ (- e10)) 0 in
        binary_round_aux prec emax neg q e l
  | _ => S754_zero neg
  end.

(** The ties rule of [Expr.round]; the default is half-to-even. *)
Inductive RoundMode : Type := HalfToEven | HalfAwayFromZero.

(** Nearest integer of [m * 2^e] for [m > 0]. *)
Definition nearest_int (mode : RoundMode) (m : positive) (e : Z) : Z :=
  if 0 <=? e then Zpos m * 2 ^ e
  else
    let d := 2 ^ (- e) in
    let q := Zpos m / d in
    let r := Zpos m mod d in
    match 2 * r ?= d with
    | Lt => q
    | Gt => q + 1
    | Eq => match mode with
            | HalfAwayFromZero => q + 1
            | HalfToEven => if Z.even q then q else q + 1
            end
    end.

(** Rust's [f64::round] / [f64::round_ties_even]. *)
Definition f64_round_int (mode : RoundMode) (x : spec_float) : spec_float :=
  match x with
  | S754_finite s m e =>
      if 0 <=? e then x
      else match nearest_int mode m e with
           | Zpos q => binary_round prec emax s q 0
           | _ => S754_zero s
           end
  | _ => x
  end.

Definition f64_is_finite (x : spec_float) : bool :=
  match x with
  | S754_zero _ | S754_finite _ _ _ => true
  | _ => false
  end.

(** [Expr.round(decimals)] on Float64: scale, round to an integer, scale
    back; when that leaves the finite numbers (the scaling overflows, or
    the cell is an infinity or NaN) the cell stays as it is. *)
Definition f64_round (mode : RoundMode) (decimals : nat) (x : spec_float)
  : spec_float :=
  match decimals with
  | O => f64_round_int mode x
  | _ =>
      let multiplier := f64_of_Z (10 ^ Z.of_nat decimals) in
      let ret := f64_div (f64_round_int mode (f64_mul x multiplier)) multiplier in
      if f64_is_finite ret then ret else x
  end.

(** The library compares floats in a total order in which NaN is the
    largest value and equal to itself. *)
Definition f64_gt (x y : spec_float) : bool :=
  match x, y with
  | _, S754_nan => false
  | S754_nan, _ => true
  | _, _ => SFltb y x
  end.

Definition f64_le (x y : spec_float) : bool := negb (f64_gt x y).

(** Truncation toward zero; [None] for NaN and the infinities. *)
Definition f64_trunc (x : spec_float) : option Z :=
  match x with
  | S754_zero _ => Some 0
  | S754_finite s m e =>
      let a := if 0 <=? e then Zpos m * 2 ^ e else Zpos m / 2 ^ (- e) in
      Some (if s then - a else a)
  | _ => None
  end.

(** *** Cells, rows and frames *)

(** A cell.  Integers come in two kinds because a column sum is taken in
    the width of the column: [VInt32] is a cell of an Int32 column, which
    is what [cast(pl.Int32)] and [dt.year()] make, and [VInt] is a cell of
    an integer column whose sums are taken in 64 bits (Int64, which is
    what Python integers become, and the narrow types, which the library
    widens before it sums). *)
Inductive value : Type :=
| VNull
| VBool (b : bool)
| VInt (z : Z)
| VFloat (f : spec_float)
| VStr (s : string)
| VDate (days : Z)              (* days since 1970-01-01 *)
| VList (l : list string)       (* List(String) *)
| VInt32 (z : Z).

#[global] Instance spec_float_eq_dec : EqDecision spec_float.
Proof. solve_decision. Defined.
#[global] Instance value_eq_dec : EqDecision value.
Proof. solve_decision. Defined.
#[global] Instance value_inhabited : Inhabited value := populate VNull.

(** A frame is a schema (the column names, in order) and its rows; a row
    maps column names to cells. *)
Record frame : Type := Frame {
  columns : list string;
  rows : list (gmap string value)
}.

Definition height (df : frame) : nat := length (rows df).

(** The cell of row [r] in column [c] (null when the row has none). *)
Definition cell (c : string) (r : gmap string value) : value :=
  default VNull (r !! c).

Definition is_null (v : value) : bool :=
  match v with VNull => true | _ => false end.

(** *** Text *)

(** A text is the sequence of its UTF-8 bytes.

    [str.strip_chars()] without argument removes leading and trailing
    white space, the characters with the Unicode property White_Space:
    U+0009 to U+000D and U+0020 (one byte), U+0085 and U+00A0 (two
    bytes), U+1680, U+2000 to U+200A, U+2028, U+2029, U+202F, U+205F and
    U+3000 (three bytes). *)
Definition byte_is (n : N) (a : ascii) : bool := (N_of_ascii a =? n)%N.

Definition is_whitespace (a : ascii) : bool :=
  let n := N_of_ascii a in
  (((9 <=? n) && (n <=? 13)) || (n =? 32))%N.

Definition is_whitespace2 (a b : ascii) : bool :=
  byte_is 194 a && (byte_is 133 b || byte_is 160 b).

Definition is_whitespace3 (a b c : ascii) : bool :=
  let n := N_of_ascii c in
  (byte_is 225 a && byte_is 154 b && byte_is 128 c) ||
  (byte_is 226 a && byte_is 128 b &&
     (((128 <=? n) && (n <=? 138)) || (n =? 168) || (n =? 169) || (n =? 175))%N) ||
  (byte_is 226 a && byte_is 129 b && byte_is 159 c) ||
  (byte_is 227 a && byte_is 128 b && byte_is 128 c).

Fixpoint strip_chars_start (s : string) : string :=
  match s with
  | EmptyString => EmptyString
  | String a s1 =>
      if is_whitespace a then strip_chars_start s1
      else match s1 with
           | EmptyString => s
           | String b s2 =>
               if is_whitespace2 a b then strip_chars_start s2
               else match s2 with
                    | EmptyString => s
                    | String c s3 =>
                        if is_whitespace3 a b c then strip_chars_start s3 else s
                    end
           end
  end.

(** A text made of white space only. *)
Fixpoint blank (s : string) : bool :=
  match s with
  | EmptyString => true
  | String a s1 =>
      if is_whitespace a then blank s1
      else match s1 with
           | EmptyString => false
           | String b s2 =>
               if is_whitespace2 a b then blank s2
               else match s2 with
                    | EmptyString => false
                    | String c s3 => is_whitespace3 a b c && blank s3
                    end
           end
  end.

(** The first byte of a white-space character. *)
Definition ws_start (a : ascii) : bool :=
  is_whitespace a || byte_is 194 a || byte_is 225 a || byte_is 226 a || byte_is 227 a.

Fixpoint strip_chars_end (s : string) : string :=
  match s with
  | EmptyString => EmptyString
  | String a s' => if blank s then EmptyString else String a (strip_chars_end s')
  end.

Definition strip_chars (s : string) : string :=
  strip_chars_end (strip_chars_start s).

Definition digit_of (a : ascii) : option Z :=
  let n := N_of_ascii a in
  if ((48 <=? n) && (n <=? 57))%N then Some (Z.of_N n - 48) else None.

(** Reads the longest prefix of decimal digits: the number read so far,
    how many digits were read, and the rest of the text. *)
Fixpoint take_digits (s : string) (acc : Z) (n : Z) : Z * Z * string :=
  match s with
  | String a s' =>
      match digit_of a with
      | Some d => take_digits s' (10 * acc + d) (n + 1)
      | None => (acc, n, s)
      end
  | EmptyString => (acc, n, s)
  end.

(** An optional sign in front of a text. *)
Definition take_sign (s : string) : bool * string :=
  match s with
  | String "-" s' => (true, s')
  | String "+" s' => (false, s')
  | _ => (false, s)
  end.

(** Integer syntax of the text-to-integer cast: an optional sign and one
    or more digits, nothing else. *)
Definition parse_int (s : string) : option Z :=
  let '(neg, body) := take_sign s in
  match take_digits body 0 0 with
  | (m, n, EmptyString) =>
      if 0 <? n then Some (if neg then - m else m) else None
  | _ => None
  end.

Definition in_int32 (z : Z) : bool := (- 2 ^ 31 <=? z) && (z <? 2 ^ 31).

Definition lower_ascii (a : ascii) : ascii :=
  let n := N_of_ascii a in
  if ((65 <=? n) && (n <=? 90))%N then ascii_of_N (n + 32) else a.

Fixpoint lower (s : string) : string :=
  match s with
  | EmptyString => EmptyString
  | String a s' => String (lower_ascii a) (lower s')
  end.

(** Decimal exponent after an [e]: an optional sign and one or more
    digits up to the end of the text. *)
Definition parse_exponent (s : string) : option Z :=
  let '(neg, body) := take_sign s in
  match take_digits body 0 0 with
  | (x, n, EmptyString) =>
      if 0 <? n then Some (if neg then - x else x) else None
  | _ => None
  end.

(** Float syntax of the text-to-float cast: an optional sign, then
    [inf], [infinity] or [nan] (any case), or digits with an optional
    fraction and an optional exponent; at least one digit. *)
Definition parse_float64 (s : string) : option spec_float :=
  let '(neg, body) := take_sign s in
  let name := lower body in
  if bool_decide (name = "inf" ∨ name = "infinity") then Some (S754_infinity neg)
  else if bool_decide (name = "nan") then Some S754_nan
  else
    let '(ip, ni, r1) := take_digits body 0 0 in
    let '(m, nf, r2) :=
      match r1 with
      | String "." r => take_digits r ip 0
      | _ => (ip, 0, r1)
      end in
    if ni + nf =? 0 then None
    else
      match r2 with
      | EmptyString => Some (f64_of_decimal neg m (- nf))
      | String c r3 =>
          if bool_decide (lower_ascii c = "e"%char)
          then x ← parse_exponent r3; Some (f64_of_decimal neg m (x - nf))
          else None
      end.

(** Decimal text of an integer and of a boolean, for casts to text. *)
Definition int_to_string (z : Z) : string := pretty z.
Definition bool_to_string (b : bool) : string := if b then "true" else "false".

(** *** Calendar: dates are day numbers counted from 1970-01-01 *)

Definition is_leap (y : Z) : bool :=
  ((y mod 4 =? 0) && negb (y mod 100 =? 0)) || (y mod 400 =? 0).

Definition days_in_month (y m : Z) : Z :=
  if m =? 2 then (if is_leap y then 29 else 28)
  else if bool_decide (m ∈ [4; 6; 9; 11]) then 30
  else 31.

Definition days_from_civil (y m d : Z) : Z :=
  let y' := if m <=? 2 then y - 1 else y in
  let era := y' / 400 in
  let yoe := y' - era * 400 in
  let doy := (153 * (if 2 <? m then m - 3 else m + 9) + 2) / 5 + d - 1 in
  let doe := yoe * 365 + yoe / 4 - yoe / 100 + doy in
  era * 146097 + doe - 719468.

Definition civil_from_days (z : Z) : Z * Z * Z :=
  let z := z + 719468 in
  let era := z / 146097 in
  let doe := z - era * 146097 in
  let yoe := (doe - doe / 1460 + doe / 36524 - doe / 146096) / 365 in
  let doy := doe - (365 * yoe + yoe / 4 - yoe / 100) in
  let mp := (5 * doy + 2) / 153 in
  let d := doy - (153 * mp + 2) / 5 + 1 in
  let m := if mp <? 10 then mp + 3 else mp - 9 in
  let y := yoe + era * 400 in
  (if m <=? 2 then y + 1 else y, m, d).

Definition year_of (days : Z) : Z := (civil_from_days days).1.1.
Definition month_of (days : Z) : Z := (civil_from_days days).1.2.
(** ISO weekday, Monday = 1 ... Sunday = 7 (1970-01-01 was a Thursday). *)
Definition weekday_of (days : Z) : Z := (days + 3) mod 7 + 1.

(** The years a date can have (the range of the date type of the
    library's parser). *)
Definition MIN_YEAR : Z := -262143.
Definition MAX_YEAR : Z := 262142.

Definition make_date (y m d : Z) : option Z :=
  if (MIN_YEAR <=? y) && (y <=? MAX_YEAR) &&
     (1 <=? m) && (m <=? 12) && (1 <=? d) && (d <=? days_in_month y m)
  then Some (days_from_civil y m d) else None.

(** The directives of a [strptime] format that the code uses. *)
Inductive fmt_item : Type := FYear | FMonth | FDay | FLit (a : ascii).

Fixpoint parse_format (fmt : string) : list fmt_item :=
  match fmt with
  | String "%" (String "Y" r) => FYear :: parse_format r
  | String "%" (String "m" r) => FMonth :: parse_format r
  | String "%" (String "d" r) => FDay :: parse_format r
  | String a r => FLit a :: parse_format r
  | EmptyString => []
  end.

(** Reads at least one and at most [width] digits. *)
Fixpoint take_number (width : nat) (s : string) (acc : Z) (got : bool)
  : option (Z * string) :=
  match width, s with
  | S w, String a s' =>
      match digit_of a with
      | Some d => take_number w s' (10 * acc + d) true
      | None => if got then Some (acc, s) else None
      end
  | _, _ => if got then Some (acc, s) else None
  end.

(** Reads all the digits there are, at least one. *)
Definition take_all_digits (s : string) : option (Z * string) :=
  let '(m, n, r) := take_digits s 0 0 in
  if 0 <? n then Some (m, r) else None.

(** A numeric field of a date.  White space in front of the number is
    skipped.  A month or a day is one or two digits.  A year with a sign
    is the sign and all the digits that follow; without a sign it is one
    to four digits. *)
Definition scan_number (signed : bool) (width : nat) (s : string)
  : option (Z * string) :=
  let s := strip_chars_start s in
  match s with
  | String a s' =>
      if signed && bool_decide (a = "-"%char)
      then '(n, r) ← take_all_digits s'; Some (- n, r)
      else if signed && bool_decide (a = "+"%char)
      then take_all_digits s'
      else take_number width s 0 false
  | EmptyString => None
  end.

(** Runs a format over a text, collecting year, month and day; the text
    must be used up. *)
Fixpoint scan_date (items : list fmt_item) (s : string)
    (y m d : option Z) : option (option Z * option Z * option Z) :=
  match items with
  | [] => match s with EmptyString => Some (y, m, d) | _ => None end
  | FYear :: items' =>
      '(n, s') ← scan_number true 4 s; scan_date items' s' (Some n) m d
  | FMonth :: items' =>
      '(n, s') ← scan_number false 2 s; scan_date items' s' y (Some n) d
  | FDay :: items' =>
      '(n, s') ← scan_number false 2 s; scan_date items' s' y m (Some n)
  | FLit a :: items' =>
      match s with
      | String b s' => if bool_decide (a = b) then scan_date items' s' y m d else None
      | EmptyString => None
      end
  end.

(** [strptime] of a date, as the library's strict parser reads it: the
    fields in the order of the format, then a check that the day
    exists. *)
Definition strptime_date (fmt s : string) : option Z :=
  '(y, m, d) ← scan_date (parse_format fmt) s None None None;
  y ← y; m ← m; d ← d; make_date y m d.

(** *** Operations on cells

    Every function below is the cell-wise meaning of one expression
    method.  Null propagates; an operation applied to a cell of the wrong
    kind raises, as the library does when the column has the wrong type. *)

Definition bad_type {A} (what : string) : result A :=
  Err (InvalidOperationError what).

Definition fill_null_v (fill v : value) : result value :=
  Ok (if is_null v then fill else v).

Definition is_not_null_v (v : value) : result value :=
  Ok (VBool (negb (is_null v))).

(** [cast(pl.String)].  Text of a float, a date or a list is outside the
    model (the weather export is read as text): those cells raise here. *)
Definition cast_string_v (v : value) : result value :=
  match v with
  | VNull => Ok VNull
  | VStr s => Ok (VStr s)
  | VInt z | VInt32 z => Ok (VStr (int_to_string z))
  | VBool b => Ok (VStr (bool_to_string b))
  | _ => bad_type "cast to String"
  end.

(** [cast(pl.Float64)], strict: a text that is no number raises. *)
Definition cast_float64_v (v : value) : result value :=
  match v with
  | VNull => Ok VNull
  | VFloat f => Ok (VFloat f)
  | VInt z | VInt32 z => Ok (VFloat (f64_of_Z z))
  | VBool b => Ok (VFloat (f64_of_Z (if b then 1 else 0)))
  | VStr s =>
      match parse_float64 s with
      | Some f => Ok (VFloat f)
      | None => bad_type "conversion from str to f64 failed"
      end
  | _ => bad_type "cast to Float64"
  end.

(** [cast(pl.Int32, strict=...)]: a text that is no integer, or a number
    outside the 32-bit range, raises when strict and becomes null
    otherwise. *)
Definition cast_int32_v (strict : bool) (v : value) : result value :=
  let fail := if strict then bad_type "conversion to i32 failed" else Ok VNull in
  let check (o : option Z) :=
    match o with
    | Some z => if in_int32 z then Ok (VInt32 z) else fail
    | None => fail
    end in
  match v with
  | VNull => Ok VNull
  | VInt z | VInt32 z => check (Some z)
  | VBool b => Ok (VInt32 (if b then 1 else 0))
  | VFloat f => check (f64_trunc f)
  | VStr s => check (parse_int s)
  | _ => bad_type "cast to Int32"
  end.

(** [cast(pl.List(pl.String))]: a list of texts stays as it is; a cell
    that is no list (a text, a number) raises. *)
Definition cast_list_string_v (v : value) : result value :=
  match v with
  | VNull => Ok VNull
  | VList l => Ok (VList l)
  | _ => bad_type "cast to List(String)"
  end.

Definition str_strip_chars_v (v : value) : result value :=
  match v with
  | VNull => Ok VNull
  | VStr s => Ok (VStr (strip_chars s))
  | _ => bad_type "str.strip_chars"
  end.

(** [str.to_date(format)], strict: a text that is no date raises. *)
Definition str_to_date_v (fmt : string) (v : value) : result value :=
  match v with
  | VNull => Ok VNull
  | VStr s =>
      match strptime_date fmt s with
      | Some d => Ok (VDate d)
      | None => bad_type "conversion from str to date failed"
      end
  | _ => bad_type "str.to_date"
  end.

(** [dt.year()] is an Int32 column, [dt.month()] and [dt.weekday()] are
    Int8 columns. *)
Definition dt_v (what : string) (int : Z → value) (f : Z → Z) (v : value)
  : result value :=
  match v with
  | VNull => Ok VNull
  | VDate d => Ok (int (f d))
  | _ => bad_type what
  end.
Definition dt_year_v : value → result value := dt_v "dt.year" VInt32 year_of.
Definition dt_month_v : value → result value := dt_v "dt.month" VInt month_of.
Definition dt_weekday_v : value → result value :=
  dt_v "dt.weekday" VInt weekday_of.

(** [list.contains(item)] *)
Definition list_contains_v (item : string) (v : value) : result value :=
  match v with
  | VNull => Ok VNull
  | VList l => Ok (VBool (bool_decide (item ∈ l)))
  | _ => bad_type "list.contains"
  end.

(** Float division by a number ([expr / 10]). *)
Definition div_v (v d : value) : result value :=
  let num (x : value) : result (option spec_float) :=
    match x with
    | VNull => Ok None
    | VFloat f => Ok (Some f)
    | VInt z | VInt32 z => Ok (Some (f64_of_Z z))
    | _ => bad_type "division"
    end in
  a ← num v; b ← num d;
  Ok (match a, b with
      | Some x, Some y => VFloat (f64_div x y)
      | _, _ => VNull
      end).

Definition round_v (mode : RoundMode) (decimals : nat) (v : value)
  : result value :=
  match v with
  | VNull => Ok VNull
  | VFloat f => Ok (VFloat (f64_round mode decimals f))
  | VInt z => Ok (VInt z)
  | VInt32 z => Ok (VInt32 z)
  | _ => bad_type "round"
  end.

(** Order of two non-null cells of comparable kinds. *)
Definition f64_compare (x y : spec_float) : comparison :=
  if f64_gt x y then Gt else if f64_gt y x then Lt else Eq.

Definition compare_v (a b : value) : result (option comparison) :=
  match a, b with
  | VNull, _ | _, VNull => Ok None
  | (VInt x | VInt32 x), (VInt y | VInt32 y) => Ok (Some (x ?= y))
  | VDate x, VDate y => Ok (Some (x ?= y))
  | VFloat x, VFloat y => Ok (Some (f64_compare x y))
  | VFloat x, (VInt y | VInt32 y) => Ok (Some (f64_compare x (f64_of_Z y)))
  | (VInt x | VInt32 x), VFloat y => Ok (Some (f64_compare (f64_of_Z x) y))
  | VStr x, VStr y => Ok (Some (String.compare x y))
  | VBool x, VBool y => Ok (Some (Bool.compare x y))
  | _, _ => bad_type "comparison of cells of different kinds"
  end.

Definition ge_v (a b : value) : result value :=
  c ← compare_v a b;
  Ok (match c with
      | None => VNull
      | Some Lt => VBool false
      | Some _ => VBool true
      end).

Definition gt_v (a b : value) : result value :=
  c ← compare_v a b;
  Ok (match c with
      | None => VNull
      | Some Gt => VBool true
      | Some _ => VBool false
      end).

Definition eq_v (a b : value) : result value :=
  c ← compare_v a b;
  Ok (match c with
      | None => VNull
      | Some Eq => VBool true
      | Some _ => VBool false
      end).

(** Three-valued "or" of two Boolean cells ([|] and [any_horizontal]):
    true wins over null, null wins over false. *)
Definition or_v (a b : value) : result value :=
  match a, b with
  | VBool true, (VBool _ | VNull) | VNull, VBool true => Ok (VBool true)
  | VBool false, VBool y => Ok (VBool y)
  | VBool false, VNull | VNull, VBool false | VNull, VNull => Ok VNull
  | _, _ => bad_type "Boolean operator on a cell that is no Boolean"
  end.

(** *** Expressions

    An expression has an output name, the columns it reads, and its value
    on a row. *)

Record expr : Type := Expr {
  output_name : string;
  root_names : list string;
  eval : gmap string value → result value
}.

Definition col (c : string) : expr := Expr c [c] (λ r, Ok (cell c r)).
Definition lit (v : value) : expr := Expr "literal" [] (λ _, Ok v).
Definition alias (name : string) (e : expr) : expr :=
  Expr name (root_names e) (eval e).

Definition map_expr (f : value → result value) (e : expr) : expr :=
  Expr (output_name e) (root_names e) (λ r, v ← eval e r; f v).

Definition map2_expr (f : value → value → result value) (e1 e2 : expr) : expr :=
  Expr (output_name e1) (root_names e1 ++ root_names e2)
       (λ r, v1 ← eval e1 r; v2 ← eval e2 r; f v1 v2).

Definition fill_null (fill : value) : expr → expr := map_expr (fill_null_v fill).
Definition is_not_null : expr → expr := map_expr is_not_null_v.
Definition cast_string : expr → expr := map_expr cast_string_v.
Definition cast_float64 : expr → expr := map_expr cast_float64_v.
Definition cast_int32 (strict : bool) : expr → expr := map_expr (cast_int32_v strict).
Definition cast_list_string : expr → expr := map_expr cast_list_string_v.
Definition str_strip_chars : expr → expr := map_expr str_strip_chars_v.
Definition str_to_date (fmt : string) : expr → expr := map_expr (str_to_date_v fmt).
Definition dt_year : expr → expr := map_expr dt_year_v.
Definition dt_month : expr → expr := map_expr dt_month_v.
Definition dt_weekday : expr → expr := map_expr dt_weekday_v.
Definition list_contains (item : string) : expr → expr := map_expr (list_contains_v item).
Definition round (mode : RoundMode) (decimals : nat) : expr → expr :=
  map_expr (round_v mode decimals).
Definition truediv (e : expr) (d : value) : expr := map_expr (λ v, div_v v d) e.
Definition ge_lit (e : expr) (x : value) : expr := map_expr (λ v, ge_v v x) e.
Definition gt_lit (e : expr) (x : value) : expr := map_expr (λ v, gt_v v x) e.
Definition eq_lit (e : expr) (x : value) : expr := map_expr (λ v, eq_v v x) e.
Definition or_ (e1 e2 : expr) : expr := map2_expr or_v e1 e2.
Definition any_horizontal (e1 e2 : expr) : expr := map2_expr or_v e1 e2.

(** *** Frames

    A query is checked against the schema first (a column that does not
    exist, or a name produced twice, raises even on a frame without rows)
    and then run row by row. *)

Definition check_columns (cols names : list string) : result unit :=
  match first_missing cols names with
  | Some c => Err (ColumnNotFoundError c)
  | None => Ok tt
  end.

Definition check_unique (names : list string) : result unit :=
  match first_dup names with
  | Some c => Err (DuplicateError c)
  | None => Ok tt
  end.

Definition roots_of (es : list expr) : list string :=
  concat (map root_names es).

(** The cells computed by a list of expressions on one row, as a row. *)
Fixpoint project (es : list expr) (r : gmap string value)
  : result (gmap string value) :=
  match es with
  | [] => Ok ∅
  | e :: es' =>
      v ← eval e r; rest ← project es' r; Ok (<[output_name e := v]> rest)
  end.

(** A predicate keeps the rows on which it is true; null does not keep. *)
Definition keeps (p : expr) (r : gmap string value) : result bool :=
  v ← eval p r;
  match v with
  | VBool b => Ok b
  | VNull => Ok false
  | _ => bad_type "filter predicate must be Boolean"
  end.

Fixpoint filterR {A} (p : A → result bool) (l : list A) : result (list A) :=
  match l with
  | [] => Ok []
  | x :: l' =>
      b ← p x; rest ← filterR p l'; Ok (if b : bool then x :: rest else rest)
  end.

(** First binding of a key in an association list (a Python [dict]). *)
Fixpoint assoc (k : string) (m : list (string * string)) : option string :=
  match m with
  | [] => None
  | (k', v) :: m' => if bool_decide (k = k') then Some v else assoc k m'
  end.

(** Join keys match when both are present and equal. *)
Definition join_match (a b : value) : bool :=
  negb (is_null a) && bool_decide (a = b).

(** Grouping treats null as a key like any other, and the two zeros of
    floating point as one key. *)
Definition key_norm (v : value) : value :=
  match v with
  | VFloat (S754_zero _) => VFloat (S754_zero false)
  | _ => v
  end.

Definition group_key (by_ : list string) (r : gmap string value) : list value :=
  map (λ c, key_norm (cell c r)) by_.

(** Adds a row to the group of its key, or opens a new group after the
    existing ones. *)
Fixpoint add_to_groups (k : list value) (r : gmap string value)
    (gs : list (list value * list (gmap string value)))
  : list (list value * list (gmap string value)) :=
  match gs with
  | [] => [(k, [r])]
  | (k', g) :: gs' =>
      if bool_decide (k = k') then (k', g ++ [r]) :: gs'
      else (k', g) :: add_to_groups k r gs'
  end.

Definition groups_of (by_ : list string) (l : list (gmap string value))
  : list (list value * list (gmap string value)) :=
  foldl (λ gs r, add_to_groups (group_key by_ r) r gs) [] l.

(** An aggregation has an output name, the columns it reads and its value
    on the rows of a group. *)
Record agg_expr : Type := Agg {
  agg_name : string;
  agg_roots : list string;
  agg_eval : list (gmap string value) → result value
}.

(** [pl.len()] *)
Definition len : agg_expr :=
  Agg "len" [] (λ g, Ok (VInt (Z.of_nat (length g)))).

Definition agg_alias (name : string) (a : agg_expr) : agg_expr :=
  Agg name (agg_roots a) (agg_eval a).

(** A signed integer of [bits] bits after wrap-around. *)
Definition wrap (bits : Z) (z : Z) : Z :=
  (z + 2 ^ (bits - 1)) mod 2 ^ bits - 2 ^ (bits - 1).

(** Sum of a column over a group, from the sum so far ([VNull] when
    there is none yet).  Nulls are skipped.  Integers are added in the
    width of the column and wrap around: in 32 bits for Int32 cells, in
    64 bits for the others (and for a column that mixes the two kinds,
    which no frame of the library is); Boolean cells count as 0 and 1;
    floats are added from left to right. *)
Fixpoint sum_cells (acc : value) (l : list value) : result value :=
  match l with
  | [] => Ok acc
  | v :: l' =>
      match acc, v with
      | _, VNull => sum_cells acc l'
      | VNull, VInt b => sum_cells (VInt (wrap 64 b)) l'
      | VNull, VInt32 b => sum_cells (VInt32 (wrap 32 b)) l'
      | VNull, VFloat _ => sum_cells v l'
      | VNull, VBool b => sum_cells (VInt (if b then 1 else 0)) l'
      | VInt32 a, VInt32 b => sum_cells (VInt32 (wrap 32 (a + b))) l'
      | VInt a, (VInt b | VInt32 b) | VInt32 a, VInt b =>
          sum_cells (VInt (wrap 64 (a + b))) l'
      | VInt a, VBool b =>
          sum_cells (VInt (wrap 64 (a + if b then 1 else 0))) l'
      | (VInt a | VInt32 a), VFloat b =>
          sum_cells (VFloat (f64_add (f64_of_Z a) b)) l'
      | VFloat a, VFloat b => sum_cells (VFloat (f64_add a b)) l'
      | VFloat a, (VInt b | VInt32 b) =>
          sum_cells (VFloat (f64_add a (f64_of_Z b))) l'
      | _, _ => bad_type "sum of a column that is not numeric"
      end
  end.

(** [pl.col(c).sum()]: the sum of no value is 0. *)
Definition sum (c : string) : agg_expr :=
  Agg c [c] (λ g, v ← sum_cells VNull (map (cell c) g);
                  Ok (if is_null v then VInt 0 else v)).

Fixpoint agg_cells (aggs : list agg_expr) (g : list (gmap string value))
  : result (list (string * value)) :=
  match aggs with
  | [] => Ok []
  | a :: aggs' =>
      v ← agg_eval a g; rest ← agg_cells aggs' g; Ok ((agg_name a, v) :: rest)
  end.

(** Order of the cells of a sort key: nulls first, then each kind in its
    own order (lists are not ordered). *)
Definition kind_rank (v : value) : Z :=
  match v with
  | VNull => 0 | VBool _ => 1 | VInt _ => 2 | VFloat _ => 3
  | VStr _ => 4 | VDate _ => 5 | VList _ => 6 | VInt32 _ => 7
  end.

Definition value_leb (a b : value) : bool :=
  match a, b with
  | VBool x, VBool y => implb x y
  | VInt x, VInt y => x <=? y
  | VInt32 x, VInt32 y => x <=? y
  | VDate x, VDate y => x <=? y
  | VFloat x, VFloat y => f64_le x y
  | VStr x, VStr y => match String.compare x y with Gt => false | _ => true end
  | _, _ => kind_rank a <=? kind_rank b
  end.

Definition row_le (by_ : string) (r1 r2 : gmap string value) : Prop :=
  value_leb (cell by_ r1) (cell by_ r2) = true.

#[global] Instance row_le_dec by_ r1 r2 : Decision (row_le by_ r1 r2).
Proof. unfold row_le. apply _. Defined.

Module LazyFrame.

Definition filter (p : expr) (df : frame) : result frame :=
  _ ← check_columns (columns df) (root_names p);
  kept ← filterR (keeps p) (rows df);
  Ok (Frame (columns df) kept).

(** [select(exprs)]: the frame of the computed columns only. *)
Definition select (es : list expr) (df : frame) : result frame :=
  _ ← check_columns (columns df) (roots_of es);
  _ ← check_unique (map output_name es);
  rs ← mapR (project es) (rows df);
  Ok (Frame (map output_name es) rs).

(** [with_columns(exprs)]: every expression reads the frame as it was;
    a computed column replaces the column of its name or is added. *)
Definition with_columns (es : list expr) (df : frame) : result frame :=
  _ ← check_columns (columns df) (roots_of es);
  _ ← check_unique (map output_name es);
  rs ← mapR (λ r, new ← project es r; Ok (new ∪ r)) (rows df);
  Ok (Frame (columns df ++
             base.filter (λ c, c ∉ columns df) (map output_name es)) rs).

(** [rename(mapping)]: all columns are renamed at once. *)
Definition rename (mapping : list (string * string)) (df : frame)
  : result frame :=
  let new_name c := default c (assoc c mapping) in
  _ ← check_columns (columns df) (map fst mapping);
  _ ← check_unique (map new_name (columns df));
  Ok (Frame (map new_name (columns df))
            (map (λ r, list_to_map
                         (map (λ c, (new_name c, cell c r)) (columns df)))
                 (rows df))).

(** [left.join(right, on=key, how="left")]: every left row, once per
    matching right row, or once with null right cells when none
    matches.  A right column whose name the left frame has already gets
    the suffix [_right]. *)
Definition right_columns (on : string) (left right : frame) : list string :=
  base.filter (λ c, c ≠ on) (columns right).

Definition right_name (left : frame) (c : string) : string :=
  if bool_decide (c ∈ columns left) then c +:+ "_right" else c.

Definition extend (on : string) (left right : frame)
    (lr : gmap string value) (cells : string → value) : gmap string value :=
  foldr (λ c acc, <[right_name left c := cells c]> acc) lr
        (right_columns on left right).

Definition matches (on : string) (right : frame) (lr : gmap string value)
  : list (gmap string value) :=
  base.filter (λ rr, join_match (cell on lr) (cell on rr) = true) (rows right).

Definition join_row (on : string) (left right : frame)
    (lr : gmap string value) : list (gmap string value) :=
  match matches on right lr with
  | [] => [extend on left right lr (λ _, VNull)]
  | ms => map (λ rr, extend on left right lr (λ c, cell c rr)) ms
  end.

Definition join_left (on : string) (right left : frame) : result frame :=
  let new_cols := map (right_name left) (right_columns on left right) in
  _ ← check_columns (columns left) [on];
  _ ← check_columns (columns right) [on];
  _ ← check_unique (columns left ++ new_cols);
  Ok (Frame (columns left ++ new_cols)
            (flat_map (join_row on left right) (rows left))).

(** [unique()]: one row of each set of equal rows. *)
Definition unique (df : frame) : frame :=
  Frame (columns df) (remove_dups (rows df)).

(** [group_by(keys).agg(aggs)]: one row per distinct key, with the key
    cells of the group's first row and the aggregated cells. *)
Definition group_row (by_ : list string) (aggs : list agg_expr)
    (g : list (gmap string value)) : result (gmap string value) :=
  let first := default ∅ (head g) in
  cells ← agg_cells aggs g;
  Ok (list_to_map (cells ++ map (λ c, (c, cell c first)) by_)).

Definition group_by_agg (by_ : list string) (aggs : list agg_expr)
    (df : frame) : result frame :=
  _ ← check_columns (columns df) (by_ ++ concat (map agg_roots aggs));
  _ ← check_unique (by_ ++ map agg_name aggs);
  rs ← mapR (λ kg, group_row by_ aggs kg.2) (groups_of by_ (rows df));
  Ok (Frame (by_ ++ map agg_name aggs) rs).

(** [sort(by)]: ascending, nulls first. *)
Definition sort (by_ : string) (df : frame) : result frame :=
  _ ← check_columns (columns df) [by_];
  Ok (Frame (columns df) (merge_sort (row_le by_) (rows df))).

End LazyFrame.

End Polars.

(* --------------------------------------------------------------------- *)
(** ** The world the pipeline runs in: files and the log                  *)
(* --------------------------------------------------------------------- *)

Module World.

(** A path is the list of its components from the root: [list string].

    What a file holds.  The bytes of the file formats are not modelled: a
    table file holds the frame that was written to it. *)
Inductive content : Type :=
| Parquet (df : Polars.frame)
| Csv (df : Polars.frame)
| Json (df : Polars.frame)
| Bytes (b : string).

Inductive node : Type :=
| Dir
| File (c : content).

Inductive level : Type := INFO | WARNING | CRITICAL.

Record world : Type := MkWorld {
  files : gmap (list string) node;
  logs : list (level * string)
}.

(** A computation that reads and changes the world and may raise; what it
    did to the world before raising stays done. *)
Definition io (A : Type) : Type := world → result A * world.

Definition io_ret {A} (a : A) : io A := λ w, (Ok a, w).
Definition io_bind {A B} (m : io A) (k : A → io B) : io B :=
  λ w, match m w with
       | (Ok a, w') => k a w'
       | (Err e, w') => (Err e, w')
       end.
#[global] Instance io_mret : MRet io := @io_ret.
#[global] Instance io_mbind : MBind io := λ A B k m, io_bind m k.

Definition raise {A} (e : error) : io A := λ w, (Err e, w).
Definition lift {A} (r : result A) : io A := λ w, (r, w).
Definition get_files : io (gmap (list string) node) := λ w, (Ok (files w), w).
Definition put_files (fs : gmap (list string) node) : io unit :=
  λ w, (Ok tt, MkWorld fs (logs w)).
Definition log_msg (lvl : level) (msg : string) : io unit :=
  λ w, (Ok tt, MkWorld (files w) (logs w ++ [(lvl, msg)])).

(** Runs an action on every element, in order. *)
Fixpoint for_each {A} (f : A → io unit) (l : list A) : io unit :=
  match l with
  | [] => io_ret tt
  | x :: l' => io_bind (f x) (λ _, for_each f l')
  end.

(** [path / name] *)
Definition child (p : list string) (name : string) : list string := p ++ [name].

Definition path_to_string (p : list string) : string :=
  String.concat "/" p.

(** All prefixes of a path, shortest first, the path itself last. *)
Fixpoint inits (p : list string) : list (list string) :=
  match p with
  | [] => [[]]
  | a :: p' => [] :: map (cons a) (inits p')
  end.

Definition is_file_node (n : option node) : bool :=
  match n with Some (File _) => true | _ => false end.
Definition is_dir_node (n : option node) : bool :=
  match n with Some Dir => true | _ => false end.
Definition is_some_node (n : option node) : bool :=
  match n with Some _ => true | None => false end.

(** [Path.exists()], [Path.is_dir()] *)
Definition exists_ (p : list string) : io bool :=
  fs ← get_files; mret (is_some_node (fs !! p)).
Definition is_dir (p : list string) : io bool :=
  fs ← get_files; mret (is_dir_node (fs !! p)).

(** [shutil.rmtree(path)]: the directory and everything below it. *)
Definition rmtree (p : list string) : io unit :=
  fs ← get_files;
  if is_dir_node (fs !! p)
  then put_files (filter (λ kv, ¬ p `prefix_of` kv.1) fs)
  else raise (if is_some_node (fs !! p)
              then NotADirectoryError else FileNotFoundError).

(** [Path.mkdir(parents=True, exist_ok=True)]: the directory and the
    missing ones above it; a file in the way raises. *)
Definition mkdir (p : list string) : io unit :=
  fs ← get_files;
  if is_file_node (fs !! p) then raise FileExistsError
  else if existsb (λ q, is_file_node (fs !! q)) (inits p)
  then raise NotADirectoryError
  else put_files (foldr (λ q acc, <[q := Dir]> acc) fs (inits p)).

(** Creates or replaces a file in an existing directory. *)
Definition write_file (p : list string) (c : content) : io unit :=
  fs ← get_files;
  if is_dir_node (fs !! p) then raise IsADirectoryError
  else if is_dir_node (fs !! (removelast p))
  then put_files (<[p := File c]> fs)
  else raise FileNotFoundError.

(** The files at or below a path. *)
Definition files_under (p : list string) (fs : gmap (list string) node)
  : gmap (list string) node :=
  filter (λ kv, p `prefix_of` kv.1 ∧ is_file_node (Some kv.2) = true) fs.

Definition ends_with (suffix s : string) : bool :=
  let n := String.length s in
  let m := String.length suffix in
  bool_decide (m ≤ n)%nat &&
  bool_decide (String.substring (n - m) m s = suffix).

(** [pl.scan_csv(path)], [pl.read_json(path)]: the frame held by the
    file.  The reading options ([ignore_errors], [infer_schema_length])
    belong to the text format and are not modelled. *)
Definition scan_csv (p : list string) : io Polars.frame :=
  fs ← get_files;
  match fs !! p with
  | Some (File (Csv df)) => mret df
  | Some _ => raise (InvalidOperationError "not a CSV file")
  | None => raise FileNotFoundError
  end.

Definition read_json (p : list string) : io Polars.frame :=
  fs ← get_files;
  match fs !! p with
  | Some (File (Json df)) => mret df
  | Some _ => raise (InvalidOperationError "not a JSON file")
  | None => raise FileNotFoundError
  end.

(** [pl.scan_parquet(path / "**/*.parquet")]: the rows of all columnar
    files below the path, under the schema of the first. *)
Definition parquet_frames (p : list string) (fs : gmap (list string) node)
  : list Polars.frame :=
  omap (λ kv, match kv.2 with
              | File (Parquet df) =>
                  if bool_decide (p `prefix_of` kv.1 ∧ p ≠ kv.1) &&
                     ends_with ".parquet" (default "" (last kv.1))
                  then Some df else None
              | _ => None
              end) (map_to_list fs).

Definition scan_parquet (p : list string) : io Polars.frame :=
  fs ← get_files;
  match parquet_frames p fs with
  | [] => raise FileNotFoundError
  | df :: dfs =>
      mret (Polars.Frame (Polars.columns df)
                         (concat (map Polars.rows (df :: dfs))))
  end.

(** [df.write_parquet(path)] *)
Definition write_parquet (df : Polars.frame) (p : list string) : io unit :=
  write_file p (Parquet df).

(** A frame with a list cell: the delimited text format has no nested
    data. *)
Definition has_nested (df : Polars.frame) : bool :=
  existsb (λ r, existsb (λ c, match Polars.cell c r with
                              | Polars.VList _ => true
                              | _ => false
                              end) (Polars.columns df))
          (Polars.rows df).

(** [df.write_csv(path)]: the file is created first; a frame with nested
    data is then refused, which leaves the file empty. *)
Definition write_csv (df : Polars.frame) (p : list string) : io unit :=
  if has_nested df
  then _ ← write_file p (Bytes "");
       raise (ComputeError "CSV format does not support nested data")
  else write_file p (Csv df).

(** Name of the directory of one partition key, [column=value]. *)
Definition hive_segment (c : string) (v : Polars.value) : result string :=
  s ← Polars.cast_string_v v;
  Ok (c +:+ "=" +:+
      match s with
      | Polars.VStr s => s
      | _ => "__HIVE_DEFAULT_PARTITION__"
      end).

Definition hive_dir (p : list string) (by_ : list string)
    (r : gmap string Polars.value) : result (list string) :=
  segs ← mapR (λ c, hive_segment c (Polars.cell c r)) by_;
  Ok (p ++ segs).

(** Name of the file written into each partition directory. *)
Definition part_file : string := "00000000.parquet".

(** [df.write_parquet(path, partition_by=keys)]: the rows of each distinct
    key go to one file below [path/key1=v1/key2=v2/...]; a frame without
    rows writes nothing. *)
Definition write_partition (df : Polars.frame) (p : list string)
    (by_ : list string) (g : list (gmap string Polars.value)) : io unit :=
  dir ← lift (hive_dir p by_ (default ∅ (head g)));
  _ ← mkdir dir;
  write_file (child dir part_file) (Parquet (Polars.Frame (Polars.columns df) g)).

Definition write_parquet_partitioned (df : Polars.frame) (p : list string)
    (by_ : list string) : io unit :=
  _ ← lift (Polars.check_columns (Polars.columns df) by_);
  for_each (λ kg, write_partition df p by_ kg.2)
           (Polars.groups_of by_ (Polars.rows df)).

End World.

(* --------------------------------------------------------------------- *)
(** ** The HTTP client library: sessions, adapters and the retry policy    *)
(* --------------------------------------------------------------------- *)

Module Requests.

(** [urllib3.util.retry.Retry], the fields the code sets; the others
    keep their defaults ([respect_retry_after_header] and
    [raise_on_status] are true, no separate limit for connection, read,
    redirect or status errors).  [total] is the number of retries that
    are left.  The delays slept between attempts are real time and are
    not modelled: only the factor is recorded. *)
Record Retry : Type := MkRetry {
  total : nat;
  backoff_factor : Z;
  status_forcelist : list Z;
  allowed_methods : list string
}.

Record HTTPAdapter : Type := MkHTTPAdapter { max_retries : Retry }.

Record Session : Type := MkSession {
  adapters : list (string * HTTPAdapter);   (* URL prefix, adapter *)
  headers : gmap string string
}.

Record Request : Type := MkRequest {
  method : string;
  url : string;
  request_headers : gmap string string
}.

(** What the server answers: the status, and whether the answer has a
    [Retry-After] header.  Answers are taken to have no [Location]
    header, so that the session follows no redirect. *)
Record Response : Type := MkResponse {
  status : Z;
  retry_after : bool
}.

Definition upper_ascii (a : ascii) : ascii :=
  let n := N_of_ascii a in
  if ((97 <=? n) && (n <=? 122))%N then ascii_of_N (n - 32) else a.

(** [str.upper()] on the letters a to z. *)
Fixpoint upper (s : string) : string :=
  match s with
  | EmptyString => EmptyString
  | String a s' => String (upper_ascii a) (upper s')
  end.

Definition DEFAULT_ALLOWED_METHODS : list string :=
  ["DELETE"; "GET"; "HEAD"; "OPTIONS"; "PUT"; "TRACE"].

Definition RETRY_AFTER_STATUS_CODES : list Z := [413; 429; 503].

(** A fresh [requests.Session]: the library's default headers and adapters
    that do not retry. *)
Definition no_retry : Retry := MkRetry 0 0 [] DEFAULT_ALLOWED_METHODS.

Definition new_session : Session :=
  MkSession
    [("https://", MkHTTPAdapter no_retry); ("http://", MkHTTPAdapter no_retry)]
    (<["User-Agent" := "python-requests"]>
       (<["Accept-Encoding" := "gzip, deflate"]>
          (<["Accept" := "*/*"]> (<["Connection" := "keep-alive"]> ∅)))).

(** [session.mount(prefix, adapter)] *)
Definition mount (prefix : string) (a : HTTPAdapter) (s : Session) : Session :=
  MkSession
    ((prefix, a) :: filter (λ pa, pa.1 ≠ prefix) (adapters s))
    (headers s).

(** [session.headers.update(d)] *)
Definition headers_update (d : gmap string string) (s : Session) : Session :=
  MkSession (adapters s) (d ∪ headers s).

Fixpoint is_prefix (p s : string) : bool :=
  match p, s with
  | EmptyString, _ => true
  | String a p', String b s' => bool_decide (a = b) && is_prefix p' s'
  | _, _ => false
  end.

(** [session.get_adapter(url)]: the adapter mounted on a prefix of the
    URL. *)
Definition get_adapter (s : Session) (u : string) : option HTTPAdapter :=
  snd <$> head (filter (λ pa, is_prefix pa.1 u = true) (adapters s)).

(** [Retry._is_method_retryable(method)]: an empty list allows every
    method. *)
Definition is_method_retryable (r : Retry) (m : string) : bool :=
  bool_decide (allowed_methods r = []) ||
  bool_decide (upper m ∈ allowed_methods r).

(** [Retry.is_retry(method, status_code, has_retry_after)]: the status is
    on the force list, or retries are left and the answer has a
    [Retry-After] header with one of the statuses that go with it. *)
Definition is_retry (r : Retry) (m : string) (status_code : Z)
    (has_retry_after : bool) : bool :=
  is_method_retryable r m &&
  (bool_decide (status_code ∈ status_forcelist r) ||
   (negb (Nat.eqb (total r) 0) && has_retry_after &&
    bool_decide (status_code ∈ RETRY_AFTER_STATUS_CODES))).

(** What one call through the session did: the requests that went out,
    in order, and the answer finally returned, or the error raised once
    the retries were used up. *)
Record exchange : Type := MkExchange {
  sent : list Request;
  outcome : result Response
}.

(** [Retry.new(total=left)]: the policy with [left] retries left. *)
Definition new (r : Retry) (left : nat) : Retry :=
  MkRetry left (backoff_factor r) (status_forcelist r) (allowed_methods r).

(** The retry loop of the connection pool.  [server n] is what the
    server answers to the [n]-th request.  An answer that must be retried
    uses up one of the [budget] retries that are left; when none is left
    the call fails. *)
Fixpoint urlopen (budget : nat) (r : Retry) (req : Request)
    (server : nat → Response) (n : nat) : exchange :=
  let response := server n in
  if is_retry (new r budget) (method req)
              (status response) (retry_after response) then
    match budget with
    | O => MkExchange [req] (Err (RuntimeError "MaxRetryError"))
    | S budget' =>
        let rest := urlopen budget' r req server (S n) in
        MkExchange (req :: sent rest) (outcome rest)
    end
  else MkExchange [req] (Ok response).

(** [session.request(method, url)]: the method is put in upper case, the
    request carries the session's headers and goes through the adapter of
    its URL. *)
Definition request (s : Session) (m u : string) (server : nat → Response)
  : exchange :=
  let req := MkRequest (upper m) u (headers s) in
  match get_adapter s u with
  | Some a => urlopen (total (max_retries a)) (max_retries a) req server 0
  | None => MkExchange [] (Err (ValueError "InvalidSchema"))
  end.

(** [session.get(url)] *)
Definition get (s : Session) (u : string) (server : nat → Response) : exchange :=
  request s "GET" u server.

(** The methods HTTP defines as idempotent. *)
Definition idempotent_methods : list string :=
  ["GET"; "HEAD"; "OPTIONS"; "TRACE"; "PUT"; "DELETE"].

End Requests.

(* --------------------------------------------------------------------- *)
(** ** src/utils.py                                                        *)
(* --------------------------------------------------------------------- *)

Module Utils.
Import World.

(** [clean_output_directory(path)] *)
Definition clean_output_directory (path : list string) : io unit :=
  e ← exists_ path;
  d ← is_dir path;
  _ ← (if e && d then rmtree path else mret tt);
  mkdir path.

(** [ensure_directory(path)]: the parent of [path] is created when
    nothing is there. *)
Definition ensure_directory (path : list string) : io unit :=
  e ← exists_ (removelast path);
  if negb e then mkdir (removelast path) else mret tt.

(** [ensure_directories(paths)]: [paths] is the [paths] entry of the
    configuration, a dict from layer names to paths, in its order. *)
Definition ensure_directories (paths : list (string * list string)) : io unit :=
  for_each (λ kv, mkdir kv.2) paths.

(** [setup_session()] *)
Definition retry_strategy : Requests.Retry :=
  Requests.MkRetry 3 1 [500; 502; 503; 504] ["HEAD"; "GET"; "OPTIONS"].

Definition setup_session : Requests.Session :=
  let session := Requests.new_session in
  let adapter := Requests.MkHTTPAdapter retry_strategy in
  let session := Requests.mount "https://" adapter session in
  let session := Requests.mount "http://" adapter session in
  Requests.headers_update {["User-Agent" := "NYCCollisionETL/1.0"]} session.

(** [df.select(pl.col(col).null_count()).item()] *)
Definition null_count (col : string) (df : Polars.frame) : Z :=
  Z.of_nat (length (filter (λ r, Polars.is_null (Polars.cell col r) = true)
                           (Polars.rows df))).

(** The body of the loop over the critical columns. *)
Definition check_critical (df : Polars.frame) (name col : string) : io unit :=
  if bool_decide (col ∉ Polars.columns df) then
    log_msg WARNING ("Skipping null check for missing column '" +:+ col +:+
                     "' in '" +:+ name +:+ "'")
  else
    let n := null_count col df in
    if 0 <? n then
      log_msg WARNING ("DQ Warning: Column '" +:+ col +:+ "' in '" +:+ name +:+
                       "' has " +:+ Polars.int_to_string n +:+ " nulls.")
    else mret tt.

(** [validate_dataframe(df, name, critical_cols)]; [critical_cols] is
    [None] or a list. *)
Definition validate_dataframe (df : Polars.frame) (name : string)
    (critical_cols : option (list string)) : io unit :=
  _ ← log_msg INFO ("Running Data Quality check for '" +:+ name +:+ "'...");
  _ ← (if bool_decide (Polars.height df = 0%nat)
       then raise (ValueError ("Data Quality error: Input for '" +:+ name +:+
                               "' is empty"))
       else mret tt);
  _ ← match critical_cols with
      | Some (c :: cs) => for_each (check_critical df name) (c :: cs)
      | _ => mret tt
      end;
  log_msg INFO ("DQ Check passed for '" +:+ name +:+ "'. Rows: " +:+
                Polars.int_to_string (Z.of_nat (Polars.height df))).

End Utils.

(** What a transform is given as input: a frame in memory, a path on
    disk, or anything else (which raises). *)
Inductive input_data : Type :=
| DataFrame (df : Polars.frame)
| Path (p : list string)
| Unsupported.

(* --------------------------------------------------------------------- *)
(** ** src/layers/silver_processing.py                                     *)
(* --------------------------------------------------------------------- *)

Module SilverProcessor.
Import World Polars Utils.

(** The two entries of the configuration that [__init__] keeps. *)
Record config : Type := Config {
  rename_map : list (string * string);
  metric_cols : list string
}.

(** The two lists that [process_collisions] gives to [with_columns]: the
    parsed date with the cleaned locality and metrics, then the weekend
    flag and the partition keys. *)
Definition cleaned (self : config) : list expr :=
  [ alias "date" (str_to_date "%m/%d/%Y" (col "crash_date"));
    fill_null (VStr "UNKNOWN") (col "borough") ] ++
  map (λ c, cast_int32 true (fill_null (VInt 0) (col c))) (metric_cols self).

Definition calendar : list expr :=
  [ alias "is_weekend" (ge_lit (dt_weekday (col "date")) (VInt 6));
    alias "year" (dt_year (col "date"));
    alias "month" (dt_month (col "date")) ].

(** The query [q] of [process_collisions], collected. *)
Definition collisions_query (self : config) (lf : frame) : result frame :=
  q ← LazyFrame.filter (is_not_null (col "CRASH DATE")) lf;
  q ← LazyFrame.rename (rename_map self) q;
  q ← LazyFrame.select (map col (map snd (rename_map self))) q;
  q ← LazyFrame.with_columns (cleaned self) q;
  LazyFrame.with_columns calendar q.

Definition process_collisions (self : config) (input : input_data)
    (output_path : list string) : io (frame * list string) :=
  _ ← log_msg INFO "Processing Collisions (Bronze -> Silver)...";
  lf ← match input with
       | Path p => scan_csv p
       | DataFrame df => mret df
       | Unsupported => raise (TypeError "Unsupported input type")
       end;
  df_silver ← lift (collisions_query self lf);
  _ ← log_msg INFO ("Persisting Collisions Silver Layer to " +:+
                    path_to_string output_path +:+ "...");
  _ ← clean_output_directory output_path;
  _ ← write_parquet_partitioned df_silver output_path ["year"; "month"];
  mret (df_silver, output_path).

(** The query [q] of [process_holidays], collected. *)
Definition holidays_query (lf : frame) : result frame :=
  q ← LazyFrame.select
        [ str_to_date "%Y-%m-%d" (col "date");
          alias "holiday_name" (col "name");
          cast_list_string (col "types") ] lf;
  q ← LazyFrame.with_columns
        [ alias "year" (dt_year (col "date"));
          alias "month" (dt_month (col "date")) ] q;
  Ok (LazyFrame.unique q).

Definition process_holidays (input : input_data) (output_path : list string)
  : io (frame * list string) :=
  _ ← log_msg INFO "Processing Holidays (Bronze -> Silver)...";
  lf ← match input with
       | Path p => read_json p
       | DataFrame df => mret df
       | Unsupported => raise (TypeError "Unsupported input type")
       end;
  df_silver ← lift (holidays_query lf);
  _ ← log_msg INFO ("Persisting Holidays Silver Layer to " +:+
                    path_to_string output_path +:+ "...");
  _ ← clean_output_directory output_path;
  _ ← write_parquet_partitioned df_silver output_path ["year"];
  mret (df_silver, output_path).

(** A weather reading: the text of the column, trimmed and cast to a
    float. *)
Definition reading (c : string) : expr :=
  cast_float64 (str_strip_chars (cast_string (col c))).

(** A weather-type flag: the text of the column, trimmed and cast to an
    integer, null when it is no integer. *)
Definition flag (c : string) : expr :=
  cast_int32 false (str_strip_chars (cast_string (col c))).

(** The columns that [process_weather] computes from the raw ones (the
    list it gives to its first [with_columns]), one by one.  [round(1)]
    rounds ties to even, the default of the library. *)
Definition date_expr : expr :=
  alias "date" (str_to_date "%Y-%m-%d" (col "DATE")).
Definition temp_max_c : expr :=
  alias "temp_max_c" (round HalfToEven 1 (truediv (reading "TMAX") (VInt 10))).
Definition temp_min_c : expr :=
  alias "temp_min_c" (round HalfToEven 1 (truediv (reading "TMIN") (VInt 10))).
Definition precipitation_mm : expr :=
  alias "precipitation_mm" (truediv (reading "PRCP") (VInt 10)).
Definition snow_mm : expr := alias "snow_mm" (reading "SNOW").
Definition is_foggy : expr :=
  alias "is_foggy"
    (fill_null (VBool false)
       (any_horizontal (eq_lit (flag "WT01") (VInt 1))
                       (eq_lit (flag "WT02") (VInt 1)))).
Definition has_rain : expr :=
  alias "has_rain" (fill_null (VBool false) (gt_lit (reading "PRCP") (VInt 0))).
Definition has_snow : expr :=
  alias "has_snow" (fill_null (VBool false) (gt_lit (reading "SNOW") (VInt 0))).

Definition weather_exprs : list expr :=
  [ date_expr; temp_max_c; temp_min_c; precipitation_mm; snow_mm;
    is_foggy; has_rain; has_snow ].

Definition clean_columns : list string :=
  [ "date"; "temp_max_c"; "temp_min_c"; "precipitation_mm";
    "snow_mm"; "is_foggy"; "has_rain"; "has_snow" ].

Definition partition_keys : list expr :=
  [ alias "year" (dt_year (col "date"));
    alias "month" (dt_month (col "date")) ].

(** The query [q] of [process_weather], collected. *)
Definition weather_query (lf : frame) : result frame :=
  q ← LazyFrame.filter (ge_lit (col "DATE") (VStr "2020-01-01")) lf;
  q ← LazyFrame.filter (is_not_null (col "DATE")) q;
  q ← LazyFrame.with_columns weather_exprs q;
  q ← LazyFrame.select (map col clean_columns) q;
  LazyFrame.with_columns partition_keys q.

Definition process_weather (input : input_data)
    (output_path : list string) : io (frame * list string) :=
  _ ← log_msg INFO "Processing Weather Data (Bronze -> Silver)...";
  lf ← match input with
       | Path p => scan_csv p
       | DataFrame df => mret df
       | Unsupported => raise (TypeError "Unsupported input type")
       end;
  df_silver ← lift (weather_query lf);
  _ ← log_msg INFO ("Persisting Weather Silver Layer to " +:+
                    path_to_string output_path +:+ "...");
  _ ← clean_output_directory output_path;
  _ ← write_parquet_partitioned df_silver output_path ["year"; "month"];
  mret (df_silver, output_path).

End SilverProcessor.

(* --------------------------------------------------------------------- *)
(** ** src/layers/gold_processing.py                                       *)
(* --------------------------------------------------------------------- *)

Module GoldProcessor.
Import World Polars Utils.

Definition METRIC_COLS : list string :=
  [ "number_of_persons_injured"; "number_of_persons_killed";
    "number_of_pedestrians_injured"; "number_of_pedestrians_killed";
    "number_of_cyclist_injured"; "number_of_cyclist_killed";
    "number_of_motorist_injured"; "number_of_motorist_killed" ].

Definition _normalize_input (input : input_data) (table_name : string)
  : io frame :=
  match input with
  | DataFrame df =>
      _ ← log_msg INFO ("Input '" +:+ table_name +:+ "': using DataFrame");
      mret df
  | Path p =>
      _ ← log_msg INFO ("Input '" +:+ table_name +:+ "': scanning disk at " +:+
                        path_to_string p +:+ "/**/*.parquet");
      scan_parquet p
  | Unsupported =>
      raise (TypeError ("Unsupported input type for " +:+ table_name))
  end.

Definition weather_columns : list string :=
  [ "date"; "temp_max_c"; "temp_min_c"; "has_rain"; "has_snow"; "is_foggy" ].

(** Impact flag: the type list contains one of two tags. *)
Definition impact (name a b : string) : expr :=
  alias name
    (fill_null (VBool false)
       (or_ (list_contains a (col "types")) (list_contains b (col "types")))).

(** The columns that [_enrich_collisions] computes after the joins (the
    list it gives to [with_columns]). *)
Definition derived_columns : list expr :=
  [ fill_null (VStr "Non-Holiday") (col "holiday_name");
    impact "high_impact_holiday" "Public" "Bank";
    impact "partial_impact_holiday" "School" "Authorities";
    impact "low_impact_holiday" "Optional" "Observance";
    fill_null (VBool false) (col "has_rain");
    fill_null (VBool false) (col "has_snow");
    fill_null (VBool false) (col "is_foggy");
    alias "max_temp" (col "temp_max_c");
    alias "min_temp" (col "temp_min_c") ].

Definition _enrich_collisions (lf_collisions lf_holidays lf_weather : frame)
  : result frame :=
  weather_clean ← LazyFrame.select (map col weather_columns) lf_weather;
  q ← LazyFrame.filter (ge_lit (dt_year (col "date")) (VInt 2020)) lf_collisions;
  q ← LazyFrame.join_left "date" lf_holidays q;
  q ← LazyFrame.join_left "date" weather_clean q;
  LazyFrame.with_columns derived_columns q.

Definition group_cols : list string :=
  [ "date"; "borough"; "zip_code"; "is_weekend"; "holiday_name";
    "high_impact_holiday"; "partial_impact_holiday"; "low_impact_holiday";
    "has_rain"; "has_snow"; "is_foggy"; "max_temp"; "min_temp" ].

Definition _aggregate_stats (enriched_df : frame) : result frame :=
  q ← LazyFrame.group_by_agg group_cols
        (agg_alias "total_accidents" len :: map sum METRIC_COLS) enriched_df;
  LazyFrame.sort "date" q.

Definition process_gold_data
    (collisions_data holidays_data weather_data : input_data)
    (gold_base_path : list string) : io unit :=
  lf_collisions ← _normalize_input collisions_data "collisions";
  lf_holidays ← _normalize_input holidays_data "holidays";
  lf_weather ← _normalize_input weather_data "weather";
  _ ← log_msg INFO
        "Applying business rules: joining Collisions, Holidays & Weather...";
  df_enriched ← lift (_enrich_collisions lf_collisions lf_holidays lf_weather);
  _ ← log_msg INFO "Creating gold aggregations...";
  df_gold ← lift (_aggregate_stats df_enriched);
  _ ← clean_output_directory gold_base_path;
  let parquet_path := child gold_base_path "daily_stats.parquet" in
  let csv_path := child gold_base_path "daily_stats.csv" in
  _ ← log_msg INFO ("Persisting gold data to " +:+
                    path_to_string gold_base_path +:+ "...");
  _ ← write_parquet df_gold parquet_path;
  _ ← write_csv df_gold csv_path;
  log_msg INFO "Gold layer processing complete.".

End GoldProcessor.

(* --------------------------------------------------------------------- *)
(** ** Sample tables                                                       *)
(* --------------------------------------------------------------------- *)

Module Sample.
Import Polars.

Definition row_of (cells : list (string * value)) : gmap string value :=
  list_to_map cells.

(** 2019-12-31, 2024-01-01 and 2024-06-01 as day numbers. *)
Definition d2019_12_31 : Z := 18261.
Definition d2024_01_01 : Z := 19723.
Definition d2024_06_01 : Z := 19875.

Definition zero_metrics : list (string * value) :=
  map (λ c, (c, VInt 0)) (tail GoldProcessor.METRIC_COLS).

(** An enriched row: date, borough, temperature (null or not) and the
    number of persons injured; the other cells are the same for all. *)
Definition enriched_row (d : Z) (borough : string) (temp : value) (injured : Z)
  : gmap string value :=
  row_of ([ ("date", VDate d); ("borough", VStr borough);
            ("zip_code", VStr "10001"); ("is_weekend", VBool false);
            ("holiday_name", VStr "Non-Holiday");
            ("high_impact_holiday", VBool false);
            ("partial_impact_holiday", VBool false);
            ("low_impact_holiday", VBool false);
            ("has_rain", VBool false); ("has_snow", VBool false);
            ("is_foggy", VBool false);
            ("max_temp", temp); ("min_temp", temp);
            ("number_of_persons_injured", VInt injured) ] ++ zero_metrics).

(** Four enriched rows, not in date order; three of them have no
    temperature. *)
Definition enriched : frame :=
  Frame (GoldProcessor.group_cols ++ GoldProcessor.METRIC_COLS)
    [ enriched_row d2024_06_01 "QUEENS" VNull 1;
      enriched_row d2024_01_01 "MANHATTAN" VNull 2;
      enriched_row d2024_06_01 "QUEENS" VNull 0;
      enriched_row d2024_01_01 "MANHATTAN" (VFloat (f64_of_Z 10)) 1 ].

(** A standardized collision row. *)
Definition collision_row (d : Z) (borough zip : string) (injured : Z)
  : gmap string value :=
  row_of ([ ("date", VDate d); ("borough", VStr borough);
            ("zip_code", VStr zip); ("is_weekend", VBool false);
            ("number_of_persons_injured", VInt injured) ] ++ zero_metrics).

Definition collision_columns : list string :=
  ["date"; "borough"; "zip_code"; "is_weekend"] ++ GoldProcessor.METRIC_COLS.

(** Two collisions on 2024-01-01 and one on 2019-12-31. *)
Definition old_collision : gmap string value :=
  collision_row d2019_12_31 "QUEENS" "11101" 0.

Definition collisions : frame :=
  Frame collision_columns
    [ collision_row d2024_01_01 "MANHATTAN" "10001" 1;
      collision_row d2024_01_01 "MANHATTAN" "10001" 2;
      old_collision ].

(** One collision on a day without holiday and without weather. *)
Definition june_collision : frame :=
  Frame collision_columns [ collision_row d2024_06_01 "BRONX" "10451" 0 ].

(** The same collision in a table that has a column [has_rain] of its
    own. *)
Definition rainy_collision : frame :=
  Frame (collision_columns ++ ["has_rain"])
    [ <["has_rain" := VBool true]>
        (collision_row d2024_06_01 "BRONX" "10451" 0) ].

Definition holiday_columns : list string := ["date"; "holiday_name"; "types"].

Definition holidays : frame :=
  Frame holiday_columns
    [ row_of [ ("date", VDate d2024_01_01); ("holiday_name", VStr "New Year");
               ("types", VList ["National"; "Public"]) ] ].

(** 10.5 degrees and rain on 2024-01-01. *)
Definition weather : frame :=
  Frame GoldProcessor.weather_columns
    [ row_of [ ("date", VDate d2024_01_01);
               ("temp_max_c", VFloat (f64_of_decimal false 105 (-1)));
               ("temp_min_c", VFloat (f64_of_Z 5));
               ("has_rain", VBool true); ("has_snow", VBool false);
               ("is_foggy", VBool false) ] ].

(** Two different holiday entries of the source for the same day, and a
    repeated one. *)
Definition raw_holidays : frame :=
  Frame ["date"; "name"; "types"]
    [ row_of [ ("date", VStr "2024-01-01"); ("name", VStr "New Year");
               ("types", VList ["National"; "Public"]) ];
      row_of [ ("date", VStr "2024-01-01"); ("name", VStr "Founders Day");
               ("types", VList ["Observance"]) ];
      row_of [ ("date", VStr "2024-01-01"); ("name", VStr "New Year");
               ("types", VList ["National"; "Public"]) ] ].

(** The silver configuration of the repository's tests. *)
Definition config : SilverProcessor.config :=
  SilverProcessor.Config
    [ ("CRASH DATE", "crash_date"); ("CRASH TIME", "crash_time");
      ("BOROUGH", "borough"); ("ZIP CODE", "zip_code");
      ("NUMBER OF PERSONS INJURED", "number_of_persons_injured");
      ("NUMBER OF PERSONS KILLED", "number_of_persons_killed");
      ("CONTRIBUTING FACTOR VEHICLE 1", "contributing_factor_vehicle_1") ]
    [ "number_of_persons_injured"; "number_of_persons_killed" ].

Definition raw_collision (date borough injured : value) : gmap string value :=
  row_of [ ("CRASH DATE", date); ("CRASH TIME", VStr "14:30");
           ("BOROUGH", borough); ("ZIP CODE", VStr "10001");
           ("NUMBER OF PERSONS INJURED", injured);
           ("NUMBER OF PERSONS KILLED", VInt 0);
           ("CONTRIBUTING FACTOR VEHICLE 1", VStr "Unspecified") ].

(** Raw collisions dated 01/01/2024 and 01/01/2019, and one without
    date. *)
Definition raw_collisions : frame :=
  Frame (map fst (SilverProcessor.rename_map config))
    [ raw_collision (VStr "01/01/2024") (VStr "MANHATTAN") (VStr "1");
      raw_collision (VStr "01/01/2019") VNull VNull;
      raw_collision VNull (VStr "BRONX") (VStr "0") ].

Definition raw_weather_row (date tmax tmin prcp snow wt01 wt02 : value)
  : gmap string value :=
  row_of [ ("DATE", date); ("TMAX", tmax); ("TMIN", tmin); ("PRCP", prcp);
           ("SNOW", snow); ("WT01", wt01); ("WT02", wt02) ].

Definition raw_weather_columns : list string :=
  ["DATE"; "TMAX"; "TMIN"; "PRCP"; "SNOW"; "WT01"; "WT02"].

(** Raw weather: a day before the cut-off, then three days with the fog
    flags 1/0, 0/1 and 0/0, one of them with padded and unparseable
    values. *)
Definition raw_weather : frame :=
  Frame raw_weather_columns
    [ raw_weather_row (VStr "2019-12-31") (VStr "100") (VStr "0") (VStr "0")
                      (VStr "0") (VStr "0") (VStr "0");
      raw_weather_row (VStr "2024-01-01") (VStr "250") (VStr "150") (VStr "50")
                      (VStr "0") (VStr "1") (VStr "0");
      raw_weather_row (VStr "2024-01-02") (VStr " -50 ") (VStr "-100") (VStr "0")
                      (VStr "10") (VStr "0") (VStr "1");
      raw_weather_row (VStr "2024-01-03") (VStr "33") (VStr "12") VNull
                      (VStr "0") (VStr "0") (VStr "0");
      raw_weather_row (VStr "2024-01-04") VNull (VStr "12") (VStr "7")
                      (VStr "0") (VStr "n/a") VNull ].

(** A world without files, and one in which the silver and gold
    directories hold files of an earlier run. *)
Definition empty_world : World.world := World.MkWorld ∅ [].

Definition silver_path : list string := ["data"; "silver"; "collisions"].
Definition weather_path : list string := ["data"; "silver"; "weather"].
Definition gold_path : list string := ["data"; "gold"].

(** A download address, and servers that answer 501 always, 503 twice
    and then 200, and 503 always. *)
Definition url : string := "https://data.cityofnewyork.us/rows.csv".
Definition answer (status : Z) : Requests.Response :=
  Requests.MkResponse status false.
Definition server_501 : nat → Requests.Response := λ _, answer 501.
Definition server_flaky : nat → Requests.Response :=
  λ n, if (n <? 2)%nat then answer 503 else answer 200.
Definition server_down : nat → Requests.Response := λ _, answer 503.

(** A server that answers 429 with a [Retry-After] header, always. *)
Definition server_busy : nat → Requests.Response :=
  λ _, Requests.MkResponse 429 true.

Definition used_world : World.world :=
  World.MkWorld
    (list_to_map
       [ ([], World.Dir); (["data"], World.Dir);
         (["data"; "silver"], World.Dir); (silver_path, World.Dir);
         (silver_path ++ ["year=2018"], World.Dir);
         (silver_path ++ ["year=2018"; "old.parquet"],
          World.File (World.Bytes "stale"));
         (gold_path, World.Dir);
         (gold_path ++ ["daily_stats.parquet"], World.File (World.Bytes "stale"));
         (gold_path ++ ["notes.txt"], World.File (World.Bytes "stale"));
         (["data"; "keep.txt"], World.File (World.Bytes "other")) ])
    [].

End Sample.

(* --------------------------------------------------------------------- *)
(** ** Notions used in the statements                                      *)
(* --------------------------------------------------------------------- *)

Module Stmt.
Import Polars.

(** The integer held by the [total_accidents] cell of a fact row. *)
Definition total_accidents (r : gmap string value) : Z :=
  match cell "total_accidents" r with
  | VInt n => n
  | _ => 0
  end.

(** Sum of [total_accidents] over the rows of a fact table. *)
Definition sum_total_accidents (df : frame) : Z :=
  foldr Z.add 0 (map total_accidents (rows df)).

(** A cell of a numeric column. *)
Definition summable (v : value) : Prop :=
  match v with
  | VNull | VInt _ | VInt32 _ | VFloat _ => True
  | _ => False
  end.

(** An enriched table that [_aggregate_stats] accepts: it has the
    grouping and the metric columns, and its metric cells are numbers or
    null. *)
Definition aggregable (df : frame) : Prop :=
  (∀ c, c ∈ GoldProcessor.group_cols ++ GoldProcessor.METRIC_COLS →
        c ∈ columns df) ∧
  (∀ r c, r ∈ rows df → c ∈ GoldProcessor.METRIC_COLS → summable (cell c r)).

(** A collision row that the enrichment keeps: dated, in 2020 or later. *)
Definition in_window (r : gmap string value) : bool :=
  match cell "date" r with
  | VDate d => 2020 <=? year_of d
  | _ => false
  end.

(** The rows of a table that share a date key (null matches nothing). *)
Definition same_date (v : value) (df : frame) : list (gmap string value) :=
  filter (λ r, join_match v (cell "date" r) = true) (rows df).

(** A type list contains one of two tags; false when there is no list. *)
Definition flagged (a b : string) (types : value) : bool :=
  match types with
  | VList l => bool_decide (a ∈ l) || bool_decide (b ∈ l)
  | _ => false
  end.

(** The holiday and weather columns the enrichment reads, besides the
    date. *)
Definition holiday_fields : list string := ["holiday_name"; "types"].
Definition weather_fields : list string :=
  ["temp_max_c"; "temp_min_c"; "has_rain"; "has_snow"; "is_foggy"].

(** Column layout of the enrichment input as the silver layer produces
    it: the collisions table has no column named like a holiday or
    weather field, and the holiday table has the holiday fields and none
    named like a weather field. *)
Definition silver_layout (collisions holidays : frame) : Prop :=
  (∀ x, x ∈ holiday_fields ++ weather_fields → x ∉ columns collisions) ∧
  (∀ x, x ∈ weather_fields → x ∉ columns holidays) ∧
  (∀ x, x ∈ holiday_fields → x ∈ columns holidays).

(** [fill_null] on a cell. *)
Definition fill (d v : value) : value := if is_null v then d else v.

(** The first day of the window, 2020-01-01, as a day number. *)
Definition window_start : Z := Eval vm_compute in days_from_civil 2020 1 1.

(** The collisions table after the window filter. *)
Definition kept (collisions : frame) : frame :=
  Frame (columns collisions) (List.filter in_window (rows collisions)).

(** How an output row of the enrichment comes about: a kept collision
    row [lr], one of its rows [r1] after the holiday join (giving the
    table [q1]), one of that row's rows [r2] after the join with the
    selected weather columns [wc], and the derived columns on top. *)
Definition chain (c h wc q1 : frame) (lr r1 r2 r : gmap string value) : Prop :=
  lr ∈ rows c ∧ in_window lr = true ∧
  r1 ∈ LazyFrame.join_row "date" (kept c) h lr ∧
  r2 ∈ LazyFrame.join_row "date" q1 wc r1 ∧
  ∃ new, project GoldProcessor.derived_columns r2 = Ok new ∧ r = new ∪ r2.

(** Number of enriched rows that a kept collision row gives rise to. *)
Definition multiplicity (h w : frame) (lr : gmap string value) : nat :=
  (Nat.max 1 (length (same_date (cell "date" lr) h)) *
   Nat.max 1 (length (same_date (cell "date" lr) w)))%nat.

(** A raw collision row that has a crash date. *)
Definition has_crash_date (r : gmap string value) : bool :=
  negb (is_null (cell "CRASH DATE" r)).

(** The columns whose cells [process_collisions] computes anew. *)
Definition recomputed (self : SilverProcessor.config) : list string :=
  map output_name (SilverProcessor.cleaned self ++ SilverProcessor.calendar).

(** How a standardized collision row [r'] relates to the raw row [r] it
    comes from: every renamed column that is not recomputed holds the raw
    cell. *)
Definition standardizes (self : SilverProcessor.config)
    (r r' : gmap string value) : Prop :=
  ∀ old new, assoc old (SilverProcessor.rename_map self) = Some new →
             new ∉ recomputed self → cell new r' = cell old r.

(** The frame a transform works on, given its input and the files. *)
Definition loads (read : list string → World.io frame)
    (input : input_data) (w : World.world) (lf : frame) : Prop :=
  match input with
  | DataFrame df => lf = df
  | Path p => (read p w).1 = Ok lf
  | Unsupported => False
  end.

(** A raw weather row that passes both filters of [process_weather]: its
    date text is present and not before "2020-01-01". *)
Definition survives (r : gmap string value) : bool :=
  match cell "DATE" r with
  | VStr s => negb (String.ltb s "2020-01-01")
  | _ => false
  end.

(** The number a raw reading stands for: null stays null, a text is
    trimmed and parsed. *)
Definition parsed (v : value) : option (option spec_float) :=
  match cast_string_v v with
  | Ok VNull => Some None
  | Ok (VStr s) => f ← parse_float64 (strip_chars s); Some (Some f)
  | _ => None
  end.

(** The integer [n] is nearest to the number [v * 2^e], where [e < 0],
    and it is the even one when two integers are equally near. *)
Definition nearest_even (v e n : Z) : Prop :=
  let d := 2 ^ (- e) in
  Z.abs (2 * v - 2 * n * d) <= d ∧
  (Z.abs (2 * v - 2 * n * d) = d → Z.even n = true).

(** The float of an integer, a zero taking the sign [neg]. *)
Definition f64_of_int (neg : bool) (n : Z) : spec_float :=
  match n with
  | Z0 => S754_zero neg
  | _ => f64_of_Z n
  end.

(** The float [r] is the float [p] rounded to an integer, ties to even:
    [p] itself when it is an integer, a zero, an infinity or no number,
    and else the float of the nearest integer, with the sign of [p]. *)
Definition to_integer (p r : spec_float) : Prop :=
  match p with
  | S754_finite s m e =>
      if 0 <=? e then r = p
      else ∃ n, nearest_even (if s then Zneg m else Zpos m) e n ∧
                r = f64_of_int s n
  | _ => r = p
  end.

(** The float [y] is [x] rounded to one decimal place: ten times [x] is
    rounded to an integer and divided by ten, and where that is not a
    finite number [x] is left as it is. *)
Definition rounded_to_tenth (x y : spec_float) : Prop :=
  ∃ r, to_integer (f64_mul x (f64_of_Z 10)) r ∧
       y = (let q := f64_div r (f64_of_Z 10) in
            if f64_is_finite q then q else x).

(** A raw reading in tenths of a unit and the cell computed from it: the
    parsed number divided by ten, and the cell holds a float that is in
    the relation [rel] with the quotient; null stays null, and a text
    that is no number has no cell. *)
Definition tenths (rel : spec_float → spec_float → Prop) (raw out : value)
  : Prop :=
  match parsed raw with
  | Some (Some f) => ∃ y, out = VFloat y ∧ rel (f64_div f (f64_of_Z 10)) y
  | Some None => out = VNull
  | None => False
  end.

(** The no-break space U+00A0, two bytes in UTF-8. *)
Definition nbsp : string :=
  String (ascii_of_N 194) (String (ascii_of_N 160) "").

(** A raw weather-type flag parses to 1. *)
Definition is_one (v : value) : bool :=
  match cast_string_v v with
  | Ok (VStr s) => bool_decide (parse_int (strip_chars s) = Some 1)
  | _ => false
  end.

(** A cell of a column of texts, of integers or of Booleans, null
    included. *)
Definition plain (v : value) : Prop :=
  match v with
  | VNull | VStr _ | VInt _ | VInt32 _ | VBool _ => True
  | _ => False
  end.

(** What a run of a computation adds to the log. *)
Definition logged (w w' : World.world) (extra : list (World.level * string))
  : Prop :=
  World.files w' = World.files w ∧ World.logs w' = World.logs w ++ extra.

(** A critical column that the quality check complains about: it is
    missing, or it has a null cell. *)
Definition suspicious (df : frame) (c : string) : Prop :=
  c ∉ columns df ∨ ∃ r, r ∈ rows df ∧ is_null (cell c r) = true.

(** A server-error status, 500 to 599. *)
Definition is_5xx (status : Z) : bool := (500 <=? status) && (status <=? 599).

(** A method that the session of the pipeline retries: HEAD, GET or
    OPTIONS, in whatever case it is given. *)
Definition retried_method (m : string) : bool :=
  bool_decide (Requests.upper m ∈ ["HEAD"; "GET"; "OPTIONS"]).

(** An answer that the session of the pipeline retries when [left]
    retries are left: the status is 500, 502, 503 or 504, or retries are
    left and the answer has a Retry-After header with status 413, 429 or
    503. *)
Definition retried (left : nat) (a : Requests.Response) : bool :=
  bool_decide (Requests.status a ∈ [500; 502; 503; 504]) ||
  (negb (Nat.eqb left 0) && Requests.retry_after a &&
   bool_decide (Requests.status a ∈ [413; 429; 503])).

(** The header that identifies the client. *)
Definition identified (req : Requests.Request) : Prop :=
  Requests.request_headers req !! "User-Agent" = Some "NYCCollisionETL/1.0".

(** A web address that the session has an adapter for. *)
Definition web_url (u : string) : Prop :=
  Requests.is_prefix "https://" u = true ∨ Requests.is_prefix "http://" u = true.

(** A file tree: whatever lies above an entry is a directory. *)
Definition tree (fs : gmap (list string) World.node) : Prop :=
  map_Forall (λ q _, Forall (λ q', q' = q ∨ World.is_dir_node (fs !! q') = true)
                            (World.inits q)) fs.






(** Some tail of [s] is [suffix]. *)
Fixpoint has_suffix (suffix s : string) : bool :=
  bool_decide (s = suffix) ||
  match s with
  | String _ s' => has_suffix suffix s'
  | EmptyString => false
  end.

(** No entry of the tree at or above [p] is a regular file. *)
Definition clear_way (fs : gmap (list string) World.node) (p : list string)
  : Prop :=
  ∀ q, q `prefix_of` p → World.is_file_node (fs !! q) = false.

(** The tree [fs'] is [fs] with directories added, at or above the paths
    of [ps] only. *)
Definition grown (ps : list (list string))
    (fs fs' : gmap (list string) World.node) : Prop :=
  ∀ q, fs' !! q = fs !! q ∨
       (fs !! q = None ∧ fs' !! q = Some World.Dir ∧
        ∃ p, p ∈ ps ∧ q `prefix_of` p).

(** The directory [p] exists and is empty, below directories. *)
Definition empty_dir (fs : gmap (list string) World.node) (p : list string)
  : Prop :=
  (∀ q, q `prefix_of` p → fs !! q = Some World.Dir) ∧
  (∀ q, p `prefix_of` q → q ≠ p → fs !! q = None).

(** The integer a cell stands for in a sum: null counts as 0. *)
Definition int_cell (v : value) : Z :=
  match v with
  | VInt n | VInt32 n => n
  | _ => 0
  end.

(** The integer of an integer cell. *)
Definition int_value (v : value) : option Z :=
  match v with
  | VInt n | VInt32 n => Some n
  | _ => None
  end.

(** Sum of an integer column over rows. *)
Definition column_sum (c : string) (l : list (gmap string value)) : Z :=
  foldr Z.add 0 (map (λ r, int_cell (cell c r)) l).

(** A cell of an integer column whose sums are taken in [bits] bits, 32
    or 64: an integer of that kind, or null. *)
Definition integral (bits : Z) (v : value) : Prop :=
  match v with
  | VNull => True
  | VInt _ => bits = 64
  | VInt32 _ => bits = 32
  | _ => False
  end.

(** The rows of a table that have the grouping key of the row [g], in
    their order. *)
Definition same_group (g : gmap string value) (df : frame)
  : list (gmap string value) :=
  filter (λ r, group_key GoldProcessor.group_cols r
               = group_key GoldProcessor.group_cols g) (rows df).

(** Saturday or Sunday, for a day counted from Thursday 1970-01-01. *)
Definition weekend (d : Z) : bool := (d mod 7 =? 2) || (d mod 7 =? 3).

(** The year, month and weekend cells that go with a date cell. *)
Definition dated (date year month is_weekend : value) : Prop :=
  match date with
  | VDate d => year = VInt32 (year_of d) ∧ month = VInt (month_of d) ∧
               is_weekend = VBool (weekend d)
  | VNull => year = VNull ∧ month = VNull ∧ is_weekend = VNull
  | _ => False
  end.

(** A reading: a number, or nothing; and the cell that holds it. *)
Definition float_cell (o : option spec_float) : value :=
  match o with
  | Some f => VFloat f
  | None => VNull
  end.

(** A reading is there and is above zero. *)
Definition above_zero (o : option spec_float) : bool :=
  match o with
  | Some f => f64_gt f (f64_of_Z 0)
  | None => false
  end.

(** The tenth of a reading. *)
Definition tenth (o : option spec_float) : option spec_float :=
  match o with
  | Some f => Some (f64_div f (f64_of_Z 10))
  | None => None
  end.

(** The decimal digit of the units of [n], as a character. *)
Definition digit_char (n : Z) : ascii := ascii_of_N (Z.to_N (48 + n mod 10)).

(** A number written with two digits and with four. *)
Definition two_digits (n : Z) : string :=
  String (digit_char (n / 10)) (String (digit_char n) "").
Definition four_digits (n : Z) : string :=
  String (digit_char (n / 1000)) (String (digit_char (n / 100)) (two_digits n)).

(** A date written YYYY-MM-DD, as the holidays and the weather source
    give it, and written MM/DD/YYYY, as the collisions source does. *)
Definition iso_date (y m d : Z) : string :=
  four_digits y +:+ "-" +:+ two_digits m +:+ "-" +:+ two_digits d.
Definition us_date (m d y : Z) : string :=
  two_digits m +:+ "/" +:+ two_digits d +:+ "/" +:+ four_digits y.

(** The year and month cells that go with a date cell. *)
Definition keyed (date year month : value) : Prop :=
  match date with
  | VDate d => year = VInt32 (year_of d) ∧ month = VInt (month_of d)
  | VNull => year = VNull ∧ month = VNull
  | _ => False
  end.

(** A standardized holiday row [r'] and the raw row [r] it comes from:
    the name and the types are the raw ones, the types being a list or
    null; the date is a date, or null exactly when the raw date is null,
    and the year and the month are those of the date; the raw date is a
    text or null, and when it is written YYYY-MM-DD the day exists, the
    date is that day, and the year and the month are the written ones. *)
Definition holiday_row (r r' : gmap string value) : Prop :=
  cell "holiday_name" r' = cell "name" r ∧
  cell "types" r' = cell "types" r ∧
  (cell "types" r = VNull ∨ ∃ l, cell "types" r = VList l) ∧
  keyed (cell "date" r') (cell "year" r') (cell "month" r') ∧
  (cell "date" r = VNull ∨ ∃ s, cell "date" r = VStr s) ∧
  (cell "date" r = VNull ↔ cell "date" r' = VNull) ∧
  ∀ y m d, 0 <= y <= 9999 → 0 <= m <= 99 → 0 <= d <= 99 →
           cell "date" r = VStr (iso_date y m d) →
           (1 <= m <= 12 ∧ 1 <= d <= days_in_month y m) ∧
           cell "date" r' = VDate (days_from_civil y m d) ∧
           cell "year" r' = VInt32 y ∧ cell "month" r' = VInt m.

End Stmt.

(* ===================================================================== *)
(** * Part II: lemmas and theorems                                        *)
(* ===================================================================== *)

Import Polars World Utils Stmt.

(** ** Results *)

Lemma bind_Ok {A B} (m : result A) (k : A → result B) (b : B) :
  (m ≫= k) = Ok b ↔ ∃ a, m = Ok a ∧ k a = Ok b.
Proof.
  destruct m as [a|e]; simpl; split.
  - intros H. exists a. auto.
  - intros (a' & Ha & Hk). congruence.
  - discriminate.
  - intros (a' & Ha & _). discriminate.
Qed.

(** Splits a hypothesis [(x ← m; k) = Ok b] into its two steps. *)
Ltac inv_bind H :=
  let a := fresh "a" in
  let Ha := fresh "Ha" in
  apply bind_Ok in H; destruct H as (a & Ha & H).

Lemma mapR_Forall2 {A B} (f : A → result B) (l : list A) (l' : list B) :
  mapR f l = Ok l' ↔ Forall2 (λ x y, f x = Ok y) l l'.
Proof.
  revert l'. induction l as [|x l IH]; intros l'; simpl.
  - split.
    + intros [= <-]. constructor.
    + intros H. inversion H. reflexivity.
  - split.
    + intros H. inv_bind H. inv_bind H. injection H as <-.
      constructor; [assumption|]. apply IH. assumption.
    + intros H. inversion H as [|? y ? ys Hy Hys]; subst.
      apply bind_Ok. exists y. split; [assumption|].
      apply bind_Ok. exists ys. split; [apply IH; assumption|reflexivity].
Qed.

Lemma mapR_length {A B} (f : A → result B) (l : list A) (l' : list B) :
  mapR f l = Ok l' → length l' = length l.
Proof.
  intros H. apply mapR_Forall2 in H. symmetry. eapply Forall2_length, H.
Qed.

Lemma mapR_is_ok {A B} (f : A → result B) (l : list A) :
  Forall (λ x, is_ok (f x) = true) l → is_ok (mapR f l) = true.
Proof.
  induction 1 as [|x l Hx _ IH]; simpl; [reflexivity|].
  destruct (f x); [|discriminate]. simpl.
  destruct (mapR f l); [reflexivity|discriminate].
Qed.

Lemma check_columns_Ok (cols names : list string) :
  check_columns cols names = Ok tt ↔ ∀ c, c ∈ names → c ∈ cols.
Proof.
  unfold check_columns, first_missing.
  destruct (filter (λ c, c ∉ cols) names) as [|c0 l] eqn:E; simpl; split.
  - intros _ c Hc. destruct (decide (c ∈ cols)) as [|Hn]; [assumption|].
    assert (c ∈ filter (λ c, c ∉ cols) names) as Hin
      by (apply list_elem_of_filter; auto).
    rewrite E in Hin. inversion Hin.
  - reflexivity.
  - discriminate.
  - intros H. assert (c0 ∈ filter (λ c, c ∉ cols) names) as Hin
      by (rewrite E; left).
    apply list_elem_of_filter in Hin as [Hn Hin]. destruct Hn. auto.
Qed.

Lemma check_unique_Ok (names : list string) :
  check_unique names = Ok tt ↔ NoDup names.
Proof.
  unfold check_unique. induction names as [|x l IH]; simpl.
  - split; [constructor|reflexivity].
  - case_bool_decide as Hx.
    + split; [discriminate|]. inversion 1; contradiction.
    + rewrite NoDup_cons. tauto.
Qed.

(** ** Grouping, sorting and aggregation *)

Lemma add_to_groups_size k r gs :
  foldr Z.add 0 (map (λ kg, Z.of_nat (length kg.2)) (add_to_groups k r gs)) =
  foldr Z.add 0 (map (λ kg : list value * list (gmap string value), Z.of_nat (length kg.2)) gs) + 1.
Proof.
  induction gs as [|[k' g] gs IH]; simpl; [lia|].
  case_bool_decide; simpl.
  - rewrite length_app. simpl. lia.
  - rewrite IH. lia.
Qed.

Lemma groups_of_size by_ l :
  foldr Z.add 0 (map (λ kg, Z.of_nat (length kg.2)) (groups_of by_ l)) = Z.of_nat (length l).
Proof.
  unfold groups_of.
  enough (∀ acc, foldr Z.add 0 (map (λ kg, Z.of_nat (length kg.2)) (foldl (λ gs r, add_to_groups (group_key by_ r) r gs) acc l))
     = foldr Z.add 0 (map (λ kg : list value * list (gmap string value), Z.of_nat (length kg.2)) acc) + Z.of_nat (length l)) as H
    by (rewrite H; simpl; lia).
  induction l as [|r l IH]; intros acc; simpl; [lia|].
  rewrite IH, add_to_groups_size. lia.
Qed.

Lemma SFcompare_antisym x y c :
  SFcompare x y = Some c → SFcompare y x = Some (CompOpp c).
Proof.
  destruct x as [sx|sx| |sx mx ex], y as [sy|sy| |sy my ey]; simpl;
    try discriminate; intros [= <-]; f_equal;
    repeat match goal with s : bool |- _ => destruct s end; try reflexivity.
  all: rewrite (Z.compare_antisym ex ey); destruct (ex ?= ey) eqn:E; simpl; try reflexivity.
  all: rewrite Pos.compare_cont_antisym; simpl; try reflexivity.
  all: rewrite ?CompOpp_involutive; reflexivity.
Qed.

Lemma f64_gt_asym x y : f64_gt x y = true → f64_gt y x = false.
Proof.
  unfold f64_gt, SFltb.
  destruct (SFcompare y x) as [c|] eqn:E.
  - apply SFcompare_antisym in E. rewrite E.
    destruct x, y, c; simpl; try reflexivity; try discriminate.
  - destruct x, y; simpl in *; try discriminate; try reflexivity.
Qed.

Lemma f64_le_total x y : f64_le x y = true ∨ f64_le y x = true.
Proof.
  unfold f64_le. destruct (f64_gt x y) eqn:E; [|left; reflexivity].
  right. rewrite (f64_gt_asym _ _ E). reflexivity.
Qed.

Lemma value_leb_total a b : value_leb a b = true ∨ value_leb b a = true.
Proof.
  destruct a as [|x|x|x|x|x|x|x], b as [|y|y|y|y|y|y|y]; simpl;
    try (left; reflexivity); try (right; reflexivity).
  - destruct x, y; simpl; auto.
  - destruct (Z.leb_spec x y); [left; reflexivity|right; apply Z.leb_le; lia].
  - apply f64_le_total.
  - rewrite (String.compare_antisym y x). destruct (x ?= y)%string; simpl; auto.
  - destruct (Z.leb_spec x y); [left; reflexivity|right; apply Z.leb_le; lia].
  - destruct (Z.leb_spec x y); [left; reflexivity|right; apply Z.leb_le; lia].
Qed.

#[global] Instance row_le_total by_ : Total (row_le by_).
Proof. intros r1 r2. apply value_leb_total. Qed.

Lemma sum_Permutation (l1 l2 : list Z) :
  l1 ≡ₚ l2 → foldr Z.add 0 l1 = foldr Z.add 0 l2.
Proof. induction 1; simpl; lia. Qed.

Lemma sort_Ok by_ df out :
  LazyFrame.sort by_ df = Ok out →
  columns out = columns df ∧ rows out ≡ₚ rows df ∧ Sorted (row_le by_) (rows out).
Proof.
  unfold LazyFrame.sort. intros H. inv_bind H. injection H as <-. simpl.
  split; [reflexivity|]. split.
  - apply merge_sort_Permutation.
  - apply Sorted_merge_sort. apply _.
Qed.

Lemma group_by_agg_Ok by_ aggs df out :
  LazyFrame.group_by_agg by_ aggs df = Ok out →
  Forall2 (λ kg r, LazyFrame.group_row by_ aggs kg.2 = Ok r)
          (groups_of by_ (rows df)) (rows out).
Proof.
  unfold LazyFrame.group_by_agg. intros H. do 3 inv_bind H.
  injection H as <-. simpl. apply mapR_Forall2. assumption.
Qed.

Lemma group_row_len by_ name aggs g r :
  LazyFrame.group_row by_ (agg_alias name len :: aggs) g = Ok r →
  cell name r = VInt (Z.of_nat (length g)).
Proof.
  unfold LazyFrame.group_row. intros H. inv_bind H. injection H as <-.
  simpl in Ha. inv_bind Ha. injection Ha as <-.
  unfold cell. simpl. rewrite lookup_insert_eq. reflexivity.
Qed.


Lemma group_rows_total by_ name aggs
    (gs : list (list value * list (gmap string value))) rs :
  Forall2 (λ kg r, LazyFrame.group_row by_ (agg_alias name len :: aggs) kg.2 = Ok r) gs rs →
  map (cell name) rs = map (λ kg, VInt (Z.of_nat (length kg.2))) gs.
Proof.
  induction 1 as [|kg r gs rs Hr _ IH]; simpl; [reflexivity|].
  rewrite IH. f_equal. eapply group_row_len. eassumption.
Qed.

Lemma add_to_groups_elem k r gs k' g' r' :
  (k', g') ∈ add_to_groups k r gs → r' ∈ g' →
  r' = r ∨ ∃ g, (k', g) ∈ gs ∧ r' ∈ g.
Proof.
  induction gs as [|[k0 g0] gs IH]; simpl.
  - intros Hin Hr. apply list_elem_of_singleton in Hin. injection Hin as -> ->.
    apply list_elem_of_singleton in Hr. auto.
  - case_bool_decide as Hk.
    + intros Hin Hr. apply elem_of_cons in Hin as [Heq|Hin].
      * injection Heq as -> ->. apply elem_of_app in Hr as [Hr|Hr].
        -- right. exists g0. split; [left|assumption].
        -- apply list_elem_of_singleton in Hr. auto.
      * right. exists g'. split; [right; assumption|assumption].
    + intros Hin Hr. apply elem_of_cons in Hin as [Heq|Hin].
      * injection Heq as -> ->. right. exists g0. split; [left|assumption].
      * destruct (IH Hin Hr) as [->|(g & Hg & Hr')]; [auto|].
        right. exists g. split; [right; assumption|assumption].
Qed.

Lemma groups_of_elem by_ l k g r :
  (k, g) ∈ groups_of by_ l → r ∈ g → r ∈ l.
Proof.
  unfold groups_of.
  enough (∀ acc k g r,
    (k, g) ∈ foldl (λ gs r, add_to_groups (group_key by_ r) r gs) acc l → r ∈ g →
    r ∈ l ∨ ∃ g0, (k, g0) ∈ acc ∧ r ∈ g0) as H.
  { intros Hin Hr. destruct (H [] k g r Hin Hr) as [|(g0 & Hg0 & _)]; [assumption|].
    inversion Hg0. }
  clear k g r. induction l as [|x l IH]; intros acc k g r; simpl.
  - intros Hin Hr. right. eauto.
  - intros Hin Hr. destruct (IH _ _ _ _ Hin Hr) as [|(g0 & Hg0 & Hr0)]; [left; by right|].
    destruct (add_to_groups_elem _ _ _ _ _ _ Hg0 Hr0) as [->|(g1 & ? & ?)].
    + left. left.
    + right. eauto.
Qed.

Lemma sum_cells_is_ok acc l :
  summable acc → Forall summable l →
  is_ok (sum_cells acc l) = true.
Proof.
  intros Hacc Hl. revert acc Hacc.
  induction Hl as [|v l Hv _ IH]; intros acc Hacc; simpl; [reflexivity|].
  destruct acc, v; simpl in *;
    try contradiction; apply IH; simpl; auto.
Qed.

Lemma agg_cells_sums_is_ok cols g :
  (∀ r c, r ∈ g → c ∈ cols → summable (cell c r)) →
  is_ok (agg_cells (map sum cols) g) = true.
Proof.
  induction cols as [|c cols IH]; intros H; simpl; [reflexivity|].
  assert (is_ok (sum_cells VNull (map (cell c) g)) = true) as H1.
  { apply sum_cells_is_ok; simpl; auto.
    apply Forall_forall. intros v Hv. apply list_elem_of_fmap in Hv as (r & -> & Hr).
    apply H; [assumption|left]. }
  destruct (sum_cells VNull (map (cell c) g)); [|discriminate]. simpl.
  assert (is_ok (agg_cells (map sum cols) g) = true) as H2.
  { apply IH. intros r c' Hr Hc'. apply H; [assumption|by right]. }
  destruct (agg_cells (map sum cols) g); [reflexivity|discriminate].
Qed.

Lemma aggregate_stats_sum (enriched_df out : frame) :
  GoldProcessor._aggregate_stats enriched_df = Ok out →
  sum_total_accidents out = Z.of_nat (height enriched_df) ∧
  Sorted (row_le "date") (rows out).
Proof.
  intros H. unfold GoldProcessor._aggregate_stats in H. inv_bind H.
  apply sort_Ok in H as (_ & Hperm & Hsorted). split; [|assumption].
  unfold sum_total_accidents, height.
  rewrite (sum_Permutation _ (map total_accidents (rows a))) by (by rewrite Hperm).
  rewrite <- (groups_of_size GoldProcessor.group_cols).
  apply group_by_agg_Ok, group_rows_total in Ha.
  unfold total_accidents.
  rewrite <- (map_map (cell "total_accidents")
                (λ v, match v with VInt n => n | _ => 0 end)), Ha, map_map.
  reflexivity.
Qed.

(** C1.  For every enriched table, whenever [_aggregate_stats] returns, the
    [total_accidents] of the fact rows add up to the number of rows of the
    enriched table (null grouping cells are keys like any other, so no row
    is lost) and the fact rows are sorted by date, ascending; and it does
    return on every table that has the grouping and metric columns with
    numeric metric cells. *)
Theorem aggregate_stats_conservation (enriched_df : frame) :
  (∀ out, GoldProcessor._aggregate_stats enriched_df = Ok out →
     sum_total_accidents out = Z.of_nat (height enriched_df) ∧
     Sorted (row_le "date") (rows out)) ∧
  (aggregable enriched_df →
     ∃ out, GoldProcessor._aggregate_stats enriched_df = Ok out).
Proof.
  split.
  - intros out H. by apply aggregate_stats_sum.
  - intros [Hcols Hcells].
    unfold GoldProcessor._aggregate_stats, LazyFrame.group_by_agg.
    assert (check_columns (columns enriched_df)
              (GoldProcessor.group_cols ++
               concat (map agg_roots (agg_alias "total_accidents" len ::
                                      map sum GoldProcessor.METRIC_COLS))) = Ok tt) as ->
      by (apply check_columns_Ok; exact Hcols).
    simpl mbind at 1.
    assert (is_ok (mapR (λ kg, LazyFrame.group_row GoldProcessor.group_cols
                        (agg_alias "total_accidents" len :: map sum GoldProcessor.METRIC_COLS) kg.2)
                 (groups_of GoldProcessor.group_cols (rows enriched_df))) = true) as Hok.
    { apply mapR_is_ok, Forall_forall. intros [k g] Hg.
      unfold LazyFrame.group_row. cbn [snd agg_cells agg_alias agg_eval len agg_name].
      pose proof (agg_cells_sums_is_ok GoldProcessor.METRIC_COLS g) as Hs.
      destruct (agg_cells (map sum GoldProcessor.METRIC_COLS) g); [reflexivity|].
      discriminate Hs. intros r c Hr Hc. apply Hcells; [|assumption].
      eapply groups_of_elem; eassumption. }
    destruct (mapR _ _) as [rs|]; [|discriminate].
    eexists. reflexivity.
Qed.

Lemma aggregate_stats_conservation_witness :
  ∃ out, GoldProcessor._aggregate_stats Sample.enriched = Ok out ∧
         height Sample.enriched = 4%nat ∧
         height out = 3%nat ∧
         sum_total_accidents out = 4 ∧
         Sorted (row_le "date") (rows out).
Proof.
  assert (match GoldProcessor._aggregate_stats Sample.enriched with
          | Ok out => bool_decide (height out = 3%nat)
          | Err _ => false
          end = true) as Hb by (vm_compute; reflexivity).
  destruct (GoldProcessor._aggregate_stats Sample.enriched)
    as [out|e] eqn:Hok; [|discriminate].
  destruct (aggregate_stats_conservation Sample.enriched) as [Hsound _].
  destruct (Hsound out Hok) as [Hsum Hsorted].
  exists out. split; [reflexivity|]. split; [reflexivity|].
  split; [exact (bool_decide_eq_true_1 _ Hb)|].
  split; [rewrite Hsum; reflexivity|assumption].
Defined.

(** ** Calendar *)

(** The window test of the enrichment, [year >= 2020], holds exactly from
    2020-01-01 (day 18262) on. *)
Lemma year_of_2020 d : 2020 <= year_of d ↔ 18262 <= d.
Proof.
  unfold year_of, civil_from_days. cbv zeta. cbn [fst snd].
  set (z := d + 719468).
  set (era := z / 146097).
  set (doe := z - era * 146097).
  set (yoe := (doe - doe / 1460 + doe / 36524 - doe / 146096) / 365).
  set (doy := doe - (365 * yoe + yoe / 4 - yoe / 100)).
  set (mp := (5 * doy + 2) / 153).
  destruct (Z.ltb_spec mp 10) as [E1|E1];
  [destruct (Z.leb_spec (mp + 3) 2) as [E2|E2] | destruct (Z.leb_spec (mp - 9) 2) as [E2|E2]];
  subst mp doy yoe doe era z.
  all: Z.div_mod_to_equations; lia.
Qed.


(** ** Rows built by inserting cells *)

Lemma lookup_foldr_insert_new {A} (f : A → string) (g : A → value)
    (m : gmap string value) (cs : list A) (c : A) :
  NoDup (map f cs) → c ∈ cs →
  foldr (λ c acc, <[f c := g c]> acc) m cs !! f c = Some (g c).
Proof.
  induction cs as [|c0 cs IH]; simpl; intros Hnd Hc; [inversion Hc|].
  apply NoDup_cons in Hnd as [Hc0 Hnd].
  apply elem_of_cons in Hc as [->|Hc].
  - apply lookup_insert_eq.
  - rewrite lookup_insert_ne; [auto|].
    intros Heq. apply Hc0. rewrite Heq. apply list_elem_of_fmap. eauto.
Qed.

Lemma lookup_foldr_insert_old {A} (f : A → string) (g : A → value)
    (m : gmap string value) (cs : list A) (k : string) :
  k ∉ map f cs →
  foldr (λ c acc, <[f c := g c]> acc) m cs !! k = m !! k.
Proof.
  induction cs as [|c0 cs IH]; simpl; intros Hk; [reflexivity|].
  apply not_elem_of_cons in Hk as [Hne Hk].
  rewrite lookup_insert_ne by congruence. auto.
Qed.

(** ** Filtering *)

Lemma filterR_Ok {A} (p : A → result bool) (l l' : list A) :
  filterR p l = Ok l' →
  l' = List.filter (λ x, match p x with Ok true => true | _ => false end) l ∧
  Forall (λ x, is_ok (p x) = true) l.
Proof.
  revert l'. induction l as [|x l IH]; simpl; intros l' H.
  - injection H as <-. split; [reflexivity|constructor].
  - inv_bind H. inv_bind H. injection H as <-.
    destruct (IH _ Ha0) as [-> Hall]. rewrite Ha.
    split; [destruct a; reflexivity|].
    constructor; [rewrite Ha; reflexivity|assumption].
Qed.

Lemma filter_Ok p df out :
  LazyFrame.filter p df = Ok out →
  columns out = columns df ∧
  rows out = List.filter (λ r, match keeps p r with Ok true => true | _ => false end)
                         (rows df).
Proof.
  unfold LazyFrame.filter. intros H. do 2 inv_bind H. injection H as <-.
  apply filterR_Ok in Ha0 as [-> _]. auto.
Qed.

(** ** Projection and selection *)

Lemma project_cols (names : list string) (r : gmap string value) :
  project (map col names) r =
  Ok (foldr (λ c acc, <[c := cell c r]> acc) ∅ names).
Proof.
  induction names as [|c names IH]; simpl; [reflexivity|].
  rewrite IH. reflexivity.
Qed.

Lemma select_cols_Ok (names : list string) df out :
  LazyFrame.select (map col names) df = Ok out →
  columns out = names ∧ NoDup names ∧ (∀ c, c ∈ names → c ∈ columns df) ∧
  rows out = map (λ r, foldr (λ c acc, <[c := cell c r]> acc) ∅ names) (rows df).
Proof.
  unfold LazyFrame.select. intros H. do 3 inv_bind H. injection H as <-. simpl.
  assert (map output_name (map col names) = names) as Hn
    by (rewrite map_map; apply map_id).
  assert (roots_of (map col names) = names) as Hr.
  { unfold roots_of. rewrite map_map. simpl. clear.
    induction names as [|c names IH]; simpl; [reflexivity|]. by f_equal. }
  rewrite Hn in *. rewrite Hr in *. destruct a, a0.
  pose proof (proj1 (check_columns_Ok _ _) Ha) as Hcols.
  pose proof (proj1 (check_unique_Ok _) Ha0) as Hnd.
  repeat split; try assumption.
  apply mapR_Forall2 in Ha1. clear -Ha1.
  induction Ha1 as [|r r' rs rs' Hr _ IH]; simpl; [reflexivity|].
  rewrite project_cols in Hr. injection Hr as <-. f_equal. assumption.
Qed.

Lemma cell_select_cols (names : list string) (r : gmap string value) c :
  c ∈ names →
  cell c (foldr (λ c acc, <[c := cell c r]> acc) ∅ names) = cell c r.
Proof.
  intros Hc. unfold cell at 1.
  induction names as [|c0 names IH]; simpl; [inversion Hc|].
  destruct (decide (c0 = c)) as [->|Hne].
  - rewrite lookup_insert_eq. reflexivity.
  - rewrite lookup_insert_ne by assumption. apply IH.
    apply elem_of_cons in Hc as [->|]; [contradiction|assumption].
Qed.

(** ** Left join *)

Lemma join_left_Ok on right left out :
  LazyFrame.join_left on right left = Ok out →
  on ∈ columns left ∧ on ∈ columns right ∧
  NoDup (columns left ++
         map (LazyFrame.right_name left) (LazyFrame.right_columns on left right)) ∧
  columns out = columns left ++
         map (LazyFrame.right_name left) (LazyFrame.right_columns on left right) ∧
  rows out = flat_map (LazyFrame.join_row on left right) (rows left).
Proof.
  unfold LazyFrame.join_left. intros H. do 3 inv_bind H. injection H as <-.
  destruct a, a0, a1.
  pose proof (proj1 (check_columns_Ok _ _) Ha) as H1.
  pose proof (proj1 (check_columns_Ok _ _) Ha0) as H2.
  pose proof (proj1 (check_unique_Ok _) Ha1) as H3.
  repeat split; try assumption; [apply H1|apply H2]; left.
Qed.

Lemma elem_of_matches on right lr rr :
  rr ∈ LazyFrame.matches on right lr ↔
  rr ∈ rows right ∧ join_match (cell on lr) (cell on rr) = true.
Proof.
  unfold LazyFrame.matches. rewrite list_elem_of_filter. tauto.
Qed.

Lemma join_match_date d v : join_match (VDate d) v = true ↔ v = VDate d.
Proof.
  unfold join_match. simpl. rewrite bool_decide_eq_true. split; congruence.
Qed.

Lemma join_match_null v : join_match VNull v = false.
Proof. reflexivity. Qed.

(** The rows a left row produces: one per matching right row, or one
    with null right cells. *)
Lemma elem_of_join_row on left right lr r :
  r ∈ LazyFrame.join_row on left right lr ↔
  (LazyFrame.matches on right lr = [] ∧
   r = LazyFrame.extend on left right lr (λ _, VNull)) ∨
  (∃ rr, rr ∈ LazyFrame.matches on right lr ∧
         r = LazyFrame.extend on left right lr (λ c, cell c rr)).
Proof.
  unfold LazyFrame.join_row.
  destruct (LazyFrame.matches on right lr) as [|m ms] eqn:E.
  - rewrite list_elem_of_singleton. split.
    + intros ->. left. auto.
    + intros [[_ ->]|(rr & Hrr & _)]; [reflexivity|inversion Hrr].
  - rewrite list_elem_of_fmap. split.
    + intros (rr & -> & Hrr). right. eauto.
    + intros [[Hnil _]|(rr & Hrr & ->)]; [discriminate|eauto].
Qed.

Lemma length_join_row on left right lr :
  length (LazyFrame.join_row on left right lr) =
  Nat.max 1 (length (LazyFrame.matches on right lr)).
Proof.
  unfold LazyFrame.join_row.
  destruct (LazyFrame.matches on right lr) as [|m ms]; [reflexivity|].
  rewrite length_map. simpl. reflexivity.
Qed.

(** A join leaves the cells of the left row as they are ... *)
Lemma extend_old on left right lr cells k :
  k ∉ map (LazyFrame.right_name left) (LazyFrame.right_columns on left right) →
  LazyFrame.extend on left right lr cells !! k = lr !! k.
Proof. apply lookup_foldr_insert_old. Qed.

Lemma extend_left on left right lr cells k :
  NoDup (columns left ++
         map (LazyFrame.right_name left) (LazyFrame.right_columns on left right)) →
  k ∈ columns left →
  LazyFrame.extend on left right lr cells !! k = lr !! k.
Proof.
  intros Hnd Hk. apply extend_old. apply NoDup_app in Hnd as (_ & Hd & _). auto.
Qed.

(** ... and adds the right columns under their (possibly suffixed) names. *)
Lemma extend_new on left right lr cells c :
  NoDup (columns left ++
         map (LazyFrame.right_name left) (LazyFrame.right_columns on left right)) →
  c ∈ columns right → c ≠ on →
  LazyFrame.extend on left right lr cells !! LazyFrame.right_name left c =
  Some (cells c).
Proof.
  intros Hnd Hc Hne. apply NoDup_app in Hnd as (_ & _ & Hnd).
  unfold LazyFrame.extend. apply lookup_foldr_insert_new; [assumption|].
  unfold LazyFrame.right_columns. apply list_elem_of_filter. auto.
Qed.

Lemma right_name_fresh left c :
  c ∉ columns left → LazyFrame.right_name left c = c.
Proof. unfold LazyFrame.right_name. intros H. by rewrite bool_decide_eq_false_2. Qed.

Lemma join_row_left on left right lr r k :
  NoDup (columns left ++
         map (LazyFrame.right_name left) (LazyFrame.right_columns on left right)) →
  k ∈ columns left → r ∈ LazyFrame.join_row on left right lr →
  r !! k = lr !! k.
Proof.
  intros Hnd Hk Hr. apply elem_of_join_row in Hr as [[_ ->]|(rr & _ & ->)];
    by apply extend_left.
Qed.

(** ** Adding columns *)

Lemma with_columns_Ok es df out :
  LazyFrame.with_columns es df = Ok out →
  Forall2 (λ r r', ∃ new, project es r = Ok new ∧ r' = new ∪ r)
          (rows df) (rows out).
Proof.
  unfold LazyFrame.with_columns. intros H. do 3 inv_bind H. injection H as <-.
  simpl. apply mapR_Forall2 in Ha1.
  eapply Forall2_impl; [exact Ha1|]. simpl. intros r r' Hr.
  inv_bind Hr. injection Hr as <-. eauto.
Qed.

Lemma with_columns_length es df out :
  LazyFrame.with_columns es df = Ok out →
  length (rows out) = length (rows df).
Proof. intros H. apply with_columns_Ok in H. symmetry. eapply Forall2_length, H. Qed.

(** ** The enrichment step by step *)

Lemma impact_eval name a b r v :
  eval (GoldProcessor.impact name a b) r = Ok v →
  v = VBool (flagged a b (cell "types" r)) ∧
  (cell "types" r = VNull ∨ ∃ l, cell "types" r = VList l).
Proof.
  unfold GoldProcessor.impact. simpl. unfold flagged.
  destruct (cell "types" r) as [| | | | | |l|]; simpl; try discriminate.
  - intros [= <-]. auto.
  - intros H. split; [|eauto].
    destruct (bool_decide (a ∈ l)), (bool_decide (b ∈ l)); simpl in H;
      injection H as <-; reflexivity.
Qed.

Lemma keeps_window r :
  match keeps (ge_lit (dt_year (col "date")) (VInt 2020)) r with
  | Ok true => true
  | _ => false
  end = in_window r.
Proof.
  unfold keeps, in_window. simpl.
  destruct (cell "date" r) as [| | | | |d| |]; simpl; try reflexivity.
  destruct (Z.compare_spec (year_of d) 2020), (Z.leb_spec 2020 (year_of d));
    simpl; try reflexivity; lia.
Qed.

(** ** Lists *)

Lemma elem_of_flat_map {A B} (f : A → list B) (l : list A) (y : B) :
  y ∈ flat_map f l ↔ ∃ x, x ∈ l ∧ y ∈ f x.
Proof.
  rewrite list_elem_of_In, in_flat_map. split.
  - intros (x & Hx & Hy). exists x. rewrite !list_elem_of_In. auto.
  - intros (x & Hx & Hy). exists x. rewrite <- !list_elem_of_In. auto.
Qed.

Lemma elem_of_List_filter {A} (p : A → bool) (l : list A) (x : A) :
  x ∈ List.filter p l ↔ x ∈ l ∧ p x = true.
Proof. rewrite !list_elem_of_In. apply filter_In. Qed.

Lemma Forall2_elem_of_r {A B} (R : A → B → Prop) l k y :
  Forall2 R l k → y ∈ k → ∃ x, x ∈ l ∧ R x y.
Proof.
  induction 1 as [|x y' l k Hxy _ IH]; intros Hy; [inversion Hy|].
  apply elem_of_cons in Hy as [->|Hy].
  - exists x. split; [left|assumption].
  - destruct (IH Hy) as (x' & Hx' & HR). exists x'. split; [by right|assumption].
Qed.

Lemma Forall2_elem_of_l {A B} (R : A → B → Prop) l k x :
  Forall2 R l k → x ∈ l → ∃ y, y ∈ k ∧ R x y.
Proof.
  induction 1 as [|x' y l k Hxy _ IH]; intros Hx; [inversion Hx|].
  apply elem_of_cons in Hx as [->|Hx].
  - exists y. split; [left|assumption].
  - destruct (IH Hx) as (y' & Hy' & HR). exists y'. split; [by right|assumption].
Qed.

Lemma length_flat_map {A B} (f : A → list B) (l : list A) :
  length (flat_map f l) = foldr Nat.add 0%nat (map (λ x, length (f x)) l).
Proof.
  induction l as [|x l IH]; simpl; [reflexivity|].
  rewrite length_app, IH. reflexivity.
Qed.

(** ** Column names after a join *)

Lemma has_suffix_app (y s : string) : has_suffix s (y +:+ s) = true.
Proof.
  induction y as [|a y IH]; simpl.
  - destruct s; simpl; [reflexivity|].
    rewrite bool_decide_eq_true_2 by reflexivity. reflexivity.
  - rewrite IH. apply orb_true_r.
Qed.

Lemma right_name_inv left y x :
  has_suffix "_right" x = false →
  LazyFrame.right_name left y = x → y = x ∧ y ∉ columns left.
Proof.
  unfold LazyFrame.right_name. intros Hx. case_bool_decide as Hy.
  - intros <-. rewrite has_suffix_app in Hx. discriminate.
  - auto.
Qed.

(** ** The stages of the enrichment *)

Lemma enrich_stages c h w out :
  GoldProcessor._enrich_collisions c h w = Ok out →
  ∃ wc q1 q2,
    LazyFrame.select (map col GoldProcessor.weather_columns) w = Ok wc ∧
    LazyFrame.join_left "date" h (kept c) = Ok q1 ∧
    LazyFrame.join_left "date" wc q1 = Ok q2 ∧
    LazyFrame.with_columns GoldProcessor.derived_columns q2 = Ok out.
Proof.
  unfold GoldProcessor._enrich_collisions. intros H. do 4 inv_bind H.
  exists a, a1, a2. repeat split; try assumption.
  apply filter_Ok in Ha0 as [Hc Hr]. destruct a0 as [cols rs]. simpl in *.
  subst. unfold kept. erewrite List.filter_ext; [eassumption|].
  intros r. symmetry. apply keeps_window.
Qed.

Lemma project_cons e es r new :
  project (e :: es) r = Ok new →
  ∃ v rest, eval e r = Ok v ∧ project es r = Ok rest ∧
            new = <[output_name e := v]> rest.
Proof.
  simpl. intros H. inv_bind H. inv_bind H. injection H as <-. eauto.
Qed.

Lemma derived_row r2 new :
  project GoldProcessor.derived_columns r2 = Ok new →
  new = <["holiday_name" := fill (VStr "Non-Holiday") (cell "holiday_name" r2)]>
        (<["high_impact_holiday" := VBool (flagged "Public" "Bank" (cell "types" r2))]>
        (<["partial_impact_holiday" := VBool (flagged "School" "Authorities" (cell "types" r2))]>
        (<["low_impact_holiday" := VBool (flagged "Optional" "Observance" (cell "types" r2))]>
        (<["has_rain" := fill (VBool false) (cell "has_rain" r2)]>
        (<["has_snow" := fill (VBool false) (cell "has_snow" r2)]>
        (<["is_foggy" := fill (VBool false) (cell "is_foggy" r2)]>
        (<["max_temp" := cell "temp_max_c" r2]>
        (<["min_temp" := cell "temp_min_c" r2]> ∅)))))))).
Proof.
  unfold GoldProcessor.derived_columns. intros H.
  repeat (apply project_cons in H;
          let v := fresh "v" in let Hv := fresh "Hv" in
          destruct H as (v & ? & Hv & H & ->)).
  injection H as <-.
  apply impact_eval in Hv0 as [-> _].
  apply impact_eval in Hv1 as [-> _].
  apply impact_eval in Hv2 as [-> _].
  simpl in *.
  injection Hv as <-. injection Hv3 as <-. injection Hv4 as <-.
  injection Hv5 as <-. injection Hv6 as <-. injection Hv7 as <-.
  reflexivity.
Qed.

Lemma derived_row_is_ok r2 :
  (cell "types" r2 = VNull ∨ ∃ l, cell "types" r2 = VList l) →
  is_ok (project GoldProcessor.derived_columns r2) = true.
Proof.
  intros H. unfold GoldProcessor.derived_columns, GoldProcessor.impact. simpl.
  destruct H as [->|[l ->]]; simpl; [reflexivity|].
  repeat match goal with |- context [bool_decide ?P] => destruct (bool_decide P) end;
    reflexivity.
Qed.

Lemma join_row_nonempty on left right lr :
  ∃ r, r ∈ LazyFrame.join_row on left right lr.
Proof.
  unfold LazyFrame.join_row.
  destruct (LazyFrame.matches on right lr) as [|m ms]; eexists; left.
Qed.

Lemma derived_names :
  map output_name GoldProcessor.derived_columns =
  ["holiday_name"; "high_impact_holiday"; "partial_impact_holiday";
   "low_impact_holiday"; "has_rain"; "has_snow"; "is_foggy";
   "max_temp"; "min_temp"].
Proof. reflexivity. Qed.

Lemma derived_old r2 new k :
  project GoldProcessor.derived_columns r2 = Ok new →
  k ∉ map output_name GoldProcessor.derived_columns →
  (new ∪ r2) !! k = r2 !! k.
Proof.
  intros H Hk. apply derived_row in H as ->. rewrite derived_names in Hk.
  rewrite lookup_union_r; [reflexivity|].
  repeat (rewrite lookup_insert_ne by (intros <-; apply Hk; compute_done)).
  apply lookup_empty.
Qed.


Lemma cell_union k (new r : gmap string value) :
  cell k (new ∪ r) = match new !! k with Some v => v | None => cell k r end.
Proof.
  unfold cell. rewrite lookup_union. destruct (new !! k); simpl.
  - by rewrite union_Some_l.
  - by rewrite (left_id None _).
Qed.

Lemma derived_cells r2 new :
  project GoldProcessor.derived_columns r2 = Ok new →
  let r := new ∪ r2 in
  cell "holiday_name" r = fill (VStr "Non-Holiday") (cell "holiday_name" r2) ∧
  cell "high_impact_holiday" r = VBool (flagged "Public" "Bank" (cell "types" r2)) ∧
  cell "partial_impact_holiday" r =
    VBool (flagged "School" "Authorities" (cell "types" r2)) ∧
  cell "low_impact_holiday" r =
    VBool (flagged "Optional" "Observance" (cell "types" r2)) ∧
  cell "has_rain" r = fill (VBool false) (cell "has_rain" r2) ∧
  cell "has_snow" r = fill (VBool false) (cell "has_snow" r2) ∧
  cell "is_foggy" r = fill (VBool false) (cell "is_foggy" r2) ∧
  cell "max_temp" r = cell "temp_max_c" r2 ∧
  cell "min_temp" r = cell "temp_min_c" r2.
Proof.
  intros H. apply derived_row in H as ->. cbv zeta.
  rewrite !cell_union.
  repeat split;
    repeat (first [rewrite lookup_insert_eq | rewrite lookup_insert_ne by done]);
    reflexivity.
Qed.

Section Enrichment.

Variables c h w out wc q1 q2 : frame.

Hypothesis Hwc :
  LazyFrame.select (map col GoldProcessor.weather_columns) w = Ok wc.
Hypothesis Hq1 : LazyFrame.join_left "date" h (kept c) = Ok q1.
Hypothesis Hq2 : LazyFrame.join_left "date" wc q1 = Ok q2.
Hypothesis Hout :
  LazyFrame.with_columns GoldProcessor.derived_columns q2 = Ok out.

Lemma out_chain r : r ∈ rows out → ∃ lr r1 r2, chain c h wc q1 lr r1 r2 r.
Proof.
  intros Hr.
  destruct (Forall2_elem_of_r _ _ _ _ (with_columns_Ok _ _ _ Hout) Hr)
    as (r2 & Hr2 & new & Hnew & ->).
  destruct (join_left_Ok _ _ _ _ Hq2) as (_ & _ & _ & _ & Hrows2).
  rewrite Hrows2 in Hr2. apply elem_of_flat_map in Hr2 as (r1 & Hr1 & Hr2).
  destruct (join_left_Ok _ _ _ _ Hq1) as (_ & _ & _ & _ & Hrows1).
  rewrite Hrows1 in Hr1. apply elem_of_flat_map in Hr1 as (lr & Hlr & Hr1).
  simpl in Hlr. apply elem_of_List_filter in Hlr as [Hlr Hw].
  exists lr, r1, r2. repeat split; eauto.
Qed.

Lemma chain_out lr r1 r2 r : chain c h wc q1 lr r1 r2 r → r ∈ rows out.
Proof.
  intros (Hlr & Hw & Hr1 & Hr2 & new & Hnew & ->).
  destruct (join_left_Ok _ _ _ _ Hq1) as (_ & _ & _ & _ & Hrows1).
  destruct (join_left_Ok _ _ _ _ Hq2) as (_ & _ & _ & _ & Hrows2).
  assert (r2 ∈ rows q2) as Hin.
  { rewrite Hrows2. apply elem_of_flat_map. exists r1. split; [|assumption].
    rewrite Hrows1. apply elem_of_flat_map. exists lr. split; [|assumption].
    simpl. apply elem_of_List_filter. auto. }
  destruct (Forall2_elem_of_l _ _ _ _ (with_columns_Ok _ _ _ Hout) Hin)
    as (r & Hr & new' & Hnew' & ->).
  rewrite Hnew in Hnew'. injection Hnew' as <-. assumption.
Qed.

Lemma kept_chain lr :
  lr ∈ rows c → in_window lr = true → ∃ r1 r2 r, chain c h wc q1 lr r1 r2 r.
Proof.
  intros Hlr Hw.
  destruct (join_row_nonempty "date" (kept c) h lr) as [r1 Hr1].
  destruct (join_row_nonempty "date" q1 wc r1) as [r2 Hr2].
  destruct (join_left_Ok _ _ _ _ Hq1) as (_ & _ & _ & _ & Hrows1).
  destruct (join_left_Ok _ _ _ _ Hq2) as (_ & _ & _ & _ & Hrows2).
  assert (r2 ∈ rows q2) as Hin.
  { rewrite Hrows2. apply elem_of_flat_map. exists r1. split; [|assumption].
    rewrite Hrows1. apply elem_of_flat_map. exists lr. split; [|assumption].
    simpl. apply elem_of_List_filter. auto. }
  destruct (Forall2_elem_of_l _ _ _ _ (with_columns_Ok _ _ _ Hout) Hin)
    as (r & Hr & new & Hnew & ->).
  exists r1, r2, (new ∪ r2). repeat split; eauto.
Qed.

(** Cells of the collision row survive, unless a derived column has
    their name. *)
Lemma chain_left lr r1 r2 r k :
  chain c h wc q1 lr r1 r2 r → k ∈ columns c →
  k ∉ map output_name GoldProcessor.derived_columns →
  r !! k = lr !! k.
Proof.
  intros (Hlr & Hw & Hr1 & Hr2 & new & Hnew & ->) Hk Hd.
  destruct (join_left_Ok _ _ _ _ Hq1) as (_ & _ & Hnd1 & Hc1 & _).
  destruct (join_left_Ok _ _ _ _ Hq2) as (_ & _ & Hnd2 & _ & _).
  assert (k ∈ columns q1) as Hk1 by (rewrite Hc1; apply elem_of_app; by left).
  rewrite (derived_old _ _ _ Hnew Hd).
  rewrite (join_row_left "date" q1 wc r1 r2 k Hnd2 Hk1 Hr2).
  exact (join_row_left "date" (kept c) h lr r1 k Hnd1 Hk Hr1).
Qed.

Lemma chain_date lr r1 r2 r :
  chain c h wc q1 lr r1 r2 r →
  cell "date" r = cell "date" lr ∧ cell "date" r1 = cell "date" lr.
Proof.
  intros Hch. pose proof Hch as (Hlr & Hw & Hr1 & Hr2 & new & Hnew & ->).
  destruct (join_left_Ok _ _ _ _ Hq1) as (Hd & _ & Hnd1 & Hc1 & _).
  unfold cell. split.
  - erewrite chain_left; [reflexivity|exact Hch|exact Hd|].
    rewrite derived_names. compute_done.
  - rewrite (join_row_left "date" (kept c) h lr r1 "date" Hnd1 Hd Hr1). reflexivity.
Qed.

Hypothesis Hlayout : silver_layout c h.

Lemma weather_field_fresh x : x ∈ weather_fields → x ∉ columns q1.
Proof.
  intros Hx Hin.
  destruct Hlayout as (Hc & Hh & _).
  destruct (join_left_Ok _ _ _ _ Hq1) as (_ & _ & _ & Hc1 & _).
  rewrite Hc1 in Hin. apply elem_of_app in Hin as [Hin|Hin].
  - apply (Hc x); [apply elem_of_app; by right|exact Hin].
  - apply list_elem_of_fmap in Hin as (y & Hy & Hin).
    symmetry in Hy. apply right_name_inv in Hy as [-> _].
    + apply list_elem_of_filter in Hin as [_ Hin]. by apply (Hh x).
    + revert Hx. unfold weather_fields. rewrite !elem_of_cons, elem_of_nil.
      intros [->|[->|[->|[->|[->|[]]]]]]; reflexivity.
Qed.

Lemma weather_field_column x : x ∈ weather_fields → x ∈ columns wc ∧ x ≠ "date".
Proof.
  destruct (select_cols_Ok _ _ _ Hwc) as (-> & _).
  unfold weather_fields, GoldProcessor.weather_columns.
  rewrite !elem_of_cons, elem_of_nil.
  intros [->|[->|[->|[->|[->|[]]]]]]; split; (compute_done || discriminate).
Qed.

(** The weather cells of a row after the weather join. *)
Lemma weather_cell r1 r2 cells x :
  r2 = LazyFrame.extend "date" q1 wc r1 cells → x ∈ weather_fields →
  cell x r2 = cells x.
Proof.
  intros -> Hx. destruct (join_left_Ok _ _ _ _ Hq2) as (_ & _ & Hnd2 & _ & _).
  destruct (weather_field_column x Hx) as [Hcol Hne].
  pose proof (extend_new "date" q1 wc r1 cells x Hnd2 Hcol Hne) as H.
  rewrite (right_name_fresh _ _ (weather_field_fresh x Hx)) in H.
  unfold cell. by rewrite H.
Qed.

(** The weather rows matching a key are those of the weather table, cut
    to the selected columns. *)
Lemma matches_weather lr :
  LazyFrame.matches "date" wc lr =
  map (λ r, foldr (λ c acc, <[c := cell c r]> acc) ∅ GoldProcessor.weather_columns)
      (same_date (cell "date" lr) w).
Proof.
  destruct (select_cols_Ok _ _ _ Hwc) as (_ & _ & _ & Hrows).
  unfold LazyFrame.matches, same_date. rewrite Hrows. clear Hrows.
  induction (rows w) as [|wr l IH]; [reflexivity|].
  cbn [map]. rewrite !filter_cons, IH.
  rewrite cell_select_cols by compute_done.
  destruct (decide _); reflexivity.
Qed.

Lemma chain_weather lr r1 r2 r :
  chain c h wc q1 lr r1 r2 r →
  (same_date (cell "date" lr) w = [] ∧
   ∀ x, x ∈ weather_fields → cell x r2 = VNull) ∨
  (∃ wr, wr ∈ same_date (cell "date" lr) w ∧
   ∀ x, x ∈ weather_fields → cell x r2 = cell x wr).
Proof.
  intros Hch. destruct (chain_date _ _ _ _ Hch) as [_ Hd1].
  destruct Hch as (Hlr & Hw & Hr1 & Hr2 & _).
  assert (LazyFrame.matches "date" wc r1 = LazyFrame.matches "date" wc lr) as Hm
    by (unfold LazyFrame.matches; by rewrite Hd1).
  apply elem_of_join_row in Hr2 as [[Hnil Hr2]|(rr & Hrr & Hr2)].
  - left. rewrite Hm, matches_weather in Hnil.
    apply fmap_nil_inv in Hnil. split; [assumption|].
    intros x Hx. by rewrite (weather_cell _ _ _ x Hr2 Hx).
  - right. rewrite Hm, matches_weather in Hrr.
    apply list_elem_of_fmap in Hrr as (wr & -> & Hwr). exists wr.
    split; [assumption|]. intros x Hx.
    rewrite (weather_cell _ _ _ x Hr2 Hx).
    apply cell_select_cols.
    revert Hx. unfold weather_fields, GoldProcessor.weather_columns.
    rewrite !elem_of_cons, elem_of_nil.
    intros [->|[->|[->|[->|[->|[]]]]]]; compute_done.
Qed.

Lemma holiday_field_column x :
  x ∈ holiday_fields →
  x ∈ columns h ∧ x ≠ "date" ∧ (x ∉ columns (kept c)) ∧ x ∈ columns q1.
Proof.
  intros Hx. destruct Hlayout as (Hc & _ & Hh).
  destruct (join_left_Ok _ _ _ _ Hq1) as (_ & _ & _ & Hc1 & _).
  assert (x ≠ "date") as Hne.
  { revert Hx. unfold holiday_fields. rewrite !elem_of_cons, elem_of_nil.
    intros [->|[->|[]]]; discriminate. }
  assert (x ∉ columns (kept c)) as Hfresh
    by (apply Hc, elem_of_app; by left).
  repeat split; auto.
  rewrite Hc1. apply elem_of_app. right. apply list_elem_of_fmap.
  exists x. split; [symmetry; by apply right_name_fresh|].
  apply list_elem_of_filter. auto.
Qed.

Lemma holiday_cell lr r1 r2 cells x :
  r1 = LazyFrame.extend "date" (kept c) h lr cells →
  r2 ∈ LazyFrame.join_row "date" q1 wc r1 →
  x ∈ holiday_fields → cell x r2 = cells x.
Proof.
  intros -> Hr2 Hx.
  destruct (join_left_Ok _ _ _ _ Hq1) as (_ & _ & Hnd1 & _ & _).
  destruct (join_left_Ok _ _ _ _ Hq2) as (_ & _ & Hnd2 & _ & _).
  destruct (holiday_field_column x Hx) as (Hcol & Hne & Hfresh & Hq1col).
  unfold cell. rewrite (join_row_left "date" q1 wc _ r2 x Hnd2 Hq1col Hr2).
  pose proof (extend_new "date" (kept c) h lr cells x Hnd1 Hcol Hne) as H.
  rewrite (right_name_fresh _ _ Hfresh) in H. by rewrite H.
Qed.

Lemma chain_holiday lr r1 r2 r :
  chain c h wc q1 lr r1 r2 r →
  (same_date (cell "date" lr) h = [] ∧
   ∀ x, x ∈ holiday_fields → cell x r2 = VNull) ∨
  (∃ hr, hr ∈ same_date (cell "date" lr) h ∧
   ∀ x, x ∈ holiday_fields → cell x r2 = cell x hr).
Proof.
  intros (Hlr & Hw & Hr1 & Hr2 & _).
  apply elem_of_join_row in Hr1 as [[Hnil Hr1]|(hr & Hhr & Hr1)].
  - left. split; [exact Hnil|]. intros x Hx.
    by rewrite (holiday_cell _ _ _ _ x Hr1 Hr2 Hx).
  - right. exists hr. split; [exact Hhr|]. intros x Hx.
    by rewrite (holiday_cell _ _ _ _ x Hr1 Hr2 Hx).
Qed.

End Enrichment.

Lemma in_window_iff lr :
  in_window lr = true ↔ ∃ d, cell "date" lr = VDate d ∧ window_start <= d.
Proof.
  unfold in_window, window_start. destruct (cell "date" lr) as [| | | | |d| |]; split;
    try discriminate; try (intros (d' & [=] & _); fail).
  - intros H. exists d. split; [reflexivity|]. apply year_of_2020. lia.
  - intros (d' & [= <-] & H). apply Z.leb_le, year_of_2020. assumption.
Qed.

Lemma flagged_iff a b types :
  flagged a b types = true ↔ ∃ l, types = VList l ∧ (a ∈ l ∨ b ∈ l).
Proof.
  unfold flagged. destruct types as [| | | | | |l|]; split;
    try discriminate; try (intros (l' & [=] & _); fail).
  - intros H. exists l. split; [reflexivity|].
    apply orb_true_iff in H. by rewrite !bool_decide_eq_true in H.
  - intros (l' & [= <-] & H). apply orb_true_iff. by rewrite !bool_decide_eq_true.
Qed.

(** C2 (as amended).  Whenever [_enrich_collisions] returns on tables
    with the silver column layout: every collision row dated on or after
    2020-01-01 yields an output row of its date; every output row has
    the date of a collision row dated on or after 2020-01-01, so that
    the collision rows dated before 2020 and the undated ones yield no
    output row; an output row whose date has no matching weather row has
    [has_rain], [has_snow] and [is_foggy] false and [max_temp] and
    [min_temp] null; with a matching weather row, that row's
    temperatures appear as [max_temp] and [min_temp]; and an output row
    whose date has no matching holiday row has the holiday name
    "Non-Holiday". *)
Theorem enrich_null_safety (c h w out : frame) :
  GoldProcessor._enrich_collisions c h w = Ok out →
  silver_layout c h →
  (∀ lr d, lr ∈ rows c → cell "date" lr = VDate d → window_start <= d →
     ∃ r, r ∈ rows out ∧ cell "date" r = VDate d) ∧
  (∀ r, r ∈ rows out →
     (∃ lr d, lr ∈ rows c ∧ cell "date" lr = VDate d ∧ window_start <= d ∧
              cell "date" r = VDate d) ∧
     (same_date (cell "date" r) w = [] →
        cell "has_rain" r = VBool false ∧ cell "has_snow" r = VBool false ∧
        cell "is_foggy" r = VBool false ∧
        cell "max_temp" r = VNull ∧ cell "min_temp" r = VNull) ∧
     (same_date (cell "date" r) w ≠ [] →
        ∃ wr, wr ∈ same_date (cell "date" r) w ∧
              cell "max_temp" r = cell "temp_max_c" wr ∧
              cell "min_temp" r = cell "temp_min_c" wr) ∧
     (same_date (cell "date" r) h = [] →
        cell "holiday_name" r = VStr "Non-Holiday")).
Proof.
  intros Hok Hlayout.
  destruct (enrich_stages _ _ _ _ Hok) as (wc & q1 & q2 & Hwc & Hq1 & Hq2 & Hout).
  split.
  - intros lr d Hlr Hd Hwin.
    assert (in_window lr = true) as Hw by (apply in_window_iff; eauto).
    destruct (kept_chain _ _ _ _ _ _ Hq1 Hq2 Hout lr Hlr Hw) as (r1 & r2 & r & Hch).
    exists r. split; [eapply chain_out; eassumption|].
    destruct (chain_date _ _ _ _ _ Hq1 Hq2 _ _ _ _ Hch) as [-> _]. assumption.
  - intros r Hr.
    destruct (out_chain _ _ _ _ _ _ Hq1 Hq2 Hout r Hr) as (lr & r1 & r2 & Hch).
    destruct (chain_date _ _ _ _ _ Hq1 Hq2 _ _ _ _ Hch) as [Hdate _].
    pose proof (chain_weather _ _ _ _ _ _ Hwc Hq1 Hq2 Hlayout _ _ _ _ Hch) as Hwea.
    pose proof (chain_holiday _ _ _ _ _ Hq1 Hq2 Hlayout _ _ _ _ Hch) as Hhol.
    split.
    { destruct Hch as (Hlr & Hwin & _).
      apply in_window_iff in Hwin as (d & Hd & Hle).
      exists lr, d. by rewrite Hdate. }
    destruct Hch as (_ & _ & _ & _ & new & Hnew & ->).
    destruct (derived_cells _ _ Hnew)
      as (Hname & _ & _ & _ & Hrain & Hsnow & Hfog & Hmax & Hmin).
    rewrite Hdate. rewrite Hname, Hrain, Hsnow, Hfog, Hmax, Hmin.
    split; [|split].
    + intros Hnil. destruct Hwea as [[_ Hnull]|(wr & Hwr & _)];
        [|rewrite Hnil in Hwr; inversion Hwr].
      rewrite !Hnull by compute_done. auto.
    + intros Hsome. destruct Hwea as [[Hnil _]|(wr & Hwr & Hcells)];
        [contradiction|].
      exists wr. rewrite !Hcells by compute_done. auto.
    + intros Hnil. destruct Hhol as [[_ Hnull]|(hr & Hhr & _)];
        [|rewrite Hnil in Hhr; inversion Hhr].
      rewrite Hnull by compute_done. reflexivity.
Qed.

(** C3.  Whenever [_enrich_collisions] returns, in every enriched row the
    three impact flags are the tests of the row's type list for
    Public/Bank, School/Authorities and Optional/Observance, false when
    there is no list; and on tables with the silver column layout the
    row's type list is the one of a holiday row of its date, or null when
    no holiday row has its date. *)
Theorem impact_flags (c h w out : frame) :
  GoldProcessor._enrich_collisions c h w = Ok out →
  (∀ r, r ∈ rows out →
     cell "high_impact_holiday" r =
       VBool (flagged "Public" "Bank" (cell "types" r)) ∧
     cell "partial_impact_holiday" r =
       VBool (flagged "School" "Authorities" (cell "types" r)) ∧
     cell "low_impact_holiday" r =
       VBool (flagged "Optional" "Observance" (cell "types" r))) ∧
  (silver_layout c h →
   ∀ r, r ∈ rows out →
     (same_date (cell "date" r) h = [] ∧ cell "types" r = VNull) ∨
     (∃ hr, hr ∈ same_date (cell "date" r) h ∧
            cell "types" r = cell "types" hr)) ∧
  (∀ a b types, flagged a b types = true ↔
                ∃ l, types = VList l ∧ (a ∈ l ∨ b ∈ l)).
Proof.
  intros Hok.
  destruct (enrich_stages _ _ _ _ Hok) as (wc & q1 & q2 & Hwc & Hq1 & Hq2 & Hout).
  split; [|split; [|apply flagged_iff]].
  - intros r Hr.
    destruct (out_chain _ _ _ _ _ _ Hq1 Hq2 Hout r Hr)
      as (lr & r1 & r2 & _ & _ & _ & _ & new & Hnew & ->).
    destruct (derived_cells _ _ Hnew) as (_ & Hhigh & Hpart & Hlow & _).
    assert (cell "types" (new ∪ r2) = cell "types" r2) as ->.
    { unfold cell. rewrite (derived_old _ _ "types" Hnew); [reflexivity|].
      rewrite derived_names. compute_done. }
    auto.
  - intros Hlayout r Hr.
    destruct (out_chain _ _ _ _ _ _ Hq1 Hq2 Hout r Hr) as (lr & r1 & r2 & Hch).
    destruct (chain_date _ _ _ _ _ Hq1 Hq2 _ _ _ _ Hch) as [Hdate _].
    pose proof (chain_holiday _ _ _ _ _ Hq1 Hq2 Hlayout _ _ _ _ Hch) as Hhol.
    destruct Hch as (_ & _ & _ & _ & new & Hnew & ->).
    assert (cell "types" (new ∪ r2) = cell "types" r2) as ->.
    { unfold cell. rewrite (derived_old _ _ "types" Hnew); [reflexivity|].
      rewrite derived_names. compute_done. }
    rewrite Hdate.
    destruct Hhol as [[Hnil Hnull]|(hr & Hhr & Hcells)].
    + left. split; [assumption|]. apply Hnull. compute_done.
    + right. exists hr. split; [assumption|]. apply Hcells. compute_done.
Qed.


Lemma sample_layout_collisions :
  silver_layout Sample.collisions Sample.holidays.
Proof.
  repeat split; intros x Hx; revert Hx;
    unfold holiday_fields, weather_fields; cbn [app];
    rewrite !elem_of_cons, elem_of_nil; intros H;
    repeat (destruct H as [->|H]; [compute_done|]); destruct H.
Qed.

Lemma sample_layout_june :
  silver_layout Sample.june_collision Sample.holidays.
Proof.
  repeat split; intros x Hx; revert Hx;
    unfold holiday_fields, weather_fields; cbn [app];
    rewrite !elem_of_cons, elem_of_nil; intros H;
    repeat (destruct H as [->|H]; [compute_done|]); destruct H.
Qed.

Lemma enrich_null_safety_witness :
  ∃ out r,
    GoldProcessor._enrich_collisions
      Sample.june_collision Sample.holidays Sample.weather = Ok out ∧
    r ∈ rows out ∧
    cell "date" r = VDate Sample.d2024_06_01 ∧
    cell "has_rain" r = VBool false ∧ cell "has_snow" r = VBool false ∧
    cell "is_foggy" r = VBool false ∧
    cell "max_temp" r = VNull ∧ cell "min_temp" r = VNull ∧
    cell "holiday_name" r = VStr "Non-Holiday".
Proof.
  assert (is_ok (GoldProcessor._enrich_collisions
                   Sample.june_collision Sample.holidays Sample.weather) = true)
    as Hb by (vm_compute; reflexivity).
  destruct (GoldProcessor._enrich_collisions
              Sample.june_collision Sample.holidays Sample.weather)
    as [out|e] eqn:Hok; [clear Hb|discriminate].
  destruct (enrich_null_safety _ _ _ _ Hok sample_layout_june) as [Hex Hall].
  destruct (Hex (Sample.collision_row Sample.d2024_06_01 "BRONX" "10451" 0)
                Sample.d2024_06_01) as (r & Hr & Hd);
    [left|reflexivity|discriminate|].
  exists out, r. split; [reflexivity|]. split; [assumption|]. split; [assumption|].
  destruct (Hall r Hr) as (_ & Hnone & _ & Hhol). rewrite Hd in Hnone, Hhol.
  destruct (Hnone eq_refl) as (? & ? & ? & ? & ?).
  pose proof (Hhol eq_refl). auto 10.
Defined.

(** C2, as stated, fails: the collision of 2019-12-31 has no weather row
    of its date, and the enrichment returns a table in which no row has
    its date and no row has [has_rain] false.  And the column layout
    matters: a collision of 2024-06-01, a day without weather row, in a
    table that has a column [has_rain] of its own holding true, yields
    rows in which [has_rain] is true. *)
Lemma enrich_old_row_counterexample :
  (∃ out,
     Sample.old_collision ∈ rows Sample.collisions ∧
     same_date (cell "date" Sample.old_collision) Sample.weather = [] ∧
     GoldProcessor._enrich_collisions
       Sample.collisions Sample.holidays Sample.weather = Ok out ∧
     ¬ ∃ r, r ∈ rows out ∧
            (cell "date" r = cell "date" Sample.old_collision ∨
             cell "has_rain" r = VBool false)) ∧
  (∃ out,
     (∀ lr, lr ∈ rows Sample.rainy_collision →
            in_window lr = true ∧
            same_date (cell "date" lr) Sample.weather = []) ∧
     GoldProcessor._enrich_collisions
       Sample.rainy_collision Sample.holidays Sample.weather = Ok out ∧
     rows out ≠ [] ∧
     ∀ r, r ∈ rows out → cell "has_rain" r = VBool true).
Proof.
  split.
  - assert (match GoldProcessor._enrich_collisions
                    Sample.collisions Sample.holidays Sample.weather with
            | Ok out =>
                forallb (λ r, negb (bool_decide
                                      (cell "date" r
                                       = cell "date" Sample.old_collision))
                              && negb (bool_decide
                                         (cell "has_rain" r = VBool false)))
                        (rows out)
            | Err _ => false
            end = true) as Hb by (vm_compute; reflexivity).
    destruct (GoldProcessor._enrich_collisions
                Sample.collisions Sample.holidays Sample.weather)
      as [out|e]; [|discriminate].
    exists out. split; [right; right; left|].
    split; [vm_compute; reflexivity|]. split; [reflexivity|].
    intros (r & Hr & H). apply list_elem_of_In in Hr.
    rewrite forallb_forall in Hb. specialize (Hb r Hr).
    apply andb_true_iff in Hb as [Hd Hrain].
    apply negb_true_iff, bool_decide_eq_false in Hd, Hrain. tauto.
  - assert (match GoldProcessor._enrich_collisions
                    Sample.rainy_collision Sample.holidays Sample.weather with
            | Ok out =>
                negb (Nat.eqb (length (rows out)) 0) &&
                forallb (λ r, bool_decide (cell "has_rain" r = VBool true))
                        (rows out)
            | Err _ => false
            end = true) as Hb by (vm_compute; reflexivity).
    destruct (GoldProcessor._enrich_collisions
                Sample.rainy_collision Sample.holidays Sample.weather)
      as [out|e]; [|discriminate].
    apply andb_true_iff in Hb as [Hlen Hrain].
    exists out. split; [|split; [reflexivity|split]].
    + intros lr Hlr. apply list_elem_of_singleton in Hlr as ->.
      split; vm_compute; reflexivity.
    + intros Hnil. rewrite Hnil in Hlen. discriminate.
    + intros r Hr. apply list_elem_of_In in Hr.
      rewrite forallb_forall in Hrain. specialize (Hrain r Hr).
      by apply bool_decide_eq_true in Hrain.
Qed.

Lemma impact_flags_witness :
  ∃ out,
    GoldProcessor._enrich_collisions
      Sample.collisions Sample.holidays Sample.weather = Ok out ∧
    length (rows out) = 2%nat ∧
    ∀ r, r ∈ rows out →
      cell "types" r = VList ["National"; "Public"] ∧
      cell "high_impact_holiday" r = VBool true ∧
      cell "partial_impact_holiday" r = VBool false ∧
      cell "low_impact_holiday" r = VBool false.
Proof.
  assert (match GoldProcessor._enrich_collisions
                  Sample.collisions Sample.holidays Sample.weather with
          | Ok out =>
              bool_decide (length (rows out) = 2%nat) &&
              forallb (λ r, bool_decide
                              (cell "types" r = VList ["National"; "Public"]))
                      (rows out)
          | Err _ => false
          end = true) as Hb by (vm_compute; reflexivity).
  destruct (GoldProcessor._enrich_collisions
              Sample.collisions Sample.holidays Sample.weather)
    as [out|e] eqn:Hok; [|discriminate].
  destruct (impact_flags _ _ _ _ Hok) as (Hflags & _ & _).
  apply andb_true_iff in Hb as [Hlen Hty].
  apply bool_decide_eq_true in Hlen. rewrite forallb_forall in Hty.
  exists out. split; [reflexivity|]. split; [assumption|].
  intros r Hr. destruct (Hflags r Hr) as (Hh & Hp & Hl).
  assert (cell "types" r = VList ["National"; "Public"]) as Ht
    by (eapply bool_decide_eq_true_1, Hty, list_elem_of_In, Hr).
  rewrite Ht in Hh, Hp, Hl. auto.
Defined.

(** ** How many rows the joins produce *)

Lemma Forall2_concat_l {A B} (R : A → B → Prop) (ls : list (list A)) (k : list B) :
  Forall2 R (concat ls) k → ∃ ks, k = concat ks ∧ Forall2 (Forall2 R) ls ks.
Proof.
  revert k. induction ls as [|l ls IH]; simpl; intros k H.
  - inversion H. exists []. split; [reflexivity|constructor].
  - apply Forall2_app_inv_l in H as (k1 & k2 & H1 & H2 & ->).
    destruct (IH _ H2) as (ks & -> & Hks).
    exists (k1 :: ks). split; [reflexivity|]. by constructor.
Qed.

Lemma flat_map_flat_map {A B C} (f : A → list B) (g : B → list C) (l : list A) :
  flat_map g (flat_map f l) = flat_map (λ x, flat_map g (f x)) l.
Proof.
  induction l as [|x l IH]; simpl; [reflexivity|].
  by rewrite flat_map_app, IH.
Qed.

Lemma sum_constant {A} (f : A → nat) (l : list A) (k : nat) :
  (∀ x, x ∈ l → f x = k) →
  foldr Nat.add 0%nat (map f l) = (length l * k)%nat.
Proof.
  induction l as [|x l IH]; intros H; simpl; [reflexivity|].
  rewrite IH by (intros y Hy; apply H; by right).
  rewrite (H x) by left. reflexivity.
Qed.

Lemma Forall2_impl_elem_of {A B} (P Q : A → B → Prop) l k :
  Forall2 P l k → (∀ x y, x ∈ l → P x y → Q x y) → Forall2 Q l k.
Proof.
  induction 1 as [|x y l k Hxy _ IH]; intros H; constructor.
  - apply H; [left|assumption].
  - apply IH. intros x' y' Hx'. apply H. by right.
Qed.

Lemma Forall2_map_l {A A' B} (f : A → A') (P : A' → B → Prop) l k :
  Forall2 P (map f l) k → Forall2 (λ x y, P (f x) y) l k.
Proof.
  revert k. induction l as [|x l IH]; simpl; intros k H; inversion H; subst;
    constructor; auto.
Qed.

Lemma length_concat_sum {A} (ls : list (list A)) :
  length (concat ls) = foldr Nat.add 0%nat (map length ls).
Proof.
  induction ls as [|l ls IH]; simpl; [reflexivity|].
  by rewrite length_app, IH.
Qed.

Section Multiplicity.

Variables c h w out wc q1 q2 : frame.

Hypothesis Hwc :
  LazyFrame.select (map col GoldProcessor.weather_columns) w = Ok wc.
Hypothesis Hq1 : LazyFrame.join_left "date" h (kept c) = Ok q1.
Hypothesis Hq2 : LazyFrame.join_left "date" wc q1 = Ok q2.
Hypothesis Hout :
  LazyFrame.with_columns GoldProcessor.derived_columns q2 = Ok out.

(** The rows a kept collision row has after both joins. *)
Lemma length_joined lr :
  length (flat_map (LazyFrame.join_row "date" q1 wc)
                   (LazyFrame.join_row "date" (kept c) h lr)) =
  multiplicity h w lr.
Proof.
  destruct (join_left_Ok _ _ _ _ Hq1) as (Hd & _ & Hnd1 & _ & _).
  rewrite length_flat_map.
  rewrite (sum_constant _ _ (Nat.max 1 (length (same_date (cell "date" lr) w)))).
  - rewrite length_join_row. reflexivity.
  - intros r1 Hr1. rewrite length_join_row.
    assert (cell "date" r1 = cell "date" lr) as Hdate.
    { unfold cell.
      by rewrite (join_row_left "date" (kept c) h lr r1 "date" Hnd1 Hd Hr1). }
    assert (LazyFrame.matches "date" wc r1 = LazyFrame.matches "date" wc lr) as ->
      by (unfold LazyFrame.matches; by rewrite Hdate).
    rewrite (matches_weather _ _ Hwc), length_map. reflexivity.
Qed.

Lemma out_blocks :
  ∃ blocks, rows out = concat blocks ∧
    Forall2 (λ lr b, length b = multiplicity h w lr ∧
                     ∀ r, r ∈ b → cell "date" r = cell "date" lr)
            (rows (kept c)) blocks.
Proof.
  pose proof (with_columns_Ok _ _ _ Hout) as Hrows.
  destruct (join_left_Ok _ _ _ _ Hq1) as (_ & _ & _ & _ & Hrows1).
  destruct (join_left_Ok _ _ _ _ Hq2) as (_ & _ & _ & _ & Hrows2).
  rewrite Hrows2, Hrows1, flat_map_flat_map, flat_map_concat_map in Hrows.
  apply Forall2_concat_l in Hrows as (blocks & Hcat & Hblocks).
  exists blocks. split; [assumption|].
  apply Forall2_map_l in Hblocks.
  eapply Forall2_impl_elem_of; [exact Hblocks|].
  intros lr b Hlr Hb. cbv beta in Hb. split.
  - rewrite <- (Forall2_length _ _ _ Hb). apply length_joined.
  - intros r Hr.
    destruct (Forall2_elem_of_r _ _ _ _ Hb Hr) as (r2 & Hr2 & new & Hnew & ->).
    apply elem_of_flat_map in Hr2 as (r1 & Hr1 & Hr2).
    simpl in Hlr. apply elem_of_List_filter in Hlr as [Hlr Hw].
    assert (chain c h wc q1 lr r1 r2 (new ∪ r2)) as Hch
      by (repeat split; eauto).
    by destruct (chain_date _ _ _ _ _ Hq1 Hq2 _ _ _ _ Hch).
Qed.

End Multiplicity.

Lemma elem_of_kept c lr :
  lr ∈ rows (kept c) ↔
  lr ∈ rows c ∧ ∃ d, cell "date" lr = VDate d ∧ window_start <= d.
Proof.
  unfold kept. simpl. rewrite elem_of_List_filter, in_window_iff. reflexivity.
Qed.

(** C10.  Whenever [_enrich_collisions] returns, the enriched table is
    made of one block of rows per collision row dated on or after
    2020-01-01, in order; the block of a collision row has
    max(1, holiday rows of its date) times max(1, weather rows of its
    date) rows, all of its date; so the [total_accidents] of the
    aggregation of the enriched table add up to the sum of these
    products, not to the number of collision rows. *)
Theorem enrich_multiplicity (c h w out : frame) :
  GoldProcessor._enrich_collisions c h w = Ok out →
  (∃ blocks, rows out = concat blocks ∧
     Forall2 (λ lr b, length b = multiplicity h w lr ∧
                      ∀ r, r ∈ b → cell "date" r = cell "date" lr)
             (rows (kept c)) blocks) ∧
  (∀ lr, lr ∈ rows (kept c) ↔
         lr ∈ rows c ∧ ∃ d, cell "date" lr = VDate d ∧ window_start <= d) ∧
  length (rows out) =
    foldr Nat.add 0%nat (map (multiplicity h w) (rows (kept c))) ∧
  (∀ gold, GoldProcessor._aggregate_stats out = Ok gold →
     sum_total_accidents gold =
     Z.of_nat (foldr Nat.add 0%nat (map (multiplicity h w) (rows (kept c))))).
Proof.
  intros Hok.
  destruct (enrich_stages _ _ _ _ Hok) as (wc & q1 & q2 & Hwc & Hq1 & Hq2 & Hout).
  destruct (out_blocks _ _ _ _ _ _ _ Hwc Hq1 Hq2 Hout) as (blocks & Hcat & Hblocks).
  assert (length (rows out) =
          foldr Nat.add 0%nat (map (multiplicity h w) (rows (kept c)))) as Hlen.
  { rewrite Hcat, length_concat_sum. clear -Hblocks.
    induction Hblocks as [|lr b l bs [Hb _] _ IH]; simpl; [reflexivity|].
    by rewrite Hb, IH. }
  split; [eauto|]. split; [apply elem_of_kept|]. split; [assumption|].
  intros gold Hgold. destruct (aggregate_stats_sum _ _ Hgold) as [-> _].
  unfold height. by rewrite Hlen.
Qed.

Lemma enrich_multiplicity_witness :
  ∃ hol out gold,
    SilverProcessor.holidays_query Sample.raw_holidays = Ok hol ∧
    length (rows hol) = 2%nat ∧
    GoldProcessor._enrich_collisions Sample.collisions hol Sample.weather = Ok out ∧
    GoldProcessor._aggregate_stats out = Ok gold ∧
    length (rows (kept Sample.collisions)) = 2%nat ∧
    length (rows out) = 4%nat ∧
    sum_total_accidents gold = 4.
Proof.
  assert (match SilverProcessor.holidays_query Sample.raw_holidays with
          | Ok hol =>
              bool_decide (length (rows hol) = 2%nat) &&
              bool_decide (foldr Nat.add 0%nat
                             (map (multiplicity hol Sample.weather)
                                  (rows (kept Sample.collisions))) = 4%nat) &&
              match GoldProcessor._enrich_collisions
                      Sample.collisions hol Sample.weather with
              | Ok out => is_ok (GoldProcessor._aggregate_stats out)
              | Err _ => false
              end
          | Err _ => false
          end = true) as Hb by (vm_compute; reflexivity).
  destruct (SilverProcessor.holidays_query Sample.raw_holidays)
    as [hol|e]; [|discriminate].
  apply andb_true_iff in Hb as [Hb Hb3]. apply andb_true_iff in Hb as [Hb1 Hb2].
  apply bool_decide_eq_true_1 in Hb1, Hb2.
  destruct (GoldProcessor._enrich_collisions Sample.collisions hol Sample.weather)
    as [out|e] eqn:Hok; [|discriminate].
  destruct (GoldProcessor._aggregate_stats out) as [gold|e] eqn:Hgold;
    [|discriminate].
  destruct (enrich_multiplicity _ _ _ _ Hok) as (_ & _ & Hlen & Hsum).
  exists hol, out, gold. split; [reflexivity|]. split; [assumption|].
  split; [assumption|]. split; [assumption|]. split; [reflexivity|].
  split; [by rewrite Hlen|]. rewrite (Hsum gold Hgold), Hb2. reflexivity.
Defined.

(** ** Computed columns, cell by cell *)

Lemma project_lookup es r new e :
  project es r = Ok new → NoDup (map output_name es) → e ∈ es →
  ∃ v, eval e r = Ok v ∧ new !! output_name e = Some v.
Proof.
  revert new. induction es as [|e0 es IH]; intros new H Hnd He; [inversion He|].
  apply project_cons in H as (v & rest & Hv & Hrest & ->).
  simpl in Hnd. apply NoDup_cons in Hnd as [Hfresh Hnd].
  apply elem_of_cons in He as [->|He].
  - exists v. split; [assumption|apply lookup_insert_eq].
  - destruct (IH _ Hrest Hnd He) as (v' & Hv' & Hl).
    exists v'. split; [assumption|].
    rewrite lookup_insert_ne; [assumption|].
    intros Heq. apply Hfresh. rewrite Heq. apply list_elem_of_fmap. eauto.
Qed.

Lemma project_none es r new k :
  project es r = Ok new → k ∉ map output_name es → new !! k = None.
Proof.
  revert new. induction es as [|e0 es IH]; intros new H Hk.
  - injection H as <-. apply lookup_empty.
  - apply project_cons in H as (v & rest & Hv & Hrest & ->).
    simpl in Hk. apply not_elem_of_cons in Hk as [Hne Hk].
    rewrite lookup_insert_ne by congruence. eauto.
Qed.

(** Every row of [with_columns] holds the value of each expression on
    the row it comes from, and the other cells of that row. *)
Lemma with_columns_cells es df out :
  LazyFrame.with_columns es df = Ok out →
  Forall2 (λ r r',
             (∀ e, e ∈ es → eval e r = Ok (cell (output_name e) r')) ∧
             (∀ k, k ∉ map output_name es → r' !! k = r !! k))
          (rows df) (rows out).
Proof.
  intros H. pose proof (with_columns_Ok _ _ _ H) as Hrows.
  unfold LazyFrame.with_columns in H. do 2 inv_bind H. clear H. destruct a0.
  pose proof (proj1 (check_unique_Ok _) Ha0) as Hnd.
  eapply Forall2_impl; [exact Hrows|]. cbv beta.
  intros r r' (new & Hnew & ->). split.
  - intros e He. destruct (project_lookup _ _ _ _ Hnew Hnd He) as (v & Hv & Hl).
    rewrite cell_union, Hl. assumption.
  - intros k Hk. rewrite lookup_union_r; [reflexivity|].
    eapply project_none; eassumption.
Qed.

Lemma Forall2_compose {A B C} (P : A → B → Prop) (Q : B → C → Prop) l k m :
  Forall2 P l k → Forall2 Q k m → Forall2 (λ x z, ∃ y, P x y ∧ Q y z) l m.
Proof.
  intros H. revert m. induction H as [|x y l k Hxy _ IH]; intros m Hm;
    inversion Hm; subst; constructor; eauto.
Qed.

Lemma Forall2_map_r_eq {A B} (f : A → B) (l : list A) :
  Forall2 (λ x y, y = f x) l (map f l).
Proof. induction l; simpl; constructor; auto. Qed.

(** ** Renaming *)

Lemma assoc_Some k v (m : list (string * string)) :
  assoc k m = Some v → k ∈ map fst m ∧ v ∈ map snd m.
Proof.
  induction m as [|[k' v'] m IH]; simpl; [discriminate|].
  case_bool_decide as Hk.
  - intros [= ->]. subst. split; left.
  - intros H. destruct (IH H). split; by right.
Qed.

Lemma rename_Ok mapping df out :
  LazyFrame.rename mapping df = Ok out →
  let new_name c := default c (assoc c mapping) in
  (∀ c, c ∈ map fst mapping → c ∈ columns df) ∧
  NoDup (map new_name (columns df)) ∧
  Forall2 (λ r r', ∀ c, c ∈ columns df → cell (new_name c) r' = cell c r)
          (rows df) (rows out).
Proof.
  unfold LazyFrame.rename. intros H. do 2 inv_bind H. injection H as <-.
  destruct a, a0.
  pose proof (proj1 (check_columns_Ok _ _) Ha) as Hcols.
  pose proof (proj1 (check_unique_Ok _) Ha0) as Hnd.
  cbv zeta. split; [assumption|]. split; [assumption|]. simpl.
  eapply Forall2_impl; [apply Forall2_map_r_eq|]. cbv beta.
  intros r r' -> c Hc. unfold cell at 1.
  assert (list_to_map
            (map (λ c0, (default c0 (assoc c0 mapping), cell c0 r)) (columns df))
          = foldr (λ c0 acc, <[default c0 (assoc c0 mapping) := cell c0 r]> acc)
                  (∅ : gmap string value) (columns df)) as ->.
  { clear. induction (columns df) as [|c0 cs IH]; simpl; [reflexivity|].
    by rewrite <- IH. }
  by rewrite (lookup_foldr_insert_new _ _ _ _ c Hnd Hc).
Qed.

(** ** Computations in the world *)

Lemma io_bind_Ok {A B} (m : io A) (k : A → io B) w b w' :
  (m ≫= k) w = (Ok b, w') → ∃ a w1, m w = (Ok a, w1) ∧ k a w1 = (Ok b, w').
Proof.
  unfold mbind, io_mbind, io_bind. destruct (m w) as [[a|e] w1]; [eauto|].
  discriminate.
Qed.

(** Splits a hypothesis [(x ← m; k) w = (Ok b, w')] into its two steps. *)
Ltac inv_io H :=
  let a := fresh "a" in
  let w := fresh "w" in
  let Ha := fresh "Ha" in
  apply io_bind_Ok in H; destruct H as (a & w & Ha & H).

Lemma log_msg_Ok lvl msg w a w' :
  log_msg lvl msg w = (Ok a, w') → files w' = files w.
Proof. unfold log_msg. by intros [= _ <-]. Qed.

Lemma scan_csv_files p w1 w2 :
  files w1 = files w2 → (scan_csv p w1).1 = (scan_csv p w2).1.
Proof.
  unfold scan_csv, get_files, mbind, io_mbind, io_bind. intros ->.
  destruct (files w2 !! p) as [[|[]]|]; reflexivity.
Qed.

Lemma read_json_files p w1 w2 :
  files w1 = files w2 → (read_json p w1).1 = (read_json p w2).1.
Proof.
  unfold read_json, get_files, mbind, io_mbind, io_bind. intros ->.
  destruct (files w2 !! p) as [[|[]]|]; reflexivity.
Qed.

(** ** Standardizing the collisions *)

Lemma keeps_crash_date r :
  match keeps (is_not_null (col "CRASH DATE")) r with
  | Ok true => true
  | _ => false
  end = has_crash_date r.
Proof.
  unfold keeps, has_crash_date. simpl. by destruct (is_null _).
Qed.

Lemma collisions_query_rows self lf out :
  SilverProcessor.collisions_query self lf = Ok out →
  Forall2 (standardizes self) (List.filter has_crash_date (rows lf)) (rows out).
Proof.
  unfold SilverProcessor.collisions_query. intros H. do 4 inv_bind H.
  apply filter_Ok in Ha as [Hc1 Hr1].
  assert (rows a = List.filter has_crash_date (rows lf)) as <-
    by (rewrite Hr1; apply List.filter_ext; intros r; apply keeps_crash_date).
  apply rename_Ok in Ha0 as (Hkeys & _ & H2). cbv zeta in H2.
  apply select_cols_Ok in Ha1 as (_ & _ & _ & H3).
  apply with_columns_cells in Ha2. apply with_columns_cells in H.
  pose proof (Forall2_map_r_eq
                (λ r, foldr (λ c acc, <[c := cell c r]> acc)
                            (∅ : gmap string value)
                            (map snd (SilverProcessor.rename_map self)))
                (rows a0)) as H3'.
  rewrite <- H3 in H3'.
  pose proof (Forall2_compose _ _ _ _ _ H2 H3') as H23.
  pose proof (Forall2_compose _ _ _ _ _ H23 Ha2) as H234.
  pose proof (Forall2_compose _ _ _ _ _ H234 H) as Hall.
  eapply Forall2_impl; [exact Hall|]. cbv beta.
  intros r r' (r4 & (r3 & (r2 & Hren & ->) & _ & H4) & _ & H5) old new Hassoc Hnew.
  destruct (assoc_Some _ _ _ Hassoc) as [Hold Hval].
  unfold recomputed in Hnew. rewrite map_app, not_elem_of_app in Hnew.
  destruct Hnew as [Hn4 Hn5].
  unfold cell at 1. rewrite (H5 new Hn5), (H4 new Hn4).
  fold (cell new (foldr (λ c acc, <[c := cell c r2]> acc) ∅
                        (map snd (SilverProcessor.rename_map self)))).
  rewrite (cell_select_cols _ _ _ Hval).
  specialize (Hren old). rewrite Hassoc in Hren. simpl in Hren.
  apply Hren. by apply Hkeys.
Qed.

Lemma process_collisions_Ok self input output_path w df p w' :
  SilverProcessor.process_collisions self input output_path w = (Ok (df, p), w') →
  ∃ lf, loads scan_csv input w lf ∧
        SilverProcessor.collisions_query self lf = Ok df ∧ p = output_path.
Proof.
  unfold SilverProcessor.process_collisions. intros H. do 6 inv_io H.
  injection H as <- <- <-.
  exists a0. split; [|split; [|reflexivity]].
  - apply log_msg_Ok in Ha. destruct input as [df'|path|]; simpl.
    + by injection Ha0 as ->.
    + rewrite <- (scan_csv_files path w0 w Ha), Ha0. reflexivity.
    + discriminate.
  - unfold lift in Ha1. by injection Ha1 as ->.
Qed.

(** C4.  Whenever [process_collisions] returns, its rows are, in order,
    the raw rows whose "CRASH DATE" is not null, standardized: the rows
    without crash date are dropped and every other row is kept, whatever
    its date.  On the raw rows dated 01/01/2024, 01/01/2019 and without
    date it returns exactly the first two. *)
Theorem process_collisions_null_filter :
  (∀ self input output_path w df p w',
     SilverProcessor.process_collisions self input output_path w
       = (Ok (df, p), w') →
     ∃ lf, loads scan_csv input w lf ∧
           length (rows df) = length (List.filter has_crash_date (rows lf)) ∧
           Forall2 (standardizes self)
                   (List.filter has_crash_date (rows lf)) (rows df)) ∧
  (∃ df p w',
     SilverProcessor.process_collisions Sample.config
       (DataFrame Sample.raw_collisions) Sample.silver_path Sample.empty_world
       = (Ok (df, p), w') ∧
     length (rows df) = 2%nat ∧
     map (cell "crash_date") (rows df) = [VStr "01/01/2024"; VStr "01/01/2019"] ∧
     map (cell "date") (rows df) = [VDate 19723; VDate 17897]).
Proof.
  split.
  - intros self input output_path w df p w' H.
    apply process_collisions_Ok in H as (lf & Hload & Hq & _).
    apply collisions_query_rows in Hq.
    exists lf. split; [assumption|]. split; [|assumption].
    symmetry. eapply Forall2_length, Hq.
  - assert (match (SilverProcessor.process_collisions Sample.config
                     (DataFrame Sample.raw_collisions) Sample.silver_path
                     Sample.empty_world).1 with
            | Ok (df, _) =>
                bool_decide (map (cell "crash_date") (rows df) =
                             [VStr "01/01/2024"; VStr "01/01/2019"]) &&
                bool_decide (map (cell "date") (rows df) =
                             [VDate 19723; VDate 17897])
            | Err _ => false
            end = true) as Hb by (vm_compute; reflexivity).
    destruct (SilverProcessor.process_collisions _ _ _ _) as [[[df p]|e] w'];
      [|discriminate].
    simpl in Hb. apply andb_true_iff in Hb as [H1 H2].
    apply bool_decide_eq_true_1 in H1, H2.
    exists df, p, w'. split; [reflexivity|]. split; [|auto].
    rewrite <- (length_map (cell "crash_date")), H1. reflexivity.
Qed.

Lemma process_collisions_null_filter_witness :
  ∃ df p w',
    SilverProcessor.process_collisions Sample.config
      (DataFrame Sample.raw_collisions) Sample.silver_path Sample.empty_world
      = (Ok (df, p), w') ∧
    length (List.filter has_crash_date (rows Sample.raw_collisions)) = 2%nat ∧
    length (rows df) = 2%nat.
Proof.
  destruct process_collisions_null_filter as [Hall (df & p & w' & Hrun & _)].
  exists df, p, w'. split; [assumption|]. split; [reflexivity|].
  destruct (Hall _ _ _ _ _ _ _ Hrun) as (lf & Hload & Hlen & _).
  simpl in Hload. subst lf. rewrite Hlen. reflexivity.
Defined.

(** ** Trimming *)

Lemma app_cons a s t : String a s +:+ t = String a (s +:+ t).
Proof. reflexivity. Qed.

Lemma app_nil s : s +:+ "" = s.
Proof. induction s as [|a s IH]; [reflexivity|]. by rewrite app_cons, IH. Qed.

Lemma app_empty t : "" +:+ t = t.
Proof. reflexivity. Qed.

Lemma app_app s t u : (s +:+ t) +:+ u = s +:+ (t +:+ u).
Proof. induction s as [|a s IH]; [reflexivity|]. by rewrite !app_cons, IH. Qed.

Lemma byte_is_eq n a : byte_is n a = true → a = ascii_of_N n.
Proof.
  unfold byte_is. intros H. apply N.eqb_eq in H. rewrite <- H.
  by rewrite ascii_N_embedding.
Qed.

Lemma ws_start_cont c :
  (128 <= N_of_ascii c <= 191)%N → ws_start c = false.
Proof.
  intros H. unfold ws_start, is_whitespace, byte_is.
  repeat (apply orb_false_iff; split); try (apply N.eqb_neq; lia).
  apply andb_false_iff. right. apply N.leb_gt. lia.
Qed.

Lemma is_whitespace2_cont a b : is_whitespace2 a b = true → ws_start b = false.
Proof.
  unfold is_whitespace2. intros H. apply andb_true_iff in H as [_ H].
  apply orb_true_iff in H as [H|H]; apply byte_is_eq in H; subst b; reflexivity.
Qed.

Lemma is_whitespace3_cont a b c :
  is_whitespace3 a b c = true → ws_start b = false ∧ ws_start c = false.
Proof.
  unfold is_whitespace3, byte_is. cbv zeta. intros H.
  repeat first [rewrite orb_true_iff in H | rewrite andb_true_iff in H].
  rewrite ?N.leb_le, ?N.eqb_eq in H.
  split; apply ws_start_cont; lia.
Qed.

Lemma blank_start a s : blank (String a s) = true → ws_start a = true.
Proof.
  cbn [blank]. unfold ws_start. destruct (is_whitespace a); [reflexivity|].
  destruct s as [|b s]; [discriminate|].
  unfold is_whitespace2. destruct (byte_is 194 a) eqn:H2; [reflexivity|].
  cbn [andb]. destruct s as [|c s]; [discriminate|].
  unfold is_whitespace3. intros H. apply andb_true_iff in H as [H _].
  destruct (byte_is 225 a), (byte_is 226 a), (byte_is 227 a); try reflexivity.
  discriminate.
Qed.

Lemma blank_app_r p :
  blank p = true → ∀ t, blank (t +:+ p) = blank t.
Proof.
  intros Hp.
  assert (∀ n t, (String.length t ≤ n)%nat → blank (t +:+ p) = blank t) as H;
    [|intros t; by apply (H (String.length t))].
  induction n as [|n IH]; intros t Hn.
  { destruct t; [assumption|simpl in Hn; lia]. }
  destruct t as [|a t]; [assumption|].
  rewrite ?app_cons, ?app_empty; cbn [blank]. simpl in Hn.
  destruct (is_whitespace a); [apply IH; lia|].
  destruct t as [|b t].
  { rewrite ?app_cons, ?app_empty. destruct p as [|b p]; [reflexivity|].
    pose proof (blank_start _ _ Hp) as Hb.
    destruct (is_whitespace2 a b) eqn:H2;
      [apply is_whitespace2_cont in H2; congruence|].
    destruct p as [|c p]; [reflexivity|].
    destruct (is_whitespace3 a b c) eqn:H3; [|reflexivity].
    apply is_whitespace3_cont in H3 as [H3 _]. congruence. }
  rewrite ?app_cons, ?app_empty. simpl in Hn.
  destruct (is_whitespace2 a b); [apply IH; lia|].
  destruct t as [|c t].
  { rewrite ?app_cons, ?app_empty. destruct p as [|c p]; [reflexivity|].
    pose proof (blank_start _ _ Hp) as Hb.
    destruct (is_whitespace3 a b c) eqn:H3; [|reflexivity].
    apply is_whitespace3_cont in H3 as [_ H3]. congruence. }
  rewrite ?app_cons, ?app_empty. simpl in Hn.
  destruct (is_whitespace3 a b c); [|reflexivity]. cbn [andb]. apply IH. lia.
Qed.

Lemma blank_app p q : blank p = true → blank q = true → blank (p +:+ q) = true.
Proof. intros Hp Hq. by rewrite blank_app_r. Qed.

Lemma strip_chars_start_blank p t :
  blank p = true → strip_chars_start (p +:+ t) = strip_chars_start t.
Proof.
  assert (∀ n p, (String.length p ≤ n)%nat → blank p = true →
                 strip_chars_start (p +:+ t) = strip_chars_start t) as H;
    [|intros Hp; by apply (H (String.length p))].
  induction n as [|n IH]; intros q Hn Hq.
  { destruct q; [reflexivity|simpl in Hn; lia]. }
  destruct q as [|a q]; [reflexivity|].
  rewrite ?app_cons, ?app_empty; cbn [strip_chars_start]. cbn [blank] in Hq. simpl in Hn.
  destruct (is_whitespace a); [apply IH; [lia|assumption]|].
  destruct q as [|b q]; [discriminate|]. rewrite ?app_cons, ?app_empty. simpl in Hn.
  destruct (is_whitespace2 a b); [apply IH; [lia|assumption]|].
  destruct q as [|c q]; [discriminate|]. rewrite ?app_cons, ?app_empty. simpl in Hn.
  apply andb_true_iff in Hq as [-> Hq]. apply IH; [lia|assumption].
Qed.

Lemma strip_chars_start_blank_nil p :
  blank p = true → strip_chars_start p = "".
Proof.
  intros H. rewrite <- (app_nil p).
  by rewrite strip_chars_start_blank.
Qed.

Lemma strip_chars_end_blank p : blank p = true → strip_chars_end p = "".
Proof. destruct p as [|a p]; [reflexivity|]. cbn [strip_chars_end]. by intros ->. Qed.

Lemma strip_chars_end_app_blank t p :
  blank p = true → strip_chars_end (t +:+ p) = strip_chars_end t.
Proof.
  intros H. induction t as [|a t IH].
  - by apply strip_chars_end_blank.
  - rewrite ?app_cons, ?app_empty; cbn [strip_chars_end].
    change (String a (t +:+ p)) with (String a t +:+ p).
    rewrite (blank_app_r p H). by rewrite IH.
Qed.

(** What stripping the start leaves: the text is a blank prefix followed
    by it. *)
Lemma strip_chars_start_split s :
  ∃ p, blank p = true ∧ s = p +:+ strip_chars_start s.
Proof.
  assert (∀ n s, (String.length s ≤ n)%nat →
                 ∃ p, blank p = true ∧ s = p +:+ strip_chars_start s) as H;
    [|by apply (H (String.length s))].
  clear s. induction n as [|n IH]; intros s Hn.
  { destruct s; [by exists ""|simpl in Hn; lia]. }
  destruct s as [|a s]; [by exists ""|]. simpl in Hn.
  cbn [strip_chars_start].
  destruct (is_whitespace a) eqn:H1.
  { destruct (IH s) as (p & Hp & Hs); [lia|]. exists (String a p).
    split; [cbn [blank]; by rewrite H1|].
    rewrite ?app_cons, ?app_empty. by f_equal. }
  destruct s as [|b s]; [by exists ""|].
  simpl in Hn.
  destruct (is_whitespace2 a b) eqn:H2.
  { destruct (IH s) as (p & Hp & Hs); [lia|]. exists (String a (String b p)).
    split; [cbn [blank]; by rewrite H1, H2|].
    rewrite ?app_cons, ?app_empty. by do 2 f_equal. }
  destruct s as [|c s]; [by exists ""|].
  simpl in Hn.
  destruct (is_whitespace3 a b c) eqn:H3; [|by exists ""].
  destruct (IH s) as (p & Hp & Hs); [lia|].
  exists (String a (String b (String c p))).
  split; [cbn [blank]; by rewrite H1, H2, H3|].
  rewrite ?app_cons, ?app_empty. by do 3 f_equal.
Qed.

(** Appending white space to a text that is not blank does not change
    what stripping the start removes. *)
Lemma strip_chars_start_app_blank s t :
  blank s = false → blank t = true →
  strip_chars_start (s +:+ t) = strip_chars_start s +:+ t.
Proof.
  intros Hs Ht. revert Hs.
  assert (∀ n s, (String.length s ≤ n)%nat → blank s = false →
                 strip_chars_start (s +:+ t) = strip_chars_start s +:+ t) as H;
    [|by apply (H (String.length s))].
  clear s. induction n as [|n IH]; intros s Hn Hs.
  { destruct s; [discriminate|simpl in Hn; lia]. }
  destruct s as [|a s]; [discriminate|]. simpl in Hn.
  cbn [blank] in Hs. rewrite ?app_cons, ?app_empty; cbn [strip_chars_start].
  destruct (is_whitespace a); [apply IH; [lia|assumption]|].
  destruct s as [|b s].
  { rewrite ?app_cons, ?app_empty. destruct t as [|b t]; [reflexivity|].
    pose proof (blank_start _ _ Ht) as Hb.
    destruct (is_whitespace2 a b) eqn:H2;
      [apply is_whitespace2_cont in H2; congruence|].
    destruct t as [|c t]; [reflexivity|].
    destruct (is_whitespace3 a b c) eqn:H3; [|reflexivity].
    apply is_whitespace3_cont in H3 as [H3 _]. congruence. }
  rewrite ?app_cons, ?app_empty. simpl in Hn.
  destruct (is_whitespace2 a b); [apply IH; [lia|assumption]|].
  destruct s as [|c s].
  { rewrite ?app_cons, ?app_empty. destruct t as [|c t]; [reflexivity|].
    pose proof (blank_start _ _ Ht) as Hb.
    destruct (is_whitespace3 a b c) eqn:H3; [|reflexivity].
    apply is_whitespace3_cont in H3 as [_ H3]. congruence. }
  rewrite ?app_cons, ?app_empty. simpl in Hn.
  destruct (is_whitespace3 a b c); [|reflexivity].
  cbn [andb] in Hs. apply IH; [lia|assumption].
Qed.

Lemma strip_chars_app_blank s p :
  blank p = true → strip_chars (s +:+ p) = strip_chars s.
Proof.
  intros H. unfold strip_chars.
  destruct (blank s) eqn:Hs.
  - rewrite !strip_chars_start_blank_nil; [reflexivity|assumption|].
    by apply blank_app.
  - rewrite strip_chars_start_app_blank by assumption.
    by apply strip_chars_end_app_blank.
Qed.

Lemma strip_chars_padded pre s post :
  blank pre = true → blank post = true →
  strip_chars (pre +:+ s +:+ post) = strip_chars s.
Proof.
  intros Hpre Hpost. unfold strip_chars at 1.
  rewrite strip_chars_start_blank by assumption.
  by apply strip_chars_app_blank.
Qed.

(** ** The weather query *)

Lemma keeps_weather_window r :
  match keeps (ge_lit (col "DATE") (VStr "2020-01-01")) r with
  | Ok true => true
  | _ => false
  end = survives r.
Proof.
  unfold keeps, survives. simpl. destruct (cell "DATE" r) as [| | | |s| | |];
    try reflexivity.
  simpl. unfold String.ltb. by destruct (String.compare s "2020-01-01").
Qed.

Lemma keeps_dated r :
  survives r = true →
  match keeps (is_not_null (col "DATE")) r with
  | Ok true => true
  | _ => false
  end = true.
Proof.
  unfold keeps, survives. simpl. by destruct (cell "DATE" r).
Qed.

Lemma filter_filter_id {A} (f g : A → bool) (l : list A) :
  (∀ x, f x = true → g x = true) →
  List.filter g (List.filter f l) = List.filter f l.
Proof.
  intros H. induction l as [|x l IH]; simpl; [reflexivity|].
  destruct (f x) eqn:Hf; [|assumption].
  simpl. rewrite (H x Hf). by f_equal.
Qed.

Lemma weather_names e :
  e ∈ SilverProcessor.weather_exprs →
  output_name e ∈ SilverProcessor.clean_columns ∧
  output_name e ∉ map output_name SilverProcessor.partition_keys.
Proof.
  unfold SilverProcessor.weather_exprs. intros He.
  repeat (apply elem_of_cons in He as [->|He]); [..|inversion He];
    (split; [compute_done|compute_done]).
Qed.

(** Every row of the weather query comes from a surviving raw row, in
    order, and holds the value of each computed column on that row. *)
Lemma weather_query_rows lf out :
  SilverProcessor.weather_query lf = Ok out →
  Forall2 (λ r r', ∀ e, e ∈ SilverProcessor.weather_exprs →
                        eval e r = Ok (cell (output_name e) r'))
          (List.filter survives (rows lf)) (rows out).
Proof.
  unfold SilverProcessor.weather_query. intros H. do 4 inv_bind H.
  apply filter_Ok in Ha as [_ Hr1]. apply filter_Ok in Ha0 as [_ Hr2].
  assert (rows a0 = List.filter survives (rows lf)) as <-.
  { rewrite Hr2, Hr1.
    rewrite (List.filter_ext _ survives keeps_weather_window).
    apply filter_filter_id, keeps_dated. }
  apply with_columns_cells in Ha1. apply with_columns_cells in H.
  apply select_cols_Ok in Ha2 as (_ & _ & _ & H3).
  pose proof (Forall2_map_r_eq
                (λ r, foldr (λ c acc, <[c := cell c r]> acc)
                            (∅ : gmap string value)
                            SilverProcessor.clean_columns)
                (rows a1)) as H3'.
  rewrite <- H3 in H3'.
  pose proof (Forall2_compose _ _ _ _ _ Ha1 H3') as H13.
  pose proof (Forall2_compose _ _ _ _ _ H13 H) as Hall.
  eapply Forall2_impl; [exact Hall|]. cbv beta.
  intros r r' (r4 & (r3 & (H1 & _) & ->) & _ & H5) e He.
  destruct (weather_names _ He) as [Hin Hout].
  rewrite (H1 e He). f_equal. unfold cell at 2. rewrite (H5 _ Hout).
  fold (cell (output_name e)
          (foldr (λ c acc, <[c := cell c r3]> acc) ∅
                 SilverProcessor.clean_columns)).
  by rewrite (cell_select_cols _ _ _ Hin).
Qed.

Lemma process_weather_Ok input output_path w df p w' :
  SilverProcessor.process_weather input output_path w = (Ok (df, p), w') →
  ∃ lf, loads scan_csv input w lf ∧
        SilverProcessor.weather_query lf = Ok df ∧ p = output_path.
Proof.
  unfold SilverProcessor.process_weather. intros H. do 6 inv_io H.
  injection H as <- <- <-.
  exists a0. split; [|split; [|reflexivity]].
  - apply log_msg_Ok in Ha. destruct input as [df'|path|]; simpl.
    + by injection Ha0 as ->.
    + rewrite <- (scan_csv_files path w0 w Ha), Ha0. reflexivity.
    + discriminate.
  - unfold lift in Ha1. by injection Ha1 as ->.
Qed.

(** ** Readings *)

Lemma reading_eval c r v :
  eval (SilverProcessor.reading c) r = Ok v →
  match parsed (cell c r) with
  | Some (Some f) => v = VFloat f
  | Some None => v = VNull
  | None => False
  end.
Proof.
  unfold SilverProcessor.reading, parsed. simpl.
  destruct (cast_string_v (cell c r)) as [[| | | |s| | |]|e]; simpl;
    try discriminate.
  - by intros [= <-].
  - destruct (parse_float64 (strip_chars s)); simpl; [|discriminate].
    by intros [= <-].
Qed.

(** ** Rounding *)

Lemma nearest_int_even m e :
  e < 0 →
  0 <= nearest_int HalfToEven m e ∧
  nearest_even (Zpos m) e (nearest_int HalfToEven m e).
Proof.
  intros He. unfold nearest_int, nearest_even.
  rewrite (proj2 (Z.leb_gt 0 e)) by lia. cbv zeta.
  assert (0 < 2 ^ (- e)) as Hd by (apply Z.pow_pos_nonneg; lia).
  set (d := 2 ^ (- e)) in *.
  pose proof (Z.div_mod (Zpos m) d ltac:(lia)) as Hm.
  pose proof (Z.mod_pos_bound (Zpos m) d Hd) as Hr.
  assert (0 <= Zpos m / d) as Hq by (apply Z.div_pos; lia).
  set (q := Zpos m / d) in *. set (r := Zpos m mod d) in *.
  destruct (Z.compare_spec (2 * r) d) as [Heq|Hlt|Hgt].
  - destruct (Z.even q) eqn:Hev.
    + split; [lia|]. split; [nia|]. by intros _.
    + split; [lia|]. split; [nia|]. intros _.
      rewrite Z.even_add. rewrite Hev. reflexivity.
  - split; [lia|]. split; [nia|]. intros H. exfalso. nia.
  - split; [lia|]. split; [nia|]. intros H. exfalso. nia.
Qed.

Lemma nearest_even_unique v e n n' :
  e < 0 → nearest_even v e n → nearest_even v e n' → n' = n.
Proof.
  intros He [H1 E1] [H2 E2]. cbv zeta in *.
  assert (0 < 2 ^ (- e)) as Hd by (apply Z.pow_pos_nonneg; lia).
  set (d := 2 ^ (- e)) in *.
  assert (n' = n ∨ n' = n + 1 ∨ n' = n - 1) as [->|[->| ->]] by nia;
    [reflexivity| |].
  - assert (Z.abs (2 * v - 2 * n * d) = d) as T1 by nia.
    assert (Z.abs (2 * v - 2 * (n + 1) * d) = d) as T2 by nia.
    specialize (E1 T1). specialize (E2 T2).
    rewrite Z.even_add, E1 in E2. discriminate.
  - assert (Z.abs (2 * v - 2 * n * d) = d) as T1 by nia.
    assert (Z.abs (2 * v - 2 * (n - 1) * d) = d) as T2 by nia.
    specialize (E1 T1). specialize (E2 T2).
    rewrite Z.even_sub, E1 in E2. discriminate.
Qed.

Lemma nearest_even_opp v e n :
  nearest_even v e n → nearest_even (- v) e (- n).
Proof.
  unfold nearest_even. cbv zeta. intros [H E].
  replace (2 * - v - 2 * - n * 2 ^ (- e)) with (- (2 * v - 2 * n * 2 ^ (- e)))
    by ring.
  rewrite Z.abs_opp, Z.even_opp. by split.
Qed.

(** Rounding a float to an integer, ties to even. *)
Lemma f64_round_int_to_integer p r :
  to_integer p r ↔ r = f64_round_int HalfToEven p.
Proof.
  unfold to_integer, f64_round_int. destruct p as [s| | |s m e]; try reflexivity.
  destruct (Z.leb_spec 0 e) as [He|He]; [reflexivity|].
  destruct (nearest_int_even m e He) as [Hpos Hnear].
  assert (nearest_even (if s then Z.neg m else Z.pos m) e
            (if s then - nearest_int HalfToEven m e
             else nearest_int HalfToEven m e)) as Hsigned.
  { destruct s; [|assumption].
    change (Z.neg m) with (- Z.pos m). by apply nearest_even_opp. }
  assert (f64_of_int s (if s then - nearest_int HalfToEven m e
                        else nearest_int HalfToEven m e)
          = match nearest_int HalfToEven m e with
            | Z.pos q => binary_round prec emax s q 0
            | _ => S754_zero s
            end) as Hfloat.
  { destruct (nearest_int HalfToEven m e) as [|q|q]; [| |lia];
      by destruct s. }
  rewrite <- Hfloat. split.
  - intros (n & Hn & ->). f_equal.
    exact (nearest_even_unique _ _ _ _ He Hsigned Hn).
  - intros ->. eauto.
Qed.

Lemma rounded_to_tenth_iff x y :
  rounded_to_tenth x y ↔ y = f64_round HalfToEven 1 x.
Proof.
  unfold rounded_to_tenth, f64_round. split.
  - intros (r & Hr & ->). apply f64_round_int_to_integer in Hr. by subst r.
  - intros ->. eexists. split; [by apply f64_round_int_to_integer|reflexivity].
Qed.

Lemma tenths_eval c name r v :
  eval (alias name (truediv (SilverProcessor.reading c) (VInt 10))) r = Ok v →
  tenths eq (cell c r) v.
Proof.
  unfold tenths. cbn [alias truediv map_expr eval]. intros H. inv_bind H.
  apply reading_eval in Ha.
  destruct (parsed (cell c r)) as [[f|]|]; [| |contradiction]; subst a;
    simpl in H; injection H as <-; eauto.
Qed.

Lemma rounded_tenths_eval c name r v :
  eval (alias name (round HalfToEven 1
                      (truediv (SilverProcessor.reading c) (VInt 10)))) r
    = Ok v →
  tenths rounded_to_tenth (cell c r) v.
Proof.
  cbn [alias round map_expr eval]. intros H. inv_bind H.
  apply (tenths_eval c name) in Ha. unfold tenths in *.
  destruct (parsed (cell c r)) as [[f|]|]; [| |contradiction].
  - destruct Ha as (y & -> & <-). simpl in H. injection H as <-.
    eexists. split; [reflexivity|]. by apply rounded_to_tenth_iff.
  - subst a. simpl in H. by injection H as <-.
Qed.

Lemma parsed_padded pre s post :
  blank pre = true → blank post = true →
  parsed (VStr (pre +:+ s +:+ post)) = parsed (VStr s).
Proof.
  intros Hpre Hpost. unfold parsed. simpl.
  by rewrite strip_chars_padded.
Qed.

(** The rows of [process_weather], row by row. *)
Lemma process_weather_rows input output_path w df p w' :
  SilverProcessor.process_weather input output_path w = (Ok (df, p), w') →
  ∃ lf, loads scan_csv input w lf ∧
        Forall2 (λ r r', ∀ e, e ∈ SilverProcessor.weather_exprs →
                              eval e r = Ok (cell (output_name e) r'))
                (List.filter survives (rows lf)) (rows df).
Proof.
  intros H. apply process_weather_Ok in H as (lf & Hload & Hq & _).
  exists lf. split; [assumption|]. by apply weather_query_rows.
Qed.

(** A reading whose text parses to [f], rounded or not. *)
Lemma tenths_rounded_text s f y v :
  parsed (VStr s) = Some (Some f) →
  f64_round HalfToEven 1 (f64_div f (f64_of_Z 10)) = y →
  tenths rounded_to_tenth (VStr s) v ↔ v = VFloat y.
Proof.
  intros Hs Hy. unfold tenths. rewrite Hs. split.
  - intros (y' & -> & Hr). apply rounded_to_tenth_iff in Hr. congruence.
  - intros ->. exists y. split; [reflexivity|].
    by apply rounded_to_tenth_iff.
Qed.

Lemma tenths_text s f y v :
  parsed (VStr s) = Some (Some f) →
  f64_div f (f64_of_Z 10) = y →
  tenths eq (VStr s) v ↔ v = VFloat y.
Proof.
  intros Hs Hy. unfold tenths. rewrite Hs. split.
  - intros (y' & -> & <-). congruence.
  - intros ->. exists y. by split.
Qed.

(** C5.  Whenever [process_weather] returns, its rows are, in order, the
    surviving raw rows, and in each of them [temp_max_c], [temp_min_c] and
    [precipitation_mm] are the parsed "TMAX", "TMIN" and "PRCP" divided by
    ten, the temperatures then rounded to one decimal place (null stays
    null).  Rounding to one decimal place gives one result for every
    number: ten times the number is rounded to the nearest integer, the
    even one of two that are equally near, and divided by ten.  White
    space around the text, the no-break space included, does not change
    the parsed number.  Raw "250" gives 25.0 and raw "50" gives 5.0, so
    does "250" between no-break spaces; a raw "253.7" gives 25.4, which
    its unrounded tenth is not, and a raw "2.5" gives 0.2 while its
    unrounded tenth is 0.25; and so on the sample table. *)
Theorem weather_unit_conversion :
  (∀ input output_path w df p w',
     SilverProcessor.process_weather input output_path w
       = (Ok (df, p), w') →
     ∃ lf, loads scan_csv input w lf ∧
           Forall2 (λ r r',
                      tenths rounded_to_tenth (cell "TMAX" r)
                             (cell "temp_max_c" r') ∧
                      tenths rounded_to_tenth (cell "TMIN" r)
                             (cell "temp_min_c" r') ∧
                      tenths eq (cell "PRCP" r)
                             (cell "precipitation_mm" r'))
                   (List.filter survives (rows lf)) (rows df)) ∧
  (∀ x, ∃ y, rounded_to_tenth x y ∧ ∀ y', rounded_to_tenth x y' → y' = y) ∧
  (∀ pre s post, blank pre = true → blank post = true →
                 parsed (VStr (pre +:+ s +:+ post)) = parsed (VStr s)) ∧
  (blank " " = true ∧ blank nbsp = true ∧ blank "" = true ∧
   blank "2" = false) ∧
  ((∀ v, tenths rounded_to_tenth (VStr "250") v ↔ v = VFloat (f64_of_Z 25)) ∧
   (∀ v, tenths eq (VStr "50") v ↔ v = VFloat (f64_of_Z 5)) ∧
   (∀ v, tenths rounded_to_tenth (VStr (nbsp +:+ "250" +:+ nbsp)) v
         ↔ v = VFloat (f64_of_Z 25))) ∧
  ((∀ v, tenths rounded_to_tenth (VStr "253.7") v
         ↔ v = VFloat (f64_div (f64_of_Z 254) (f64_of_Z 10))) ∧
   (∀ v, tenths eq (VStr "253.7") v
         → v ≠ VFloat (f64_div (f64_of_Z 254) (f64_of_Z 10))) ∧
   (∀ v, tenths rounded_to_tenth (VStr "2.5") v
         ↔ v = VFloat (f64_div (f64_of_Z 2) (f64_of_Z 10))) ∧
   (∀ v, tenths eq (VStr "2.5") v
         ↔ v = VFloat (f64_div (f64_of_Z 25) (f64_of_Z 100)))) ∧
  (∃ df p w',
     SilverProcessor.process_weather (DataFrame Sample.raw_weather)
       Sample.weather_path Sample.empty_world = (Ok (df, p), w') ∧
     map (cell "temp_max_c") (rows df) =
       [ VFloat (f64_of_Z 25); VFloat (f64_of_Z (-5));
         VFloat (f64_div (f64_of_Z 33) (f64_of_Z 10)); VNull ] ∧
     map (cell "precipitation_mm") (rows df) =
       [ VFloat (f64_of_Z 5); VFloat (f64_of_Z 0); VNull;
         VFloat (f64_div (f64_of_Z 7) (f64_of_Z 10)) ]).
Proof.
  split; [|split; [|split; [|split; [|split; [|split]]]]].
  - intros input output_path w df p w' H.
    apply process_weather_rows in H as (lf & Hload & Hrows).
    exists lf. split; [assumption|].
    eapply Forall2_impl; [exact Hrows|]. cbv beta. intros r r' H.
    split; [|split].
    + apply (rounded_tenths_eval "TMAX" "temp_max_c").
      apply (H (SilverProcessor.temp_max_c)).
      unfold SilverProcessor.weather_exprs.
      apply list_elem_of_further, list_elem_of_here.
    + apply (rounded_tenths_eval "TMIN" "temp_min_c").
      apply (H (SilverProcessor.temp_min_c)).
      unfold SilverProcessor.weather_exprs.
      do 2 apply list_elem_of_further. apply list_elem_of_here.
    + apply (tenths_eval "PRCP" "precipitation_mm").
      apply (H SilverProcessor.precipitation_mm).
      unfold SilverProcessor.weather_exprs.
      do 3 apply list_elem_of_further. apply list_elem_of_here.
  - intros x. exists (f64_round HalfToEven 1 x).
    split; [by apply rounded_to_tenth_iff|].
    intros y' Hy'. by apply rounded_to_tenth_iff.
  - apply parsed_padded.
  - repeat split; vm_compute; reflexivity.
  - split; [|split]; intros v.
    + apply (tenths_rounded_text _ (f64_of_Z 250)); vm_compute; reflexivity.
    + apply (tenths_text _ (f64_of_Z 50)); vm_compute; reflexivity.
    + rewrite <- (tenths_rounded_text "250" (f64_of_Z 250) (f64_of_Z 25) v)
        by (vm_compute; reflexivity).
      unfold tenths. rewrite parsed_padded by (vm_compute; reflexivity).
      reflexivity.
  - split; [|split; [|split]]; intros v.
    + apply (tenths_rounded_text _ (f64_of_decimal false 2537 (-1)));
        vm_compute; reflexivity.
    + intros Hv Heq. subst v.
      apply (tenths_text "253.7" (f64_of_decimal false 2537 (-1))
               (f64_div (f64_of_decimal false 2537 (-1)) (f64_of_Z 10)))
        in Hv; [|vm_compute; reflexivity|reflexivity].
      revert Hv. vm_compute. discriminate.
    + apply (tenths_rounded_text _ (f64_of_decimal false 25 (-1)));
        vm_compute; reflexivity.
    + apply (tenths_text _ (f64_of_decimal false 25 (-1)));
        vm_compute; reflexivity.
  - assert (match (SilverProcessor.process_weather
                     (DataFrame Sample.raw_weather) Sample.weather_path
                     Sample.empty_world).1 with
            | Ok (df, _) =>
                bool_decide (map (cell "temp_max_c") (rows df) =
                  [ VFloat (f64_of_Z 25); VFloat (f64_of_Z (-5));
                    VFloat (f64_div (f64_of_Z 33) (f64_of_Z 10)); VNull ]) &&
                bool_decide (map (cell "precipitation_mm") (rows df) =
                  [ VFloat (f64_of_Z 5); VFloat (f64_of_Z 0); VNull;
                    VFloat (f64_div (f64_of_Z 7) (f64_of_Z 10)) ])
            | Err _ => false
            end = true) as Hb by (vm_compute; reflexivity).
    destruct (SilverProcessor.process_weather _ _ _) as [[[df p]|e] w'];
      [|discriminate].
    simpl in Hb. apply andb_true_iff in Hb as [H1 H2].
    apply bool_decide_eq_true_1 in H1, H2.
    exists df, p, w'. auto.
Qed.

Lemma weather_unit_conversion_witness :
  ∃ df p w',
    SilverProcessor.process_weather (DataFrame Sample.raw_weather)
      Sample.weather_path Sample.empty_world = (Ok (df, p), w') ∧
    Forall2 (λ r r', tenths rounded_to_tenth (cell "TMAX" r)
                            (cell "temp_max_c" r'))
            (List.filter survives (rows Sample.raw_weather)) (rows df).
Proof.
  destruct weather_unit_conversion
    as (Hall & _ & _ & _ & _ & _ & df & p & w' & Hrun & _).
  exists df, p, w'. split; [assumption|].
  destruct (Hall _ _ _ _ _ _ Hrun) as (lf & Hload & Hrows).
  simpl in Hload. subst lf.
  eapply Forall2_impl; [exact Hrows|]. cbv beta. tauto.
Defined.

(** ** Fog *)

(** The value of a weather-type flag compared with 1. *)
Lemma is_one_text s :
  is_one (VStr s) = match parse_int (strip_chars s) with
                    | Some z => z =? 1
                    | None => false
                    end.
Proof.
  unfold is_one. cbn [cast_string_v].
  destruct (parse_int (strip_chars s)) as [z|];
    [|by apply bool_decide_eq_false_2].
  destruct (Z.eqb_spec z 1) as [->|Hne].
  - by apply bool_decide_eq_true_2.
  - apply bool_decide_eq_false_2. congruence.
Qed.

Lemma flag_is_one_eval c r v :
  eval (eq_lit (SilverProcessor.flag c) (VInt 1)) r = Ok v →
  (v = VNull ∨ v = VBool (is_one (cell c r))) ∧
  (v = VNull → is_one (cell c r) = false).
Proof.
  unfold SilverProcessor.flag, is_one.
  cbn [eq_lit cast_int32 str_strip_chars cast_string col map_expr eval
       mbind result_mbind result_bind].
  destruct (cast_string_v (cell c r)) as [[|b|z|f|s|d|l|z]|e];
    try (cbn; discriminate).
  - cbn. intros [= <-]. auto.
  - pose proof (is_one_text s) as Hs. unfold is_one in Hs.
    cbn [cast_string_v] in Hs. rewrite Hs. clear Hs. cbn.
    destruct (parse_int (strip_chars s)) as [z|]; cbn.
    + destruct (in_int32 z) eqn:Hr; cbn.
      * intros [= <-].
        destruct (Z.compare_spec z 1) as [->|Hlt|Hgt].
        -- split; [by right|discriminate].
        -- rewrite (proj2 (Z.eqb_neq z 1)) by lia. split; [by right|auto].
        -- rewrite (proj2 (Z.eqb_neq z 1)) by lia. split; [by right|auto].
      * intros [= <-]. split; [by left|]. intros _.
        apply Z.eqb_neq. intros ->. discriminate.
    + intros [= <-]. auto.
Qed.

Lemma cast_string_plain v :
  plain v → cast_string_v v = Ok VNull ∨ ∃ s, cast_string_v v = Ok (VStr s).
Proof. destruct v; simpl; try contradiction; eauto. Qed.

Lemma flag_is_one_plain c r :
  plain (cell c r) →
  ∃ v, eval (eq_lit (SilverProcessor.flag c) (VInt 1)) r = Ok v ∧
       (v = VNull ∨ ∃ b, v = VBool b).
Proof.
  unfold SilverProcessor.flag.
  cbn [eq_lit cast_int32 str_strip_chars cast_string col map_expr eval
       mbind result_mbind result_bind].
  intros Hp. destruct (cast_string_plain _ Hp) as [->|[s ->]]; cbn.
  - eauto.
  - destruct (parse_int (strip_chars s)) as [z|]; cbn; [|eauto].
    destruct (in_int32 z); cbn; [|eauto].
    destruct (z ?= 1); eauto.
Qed.

Lemma is_foggy_eval r v :
  eval SilverProcessor.is_foggy r = Ok v →
  v = VBool (is_one (cell "WT01" r) || is_one (cell "WT02" r)).
Proof.
  unfold SilverProcessor.is_foggy.
  cbn [alias fill_null any_horizontal map_expr map2_expr eval].
  intros H. inv_bind H. do 2 inv_bind Ha.
  apply flag_is_one_eval in Ha0 as [Hv1 Hn1].
  apply flag_is_one_eval in Ha1 as [Hv2 Hn2].
  destruct Hv1 as [->| ->], Hv2 as [->| ->];
    try specialize (Hn1 eq_refl); try specialize (Hn2 eq_refl);
    destruct (is_one (cell "WT01" r)), (is_one (cell "WT02" r));
    try discriminate;
    simpl in Ha; injection Ha as <-; simpl in H; by injection H as <-.
Qed.

Lemma is_foggy_total r :
  plain (cell "WT01" r) → plain (cell "WT02" r) →
  eval SilverProcessor.is_foggy r
    = Ok (VBool (is_one (cell "WT01" r) || is_one (cell "WT02" r))).
Proof.
  intros H1 H2.
  assert (∃ v, eval SilverProcessor.is_foggy r = Ok v) as [v Hv].
  { unfold SilverProcessor.is_foggy.
    cbn [alias fill_null any_horizontal map_expr map2_expr eval].
    destruct (flag_is_one_plain "WT01" r H1) as (v1 & -> & Hv1).
    destruct (flag_is_one_plain "WT02" r H2) as (v2 & -> & Hv2).
    destruct Hv1 as [->|[[] ->]], Hv2 as [->|[[] ->]]; simpl; eauto. }
  rewrite Hv. f_equal. by apply is_foggy_eval.
Qed.

(** C6.  Whenever [process_weather] returns, its rows are, in order, the
    surviving raw rows, and [is_foggy] is true exactly when "WT01" or
    "WT02" parses to 1.  On a row whose two flags are texts, integers,
    Booleans or null the fog expression has a value, whatever the texts
    are; a flag that is null or whose trimmed text is no integer counts
    as not 1.  White space around the text of a flag, the no-break space
    included, does not count.  The flags 1/0 and 0/1 give true, 0/0 gives
    false, and so does an unparseable flag next to a missing one. *)
Theorem fog_or_logic :
  (∀ input output_path w df p w',
     SilverProcessor.process_weather input output_path w
       = (Ok (df, p), w') →
     ∃ lf, loads scan_csv input w lf ∧
           Forall2 (λ r r', cell "is_foggy" r' =
                              VBool (is_one (cell "WT01" r) ||
                                     is_one (cell "WT02" r)))
                   (List.filter survives (rows lf)) (rows df)) ∧
  (∀ r, plain (cell "WT01" r) → plain (cell "WT02" r) →
        eval SilverProcessor.is_foggy r
          = Ok (VBool (is_one (cell "WT01" r) || is_one (cell "WT02" r)))) ∧
  (is_one VNull = false ∧
   (∀ s, parse_int (strip_chars s) = None → is_one (VStr s) = false) ∧
   (∀ pre s post, blank pre = true → blank post = true →
                  is_one (VStr (pre +:+ s +:+ post)) = is_one (VStr s))) ∧
  (is_one (VStr "1") = true ∧ is_one (VStr "0") = false ∧
   is_one (VStr "n/a") = false ∧ is_one (VStr "") = false ∧
   is_one (VStr " 1 ") = true ∧
   is_one (VStr (nbsp +:+ "1")) = true ∧
   is_one (VInt 1) = true ∧ is_one (VInt 2) = false ∧
   is_one (VBool true) = false) ∧
  (∃ df p w',
     SilverProcessor.process_weather (DataFrame Sample.raw_weather)
       Sample.weather_path Sample.empty_world = (Ok (df, p), w') ∧
     map (λ r, (cell "WT01" r, cell "WT02" r))
         (List.filter survives (rows Sample.raw_weather)) =
       [ (VStr "1", VStr "0"); (VStr "0", VStr "1"); (VStr "0", VStr "0");
         (VStr "n/a", VNull) ] ∧
     map (cell "is_foggy") (rows df) =
       [ VBool true; VBool true; VBool false; VBool false ]).
Proof.
  split; [|split; [|split; [|split]]].
  - intros input output_path w df p w' H.
    apply process_weather_rows in H as (lf & Hload & Hrows).
    exists lf. split; [assumption|].
    eapply Forall2_impl; [exact Hrows|]. cbv beta. intros r r' H.
    apply is_foggy_eval. apply (H SilverProcessor.is_foggy).
    unfold SilverProcessor.weather_exprs.
    do 5 apply list_elem_of_further. apply list_elem_of_here.
  - apply is_foggy_total.
  - split; [reflexivity|]. split.
    + intros s Hs. unfold is_one. simpl. rewrite Hs.
      by apply bool_decide_eq_false_2.
    + intros pre s post Hpre Hpost. unfold is_one. simpl.
      by rewrite strip_chars_padded.
  - repeat split; vm_compute; reflexivity.
  - assert (match (SilverProcessor.process_weather
                     (DataFrame Sample.raw_weather) Sample.weather_path
                     Sample.empty_world).1 with
            | Ok (df, _) =>
                bool_decide (map (cell "is_foggy") (rows df) =
                  [ VBool true; VBool true; VBool false; VBool false ])
            | Err _ => false
            end = true) as Hb by (vm_compute; reflexivity).
    destruct (SilverProcessor.process_weather _ _ _) as [[[df p]|e] w'];
      [|discriminate].
    simpl in Hb. apply bool_decide_eq_true_1 in Hb.
    exists df, p, w'. split; [reflexivity|]. split; [|assumption].
    vm_compute. reflexivity.
Qed.

Lemma fog_or_logic_witness :
  ∃ df p w',
    SilverProcessor.process_weather (DataFrame Sample.raw_weather)
      Sample.weather_path Sample.empty_world = (Ok (df, p), w') ∧
    Forall2 (λ r r', cell "is_foggy" r' =
                       VBool (is_one (cell "WT01" r) || is_one (cell "WT02" r)))
            (List.filter survives (rows Sample.raw_weather)) (rows df).
Proof.
  destruct fog_or_logic
    as (Hall & _ & _ & _ & df & p & w' & Hrun & _).
  exists df, p, w'. split; [assumption|].
  destruct (Hall _ _ _ _ _ _ Hrun) as (lf & Hload & Hrows).
  simpl in Hload. subst lf. exact Hrows.
Defined.

(** ** The quality check *)

Lemma null_count_pos col df :
  0 < null_count col df ↔ ∃ r, r ∈ rows df ∧ is_null (cell col r) = true.
Proof.
  unfold null_count.
  destruct (filter (λ r, is_null (cell col r) = true) (rows df))
    as [|r l] eqn:Hf.
  - split; [simpl; lia|]. intros (r & Hr & Hn).
    assert (r ∈ filter (λ r, is_null (cell col r) = true) (rows df)) as Hin
      by (apply list_elem_of_filter; auto).
    rewrite Hf in Hin. inversion Hin.
  - split; [|simpl; lia]. intros _. exists r.
    assert (r ∈ filter (λ r, is_null (cell col r) = true) (rows df)) as Hin
      by (rewrite Hf; left).
    apply list_elem_of_filter in Hin as [Hn Hr]. auto.
Qed.

(** A critical column adds at most one record, a warning, and only for a
    suspicious column; it never raises. *)
Lemma check_critical_Ok df name c w :
  ∃ w' extra, check_critical df name c w = (Ok tt, w') ∧ logged w w' extra ∧
              Forall (λ x, x.1 = WARNING) extra ∧
              (suspicious df c ↔ extra ≠ []).
Proof.
  unfold check_critical, suspicious, logged. case_bool_decide as Hc.
  - eexists _, [_]. split; [reflexivity|].
    split; [split; reflexivity|]. split; [by repeat constructor|].
    split; [discriminate|]. intros _. by left.
  - destruct (Z.ltb_spec 0 (null_count c df)) as [Hn|Hn].
    + eexists _, [_]. split; [reflexivity|].
      split; [split; reflexivity|]. split; [by repeat constructor|].
      split; [discriminate|]. intros _. right. by apply null_count_pos.
    + exists w, []. split; [reflexivity|]. rewrite app_nil_r.
      split; [split; reflexivity|]. split; [constructor|].
      split; [|congruence].
      intros [Hm|Hr]; [contradiction|]. apply null_count_pos in Hr. lia.
Qed.

Lemma for_each_check_critical df name cs w :
  ∃ w' extra, for_each (check_critical df name) cs w = (Ok tt, w') ∧
              logged w w' extra ∧
              Forall (λ x, x.1 = WARNING) extra ∧
              ((∃ c, c ∈ cs ∧ suspicious df c) ↔ extra ≠ []).
Proof.
  revert w. induction cs as [|c cs IH]; intros w; simpl.
  - exists w, []. split; [reflexivity|]. unfold logged. rewrite app_nil_r.
    split; [split; reflexivity|]. split; [constructor|].
    split; [|congruence]. intros (c & Hc & _). inversion Hc.
  - destruct (check_critical_Ok df name c w)
      as (w1 & e1 & Hrun1 & [Hf1 Hl1] & Hw1 & Hs1).
    destruct (IH w1) as (w2 & e2 & Hrun2 & [Hf2 Hl2] & Hw2 & Hs2).
    exists w2, (e1 ++ e2). unfold io_bind. rewrite Hrun1, Hrun2.
    split; [reflexivity|]. split; [|split].
    + split; [congruence|]. rewrite Hl2, Hl1. by rewrite app_assoc.
    + by apply Forall_app.
    + split.
      * intros (c' & Hc' & Hs). apply elem_of_cons in Hc' as [->|Hc'].
        -- apply Hs1 in Hs. by destruct e1.
        -- assert (e2 ≠ []) by (apply Hs2; eauto).
           destruct e1; [assumption|discriminate].
      * intros Hne. destruct e1 as [|x e1].
        -- destruct (proj2 Hs2 Hne) as (c' & Hc' & Hs).
           exists c'. split; [by right|assumption].
        -- exists c. split; [left|]. apply Hs1. discriminate.
Qed.

(** The two outcomes of [validate_dataframe]. *)
Lemma validate_dataframe_empty df name critical_cols w :
  height df = 0%nat →
  ∃ msg w', validate_dataframe df name critical_cols w
              = (Err (ValueError msg), w') ∧
            files w' = files w.
Proof.
  intros H. unfold validate_dataframe.
  eexists _, _. unfold mbind, io_mbind, io_bind. cbn [log_msg].
  rewrite bool_decide_eq_true_2 by assumption. split; reflexivity.
Qed.

Lemma validate_dataframe_Ok df name critical_cols w :
  height df ≠ 0%nat →
  ∃ w' start warnings passed,
    validate_dataframe df name critical_cols w = (Ok tt, w') ∧
    logged w w' ([(INFO, start)] ++ warnings ++ [(INFO, passed)]) ∧
    Forall (λ x, x.1 = WARNING) warnings ∧
    ((∃ c, c ∈ default [] critical_cols ∧ suspicious df c) ↔ warnings ≠ []).
Proof.
  intros H. unfold validate_dataframe.
  unfold mbind, io_mbind, io_bind. cbn [log_msg].
  rewrite bool_decide_eq_false_2 by assumption. cbn [mret io_mret io_ret].
  set (w0 := {| files := files w; logs := _ |}).
  assert (∀ (m : io unit) w1 warnings,
            m w0 = (Ok tt, w1) → logged w0 w1 warnings →
            ∃ w' start passed,
              match m w0 with
              | (Ok _, w2) =>
                  log_msg INFO
                    ("DQ Check passed for '" +:+ name +:+ "'. Rows: " +:+
                     int_to_string (Z.of_nat (height df))) w2
              | (Err e, w2) => (Err e, w2)
              end = (Ok tt, w') ∧
              logged w w' ([(INFO, start)] ++ warnings ++ [(INFO, passed)]))
    as Hend.
  { intros m w1 warnings Hrun [Hf Hl]. rewrite Hrun.
    eexists _, _, _. split; [reflexivity|]. split; simpl.
    - exact Hf.
    - rewrite Hl. subst w0. simpl. by rewrite <- !app_assoc. }
  destruct critical_cols as [[|c cs]|].
  - destruct (Hend (io_ret tt) w0 []) as (w' & start & passed & Hrun & Hlog);
      [reflexivity|split; [reflexivity|by rewrite app_nil_r]|].
    exists w', start, [], passed. split; [exact Hrun|]. split; [exact Hlog|].
    split; [constructor|]. split; [|congruence].
    intros (c & Hc & _). inversion Hc.
  - destruct (for_each_check_critical df name (c :: cs) w0)
      as (w1 & warnings & Hrun1 & Hlog1 & Hw & Hs).
    destruct (Hend _ w1 warnings Hrun1 Hlog1)
      as (w' & start & passed & Hrun & Hlog).
    exists w', start, warnings, passed. auto.
  - destruct (Hend (io_ret tt) w0 []) as (w' & start & passed & Hrun & Hlog);
      [reflexivity|split; [reflexivity|by rewrite app_nil_r]|].
    exists w', start, [], passed. split; [exact Hrun|]. split; [exact Hlog|].
    split; [constructor|]. split; [|congruence].
    intros (c & Hc & _). inversion Hc.
Qed.

(** C8.  [validate_dataframe] raises exactly when the table has no rows,
    and then a [ValueError].  On a table with rows it returns, whatever
    the critical columns are: it leaves the files alone and adds to the
    log its two information records and, between them, warnings only, at
    least one exactly when a critical column is missing or holds a null.
    The table is an argument that is only read. *)
Theorem validate_dataframe_soft df name critical_cols w :
  ((∃ e w', validate_dataframe df name critical_cols w = (Err e, w'))
   ↔ height df = 0%nat) ∧
  (height df = 0%nat →
   ∃ msg w', validate_dataframe df name critical_cols w
               = (Err (ValueError msg), w') ∧ files w' = files w) ∧
  (height df ≠ 0%nat →
   ∃ w' start warnings passed,
     validate_dataframe df name critical_cols w = (Ok tt, w') ∧
     logged w w' ([(INFO, start)] ++ warnings ++ [(INFO, passed)]) ∧
     Forall (λ x, x.1 = WARNING) warnings ∧
     ((∃ c, c ∈ default [] critical_cols ∧ suspicious df c)
      ↔ warnings ≠ [])).
Proof.
  split; [|split].
  - split.
    + intros (e & w' & He). destruct (decide (height df = 0%nat)) as [|Hne];
        [assumption|].
      destruct (validate_dataframe_Ok df name critical_cols w Hne)
        as (w1 & ? & ? & ? & Hrun & _).
      rewrite Hrun in He. discriminate.
    + intros H.
      destruct (validate_dataframe_empty df name critical_cols w H)
        as (msg & w' & Hrun & _). eauto.
  - apply validate_dataframe_empty.
  - apply validate_dataframe_Ok.
Qed.

Lemma validate_dataframe_soft_witness :
  (∃ msg w', validate_dataframe (Frame ["CRASH DATE"] []) "Collisions Bronze"
               (Some ["CRASH DATE"]) Sample.empty_world
             = (Err (ValueError msg), w')) ∧
  (∃ w', validate_dataframe Sample.raw_collisions "Collisions Bronze"
           (Some ["CRASH DATE"]) Sample.empty_world = (Ok tt, w') ∧
         files w' = files Sample.empty_world).
Proof.
  split.
  - destruct (validate_dataframe_soft (Frame ["CRASH DATE"] [])
                "Collisions Bronze" (Some ["CRASH DATE"]) Sample.empty_world)
      as (_ & Hempty & _).
    destruct (Hempty eq_refl) as (msg & w' & Hrun & _). eauto.
  - destruct (validate_dataframe_soft Sample.raw_collisions
                "Collisions Bronze" (Some ["CRASH DATE"]) Sample.empty_world)
      as (_ & _ & Hrows).
    destruct Hrows as (w' & start & warnings & passed & Hrun & [Hf _] & _);
      [discriminate|].
    eauto.
Defined.

(** ** The download session *)

(** The retry loop: it sends the same request again and again, at most
    [budget] times after the first, only after an answer that must be
    retried with the retries then left, and ends with the first answer
    that must not, or fails when the budget is used up. *)
Lemma urlopen_spec budget r req server n :
  let x := Requests.urlopen budget r req server n in
  let retry left a :=
    Requests.is_retry (Requests.new r left) (Requests.method req)
                      (Requests.status a) (Requests.retry_after a) in
  (1 ≤ length (Requests.sent x) ≤ S budget)%nat ∧
  Forall (λ q, q = req) (Requests.sent x) ∧
  (∀ i, (S i < length (Requests.sent x))%nat →
        retry (budget - i)%nat (server (n + i)%nat) = true) ∧
  match Requests.outcome x with
  | Ok a =>
      a = server (n + length (Requests.sent x) - 1)%nat ∧
      retry (S budget - length (Requests.sent x))%nat a = false
  | Err _ =>
      length (Requests.sent x) = S budget ∧
      retry 0%nat (server (n + budget)%nat) = true
  end.
Proof.
  revert n. induction budget as [|budget IH]; intros n; cbn zeta;
    cbn [Requests.urlopen];
    destruct (Requests.is_retry _ (Requests.method req)
                (Requests.status (server n))
                (Requests.retry_after (server n))) eqn:Hr;
    cbn [Requests.sent Requests.outcome length].
  - split; [lia|]. split; [by repeat constructor|]. split; [intros; lia|].
    split; [reflexivity|]. by rewrite Nat.add_0_r.
  - split; [lia|]. split; [by repeat constructor|]. split; [intros; lia|].
    replace (n + 1 - 1)%nat with n by lia. auto.
  - destruct (IH (S n)) as (Hlen & Hall & Hretry & Hout). cbn zeta in *.
    split; [lia|]. split; [by constructor|]. split.
    + intros [|i] Hi.
      * by rewrite Nat.add_0_r, Nat.sub_0_r.
      * replace (n + S i)%nat with (S n + i)%nat by lia.
        replace (S budget - S i)%nat with (budget - i)%nat by lia.
        apply Hretry. lia.
    + destruct (Requests.outcome _) as [a|e].
      * destruct Hout as [-> Hno]. split; [f_equal; lia|].
        replace (S (S budget) - S (length (Requests.sent
                   (Requests.urlopen budget r req server (S n)))))%nat
          with (S budget - length (Requests.sent
                   (Requests.urlopen budget r req server (S n))))%nat by lia.
        assumption.
      * destruct Hout as [-> Hlast]. split; [reflexivity|].
        by replace (n + S budget)%nat with (S n + budget)%nat by lia.
  - split; [lia|]. split; [by repeat constructor|]. split; [intros; lia|].
    replace (n + 1 - 1)%nat with n by lia. auto.
Qed.

Lemma setup_session_adapters :
  Requests.adapters setup_session
    = [ ("http://", Requests.MkHTTPAdapter retry_strategy);
        ("https://", Requests.MkHTTPAdapter retry_strategy) ].
Proof. vm_compute. reflexivity. Qed.

Lemma setup_session_adapter u :
  web_url u →
  Requests.get_adapter setup_session u
    = Some (Requests.MkHTTPAdapter retry_strategy).
Proof.
  unfold Requests.get_adapter. rewrite setup_session_adapters.
  intros Hu.
  destruct (decide (Requests.is_prefix "http://" u = true)) as [H1|H1].
  - rewrite filter_cons_True by exact H1. reflexivity.
  - rewrite filter_cons_False by exact H1.
    destruct (decide (Requests.is_prefix "https://" u = true)) as [H2|H2].
    + rewrite filter_cons_True by exact H2. reflexivity.
    + destruct Hu; contradiction.
Qed.

Lemma setup_session_header :
  Requests.headers setup_session !! "User-Agent" = Some "NYCCollisionETL/1.0".
Proof. vm_compute. reflexivity. Qed.

Lemma upper_ascii_idem a :
  Requests.upper_ascii (Requests.upper_ascii a) = Requests.upper_ascii a.
Proof. destruct a as [[] [] [] [] [] [] [] []]; reflexivity. Qed.

Lemma upper_idem s : Requests.upper (Requests.upper s) = Requests.upper s.
Proof.
  induction s as [|a s IH]; [reflexivity|].
  cbn [Requests.upper]. by rewrite upper_ascii_idem, IH.
Qed.

(** The retry decision of the pipeline's strategy, on a request as the
    session sends it. *)
Lemma retry_strategy_retried m left a :
  Requests.is_retry (Requests.new retry_strategy left) (Requests.upper m)
                    (Requests.status a) (Requests.retry_after a)
  = retried_method m && retried left a.
Proof.
  unfold Requests.is_retry, Requests.is_method_retryable, retried_method, retried.
  rewrite upper_idem. reflexivity.
Qed.

(** C7, as the code has it.  The session of [setup_session] sends every
    request to a web address through an adapter with the retry strategy
    of the code: three retries, backoff factor 1.  The statuses it
    forces a retry on are server errors and the methods it retries are
    idempotent.  A request goes out at least once and at most four
    times, with its method in upper case and the User-Agent header of
    the pipeline, and it goes out again only after an answer that is
    retried: the method is HEAD, GET or OPTIONS and the status is 500,
    502, 503 or 504, or retries are left and the answer has a Retry-After
    header with status 413, 429 or 503.  The call returns the first
    answer that is not retried, or fails after the fourth.  When the
    server always gives the same status without Retry-After header, the
    request goes out four times and the call fails if the method is one
    of the three and the status one of the four, and otherwise it goes
    out once and the call returns that status. *)
Theorem setup_session_retry :
  (Requests.total retry_strategy = 3%nat ∧
   Requests.backoff_factor retry_strategy = 1) ∧
  (∀ status, status ∈ Requests.status_forcelist retry_strategy →
             is_5xx status = true) ∧
  (∀ m, m ∈ Requests.allowed_methods retry_strategy →
        m ∈ Requests.idempotent_methods) ∧
  (∀ m u server, web_url u →
     let x := Requests.request setup_session m u server in
     (1 ≤ length (Requests.sent x) ≤ 4)%nat ∧
     Forall (λ req, Requests.method req = Requests.upper m ∧
                    Requests.url req = u ∧ identified req) (Requests.sent x) ∧
     (∀ i, (S i < length (Requests.sent x))%nat →
           retried_method m = true ∧ retried (3 - i)%nat (server i) = true) ∧
     match Requests.outcome x with
     | Ok a =>
         a = server (length (Requests.sent x) - 1)%nat ∧
         (retried_method m = false ∨
          retried (4 - length (Requests.sent x))%nat a = false)
     | Err _ =>
         length (Requests.sent x) = 4%nat ∧
         retried_method m = true ∧ retried 0%nat (server 3%nat) = true
     end) ∧
  (∀ m u status, web_url u →
     let x := Requests.request setup_session m u
                (λ _, Requests.MkResponse status false) in
     if retried_method m && bool_decide (status ∈ [500; 502; 503; 504])
     then length (Requests.sent x) = 4%nat ∧
          ∃ e, Requests.outcome x = Err e
     else length (Requests.sent x) = 1%nat ∧
          Requests.outcome x = Ok (Requests.MkResponse status false)).
Proof.
  assert (∀ m u server, web_url u →
     let x := Requests.request setup_session m u server in
     (1 ≤ length (Requests.sent x) ≤ 4)%nat ∧
     Forall (λ req, Requests.method req = Requests.upper m ∧
                    Requests.url req = u ∧ identified req) (Requests.sent x) ∧
     (∀ i, (S i < length (Requests.sent x))%nat →
           retried_method m = true ∧ retried (3 - i)%nat (server i) = true) ∧
     match Requests.outcome x with
     | Ok a =>
         a = server (length (Requests.sent x) - 1)%nat ∧
         (retried_method m = false ∨
          retried (4 - length (Requests.sent x))%nat a = false)
     | Err _ =>
         length (Requests.sent x) = 4%nat ∧
         retried_method m = true ∧ retried 0%nat (server 3%nat) = true
     end) as Hgen.
  { intros m u server Hu. unfold Requests.request.
    rewrite (setup_session_adapter u Hu). cbn zeta.
    change (Requests.max_retries (Requests.MkHTTPAdapter retry_strategy))
      with retry_strategy.
    change (Requests.total retry_strategy) with 3%nat.
    set (req := Requests.MkRequest (Requests.upper m) u
                  (Requests.headers setup_session)).
    destruct (urlopen_spec 3 retry_strategy req server 0)
      as (Hlen & Hall & Hretry & Hout). cbn zeta in *.
    change (Requests.method req) with (Requests.upper m) in *.
    split; [exact Hlen|]. split; [|split].
    - eapply Forall_impl; [exact Hall|]. intros q ->.
      split; [reflexivity|]. split; [reflexivity|]. apply setup_session_header.
    - intros i Hi. specialize (Hretry i Hi).
      rewrite retry_strategy_retried in Hretry.
      by apply andb_true_iff in Hretry.
    - destruct (Requests.outcome _) as [a|e].
      + destruct Hout as [-> Hno]. split; [reflexivity|].
        rewrite retry_strategy_retried in Hno.
        by apply andb_false_iff in Hno.
      + destruct Hout as [-> Hlast]. split; [reflexivity|].
        rewrite retry_strategy_retried in Hlast.
        by apply andb_true_iff in Hlast. }
  split; [split; reflexivity|]. split; [|split; [|split; [exact Hgen|]]].
  - intros status H. cbn in H.
    repeat (apply elem_of_cons in H as [->|H]); [reflexivity..|inversion H].
  - intros m H. cbn in H.
    repeat (apply elem_of_cons in H as [->|H]); [compute_done..|inversion H].
  - intros m u status Hu. cbn zeta.
    destruct (Hgen m u (λ _, Requests.MkResponse status false) Hu)
      as (Hlen & _ & Hretry & Hout). cbn zeta in *.
    assert (∀ left, retried left (Requests.MkResponse status false)
                    = bool_decide (status ∈ [500; 502; 503; 504])) as Hsame.
    { intros left. unfold retried. cbn [Requests.status Requests.retry_after].
      by rewrite andb_false_r, orb_false_r. }
    destruct (retried_method m && bool_decide (status ∈ [500; 502; 503; 504]))
      eqn:Hb.
    + destruct (Requests.outcome _) as [a|e].
      * destruct Hout as [-> Hno]. rewrite Hsame in Hno.
        apply andb_true_iff in Hb as [Hm Hs].
        destruct Hno; congruence.
      * destruct Hout as [-> _]. eauto.
    + assert (length (Requests.sent (Requests.request setup_session m u
                (λ _, Requests.MkResponse status false))) = 1%nat) as Hone.
      { destruct (length _) as [|[|k]] eqn:Hk; [lia|reflexivity|].
        destruct (Hretry 0%nat) as [Hm Hs]; [lia|].
        rewrite Hsame in Hs. rewrite Hm, Hs in Hb. discriminate. }
      split; [assumption|].
      destruct (Requests.outcome _) as [a|e].
      * by destruct Hout as [-> _].
      * destruct Hout as [Hfour _]. congruence.
Qed.

Lemma setup_session_retry_witness :
  web_url Sample.url ∧
  length (Requests.sent (Requests.get setup_session Sample.url
                           Sample.server_flaky)) = 3%nat ∧
  Requests.outcome (Requests.get setup_session Sample.url Sample.server_flaky)
    = Ok (Sample.answer 200) ∧
  Forall identified
    (Requests.sent (Requests.get setup_session Sample.url Sample.server_flaky)).
Proof.
  assert (web_url Sample.url) as Hu by (left; reflexivity).
  split; [exact Hu|]. split; [reflexivity|]. split; [reflexivity|].
  destruct setup_session_retry as (_ & _ & _ & Hreq & _).
  destruct (Hreq "GET" Sample.url Sample.server_flaky Hu) as (_ & Hall & _).
  eapply Forall_impl; [exact Hall|]. cbv beta. tauto.
Defined.

(** C7, as the claim has it, fails.  501 is a server error, and the
    session returns it after a single request; 429 is no server error,
    and with a Retry-After header the session asks again, three times;
    and when the server keeps answering 503 the request goes out four
    times, not three. *)
Lemma setup_session_501_counterexample :
  (is_5xx 501 = true ∧
   length (Requests.sent (Requests.get setup_session Sample.url
                            Sample.server_501)) = 1%nat ∧
   Requests.outcome (Requests.get setup_session Sample.url Sample.server_501)
     = Ok (Sample.answer 501)) ∧
  (is_5xx 429 = false ∧
   length (Requests.sent (Requests.get setup_session Sample.url
                            Sample.server_busy)) = 4%nat) ∧
  length (Requests.sent (Requests.get setup_session Sample.url
                           Sample.server_down)) = 4%nat.
Proof. repeat split; vm_compute; reflexivity. Qed.

(** ** The file tree *)

Lemma elem_of_inits (q' q : list string) : q' ∈ inits q ↔ q' `prefix_of` q.
Proof.
  revert q'. induction q as [|a q IH]; intros q'; simpl.
  - rewrite list_elem_of_singleton. split.
    + intros ->. reflexivity.
    + intros [k Hk]. symmetry in Hk. by apply app_eq_nil in Hk as [-> _].
  - rewrite elem_of_cons. split.
    + intros [->|H]; [apply prefix_nil|].
      apply list_elem_of_fmap in H as (x & -> & Hx). apply IH in Hx.
      by apply prefix_cons.
    + destruct q' as [|b q']; [by left|]. intros H. right.
      pose proof (prefix_cons_inv_1 _ _ _ _ H) as ->.
      apply prefix_cons_inv_2 in H.
      apply list_elem_of_fmap. exists q'. split; [reflexivity|by apply IH].
Qed.

Lemma is_dir_node_Some n : is_dir_node n = true → n = Some Dir.
Proof. by destruct n as [[]|]. Qed.

Lemma tree_above fs q n q' :
  tree fs → fs !! q = Some n → q' `prefix_of` q → q' ≠ q → fs !! q' = Some Dir.
Proof.
  intros Ht Hq Hp Hne. specialize (Ht q n Hq). simpl in Ht.
  rewrite Forall_forall in Ht. apply elem_of_inits in Hp.
  destruct (Ht q' Hp) as [?|H]; [contradiction|]. by apply is_dir_node_Some.
Qed.

Lemma lookup_mkdirs (fs : gmap (list string) node) (l : list (list string)) q :
  foldr (λ q acc, <[q := Dir]> acc) fs l !! q
  = if bool_decide (q ∈ l) then Some Dir else fs !! q.
Proof.
  induction l as [|a l IH]; simpl; [reflexivity|].
  destruct (decide (a = q)) as [->|Hne].
  - rewrite lookup_insert_eq. rewrite bool_decide_eq_true_2; [reflexivity|left].
  - rewrite lookup_insert_ne by assumption. rewrite IH.
    destruct (decide (q ∈ l)).
    + rewrite !bool_decide_eq_true_2; [reflexivity|by right|assumption].
    + rewrite !bool_decide_eq_false_2; [reflexivity| |assumption].
      intros H. apply elem_of_cons in H as [->|]; contradiction.
Qed.






(** ** Partitioned writes *)





















(** ** Directories: creating and clearing *)

Lemma clear_way_existsb fs p :
  clear_way fs p ↔ existsb (λ q, is_file_node (fs !! q)) (inits p) = false.
Proof.
  unfold clear_way. split.
  - intros H. destruct (existsb _ _) eqn:He; [|reflexivity].
    apply existsb_exists in He as (q & Hq & Hf).
    apply list_elem_of_In, elem_of_inits in Hq. by rewrite (H q Hq) in Hf.
  - intros He q Hq. destruct (is_file_node (fs !! q)) eqn:Hf; [|reflexivity].
    assert (existsb (λ q, is_file_node (fs !! q)) (inits p) = true) as Ht.
    { apply existsb_exists. exists q. split; [|assumption].
      by apply list_elem_of_In, elem_of_inits. }
    congruence.
Qed.

Lemma clear_way_dec fs p : clear_way fs p ∨ ¬ clear_way fs p.
Proof.
  destruct (existsb (λ q, is_file_node (fs !! q)) (inits p)) eqn:He.
  - right. intros H. apply clear_way_existsb in H. congruence.
  - left. by apply clear_way_existsb.
Qed.

(** [mkdir] succeeds exactly when the way is clear, and then adds the
    directories of the path; otherwise it changes nothing. *)
Lemma mkdir_clear p w :
  clear_way (files w) p →
  mkdir p w = (Ok tt, MkWorld (foldr (λ q acc, <[q := Dir]> acc) (files w)
                                     (inits p)) (logs w)).
Proof.
  intros H. unfold mkdir, get_files, put_files, mbind, io_mbind, io_bind.
  rewrite (H p) by reflexivity.
  apply clear_way_existsb in H. by rewrite H.
Qed.

Lemma mkdir_blocked p w :
  ¬ clear_way (files w) p →
  mkdir p w = (Err (if is_file_node (files w !! p)
                    then FileExistsError else NotADirectoryError), w).
Proof.
  intros H. unfold mkdir, get_files, put_files, mbind, io_mbind, io_bind, raise.
  destruct (is_file_node (files w !! p)); [reflexivity|].
  destruct (existsb _ _) eqn:He; [reflexivity|].
  by apply clear_way_existsb in He.
Qed.

Lemma mkdir_grown p w a w' :
  mkdir p w = (Ok a, w') →
  clear_way (files w) p ∧ grown [p] (files w) (files w') ∧
  (∀ q, q `prefix_of` p → files w' !! q = Some Dir) ∧ logs w' = logs w.
Proof.
  intros H. destruct (clear_way_dec (files w) p) as [Hc|Hc];
    [|rewrite (mkdir_blocked _ _ Hc) in H; discriminate].
  rewrite (mkdir_clear _ _ Hc) in H. injection H as _ <-. simpl.
  split; [assumption|]. split; [|split; [|reflexivity]].
  - intros q. rewrite lookup_mkdirs. case_bool_decide as Hq; [|by left].
    apply elem_of_inits in Hq. specialize (Hc q Hq).
    destruct (files w !! q) as [[|c]|] eqn:Hl; [by left|discriminate|].
    right. split; [reflexivity|]. split; [reflexivity|].
    exists p. split; [left|assumption].
  - intros q Hq. rewrite lookup_mkdirs.
    rewrite bool_decide_eq_true_2; [reflexivity|by apply elem_of_inits].
Qed.

Lemma grown_file ps fs fs' q :
  grown ps fs fs' → is_file_node (fs' !! q) = is_file_node (fs !! q).
Proof.
  intros H. destruct (H q) as [->|(-> & -> & _)]; reflexivity.
Qed.

Lemma grown_clear_way ps fs fs' p :
  grown ps fs fs' → clear_way fs' p ↔ clear_way fs p.
Proof.
  intros H. unfold clear_way.
  split; intros Hc q Hq; specialize (Hc q Hq);
    by rewrite (grown_file _ _ _ q H) in *.
Qed.

Lemma grown_dir ps fs fs' q :
  grown ps fs fs' → fs !! q = Some Dir → fs' !! q = Some Dir.
Proof. intros H Hq. destruct (H q) as [->|(? & ? & _)]; congruence. Qed.

Lemma grown_refl ps fs : grown ps fs fs.
Proof. intros q. by left. Qed.

Lemma grown_trans p ps fs1 fs2 fs3 :
  grown [p] fs1 fs2 → grown ps fs2 fs3 → grown (p :: ps) fs1 fs3.
Proof.
  intros H1 H2 q.
  destruct (H2 q) as [->|(Hn & Hd & p' & Hp' & Hq)].
  - destruct (H1 q) as [->|(Hn & Hd & p' & Hp' & Hq)]; [by left|].
    right. split; [assumption|]. split; [assumption|].
    apply list_elem_of_singleton in Hp' as ->. exists p. split; [left|assumption].
  - destruct (H1 q) as [Heq|(? & ? & _)]; [|congruence].
    right. split; [congruence|]. split; [assumption|].
    exists p'. split; [by right|assumption].
Qed.

Lemma ensure_directories_cons kv paths w :
  ensure_directories (kv :: paths) w
  = match mkdir kv.2 w with
    | (Ok _, w1) => ensure_directories paths w1
    | (Err e, w1) => (Err e, w1)
    end.
Proof. reflexivity. Qed.

Lemma ensure_directories_Ok paths w a w' :
  ensure_directories paths w = (Ok a, w') →
  (∀ kv, kv ∈ paths → clear_way (files w) kv.2) ∧
  (∀ kv q, kv ∈ paths → q `prefix_of` kv.2 → files w' !! q = Some Dir) ∧
  grown (map snd paths) (files w) (files w') ∧ logs w' = logs w.
Proof.
  revert w. induction paths as [|kv paths IH]; intros w.
  - intros [= _ <-]. split; [intros kv H; inversion H|].
    split; [intros kv q H; inversion H|]. split; [apply grown_refl|reflexivity].
  - rewrite ensure_directories_cons.
    destruct (mkdir kv.2 w) as [[[]|e] w1] eqn:Hm; [|discriminate].
    intros H. apply mkdir_grown in Hm as (Hc & Hg & Hd & Hl).
    destruct (IH _ H) as (Hcs & Hds & Hgs & Hls).
    split; [|split; [|split]].
    + intros kv' Hin. apply elem_of_cons in Hin as [->|Hin]; [assumption|].
      apply (grown_clear_way _ _ _ _ Hg). by apply Hcs.
    + intros kv' q Hin Hq. apply elem_of_cons in Hin as [->|Hin].
      * eapply grown_dir; [exact Hgs|]. by apply Hd.
      * by apply (Hds kv').
    + simpl. eapply grown_trans; eassumption.
    + congruence.
Qed.

Lemma ensure_directories_clear paths w :
  (∀ kv, kv ∈ paths → clear_way (files w) kv.2) →
  ∃ w', ensure_directories paths w = (Ok tt, w').
Proof.
  revert w. induction paths as [|kv paths IH]; intros w H.
  - by exists w.
  - rewrite ensure_directories_cons.
    rewrite (mkdir_clear kv.2 w) by (apply H; left).
    apply IH. intros kv' Hin.
    assert (grown [kv.2] (files w)
              (foldr (λ q acc, <[q := Dir]> acc) (files w) (inits kv.2))) as Hg.
    { eapply (mkdir_grown kv.2 w tt (MkWorld _ (logs w))).
      apply mkdir_clear, H. left. }
    apply (grown_clear_way _ _ _ _ Hg). apply H. by right.
Qed.

(** X1.  [ensure_directories] returns exactly when none of the paths has
    a regular file at or above it.  When it returns, every path and
    everything above it is a directory, each entry that was there is as
    it was, what is new are directories at or above the paths, and the log
    is as it was. *)
Theorem ensure_directories_grows paths w :
  ((∃ w', ensure_directories paths w = (Ok tt, w')) ↔
   ∀ kv, kv ∈ paths → clear_way (files w) kv.2) ∧
  (∀ w', ensure_directories paths w = (Ok tt, w') →
         (∀ kv q, kv ∈ paths → q `prefix_of` kv.2 → files w' !! q = Some Dir) ∧
         grown (map snd paths) (files w) (files w') ∧ logs w' = logs w).
Proof.
  split.
  - split.
    + intros [w' H]. by apply ensure_directories_Ok in H as (? & _).
    + apply ensure_directories_clear.
  - intros w' H. by apply ensure_directories_Ok in H as (_ & ?).
Qed.

(** X2.  [ensure_directory] changes nothing when the parent of the path
    is there, whatever it is; otherwise it returns exactly when no
    regular file is above the parent.  When it returns the parent is
    there, each entry that was there is as it was and what is new are
    directories at or above the parent. *)
Theorem ensure_directory_parent path w :
  (is_some_node (files w !! removelast path) = true →
   ensure_directory path w = (Ok tt, w)) ∧
  (files w !! removelast path = None →
   ((∃ w', ensure_directory path w = (Ok tt, w')) ↔
    clear_way (files w) (removelast path))) ∧
  (∀ w', ensure_directory path w = (Ok tt, w') →
         is_some_node (files w' !! removelast path) = true ∧
         grown [removelast path] (files w) (files w') ∧ logs w' = logs w).
Proof.
  unfold ensure_directory, exists_, get_files, mbind, io_mbind, io_bind,
    mret, io_mret, io_ret.
  split; [|split].
  - by intros ->.
  - intros Hn. rewrite Hn. simpl. split.
    + intros [w' H]. by apply mkdir_grown in H as (? & _).
    + intros H. rewrite (mkdir_clear _ _ H). eauto.
  - intros w'. destruct (is_some_node (files w !! removelast path)) eqn:He; simpl.
    + intros [= <-]. split; [assumption|]. split; [apply grown_refl|reflexivity].
    + intros H. apply mkdir_grown in H as (_ & Hg & Hd & Hl).
      split; [|split; assumption]. by rewrite (Hd _ (reflexivity _)).
Qed.

(** A directory that is empty, in a tree that is otherwise a tree, keeps
    the tree a tree. *)
Lemma empty_dir_tree p fs fs' :
  tree fs → empty_dir fs' p →
  (∀ q, ¬ p `prefix_of` q → ¬ q `prefix_of` p → fs' !! q = fs !! q) →
  tree fs'.
Proof.
  intros Ht [Hup Hdown] Hframe q n Hq. simpl. apply Forall_forall.
  intros q' Hq'. apply elem_of_inits in Hq'.
  destruct (decide (q' = q)) as [|Hne]; [by left|]. right.
  destruct (decide (q' `prefix_of` p)) as [H1|H1];
    [by rewrite (Hup q' H1)|].
  destruct (decide (p `prefix_of` q')) as [H2|H2].
  - assert (p `prefix_of` q) as H3 by (by etrans).
    destruct (decide (q = p)) as [->|Hqp].
    + destruct H1. assumption.
    + rewrite (Hdown q H3 Hqp) in Hq. discriminate.
  - rewrite (Hframe q' H2 H1).
    assert (¬ q `prefix_of` p) as H4 by (intros H; apply H1; by etrans).
    destruct (decide (p `prefix_of` q)) as [H5|H5].
    + destruct (prefix_weak_total _ _ _ Hq' H5); contradiction.
    + rewrite (Hframe q H5 H4) in Hq.
      by rewrite (tree_above _ _ _ _ Ht Hq Hq' Hne).
Qed.

Lemma clean_output_directory_clear p w :
  tree (files w) → clear_way (files w) p →
  ∃ w', clean_output_directory p w = (Ok tt, w') ∧
        empty_dir (files w') p ∧
        (∀ q, ¬ p `prefix_of` q → ¬ q `prefix_of` p →
              files w' !! q = files w !! q) ∧
        logs w' = logs w.
Proof.
  intros Ht Hc.
  set (fs1 := if is_dir_node (files w !! p)
              then filter (λ kv, ¬ p `prefix_of` kv.1) (files w)
              else files w).
  assert (clean_output_directory p w = mkdir p (MkWorld fs1 (logs w))) as ->.
  { unfold clean_output_directory, exists_, is_dir, rmtree, get_files,
      put_files, mbind, io_mbind, io_bind, mret, io_mret, io_ret. subst fs1.
    destruct (files w !! p) as [[|c]|] eqn:Hp; simpl; [| |].
    - rewrite Hp. reflexivity.
    - by destruct w.
    - by destruct w. }
  assert (∀ q, ¬ p `prefix_of` q → fs1 !! q = files w !! q) as Hout.
  { intros q Hq. subst fs1. destruct (is_dir_node _); [|reflexivity].
    destruct (files w !! q) as [n|] eqn:Hn.
    - by apply map_lookup_filter_Some_2.
    - apply map_lookup_filter_None. by left. }
  assert (∀ q, p `prefix_of` q → q ≠ p → fs1 !! q = None) as Hin.
  { intros q Hq Hne. subst fs1. destruct (is_dir_node _) eqn:Hd.
    - apply map_lookup_filter_None. right. intros n _ Hn. by apply Hn.
    - destruct (files w !! q) as [n|] eqn:Hn; [|reflexivity].
      assert (p ≠ q) as Hne' by congruence.
      rewrite (tree_above _ _ _ _ Ht Hn Hq Hne') in Hd. discriminate. }
  assert (is_file_node (fs1 !! p) = false) as Hp.
  { subst fs1. destruct (is_dir_node _).
    - rewrite (proj2 (map_lookup_filter_None _ _ _)); [reflexivity|].
      right. intros n _ Hn. by apply Hn.
    - by apply Hc. }
  assert (clear_way fs1 p) as Hc1.
  { intros q Hq. destruct (decide (q = p)) as [->|Hne]; [assumption|].
    rewrite Hout; [by apply Hc|].
    intros Hpq. apply Hne. by apply (anti_symm prefix). }
  rewrite (mkdir_clear p (MkWorld fs1 (logs w)) Hc1). simpl.
  eexists. split; [reflexivity|]. simpl. split; [split|split; [|reflexivity]].
  - intros q Hq. rewrite lookup_mkdirs.
    rewrite bool_decide_eq_true_2; [reflexivity|by apply elem_of_inits].
  - intros q Hq Hne. rewrite lookup_mkdirs.
    rewrite bool_decide_eq_false_2; [by apply Hin|].
    rewrite elem_of_inits. intros Hqp. apply Hne. by apply (anti_symm prefix).
  - intros q Hq Hq'. rewrite lookup_mkdirs.
    rewrite bool_decide_eq_false_2 by (by rewrite elem_of_inits).
    by apply Hout.
Qed.

Lemma clean_output_directory_blocked p w :
  tree (files w) → ¬ clear_way (files w) p →
  clean_output_directory p w
  = (Err (if is_file_node (files w !! p)
          then FileExistsError else NotADirectoryError), w).
Proof.
  intros Ht Hc.
  assert (is_dir_node (files w !! p) = false) as Hd.
  { destruct (is_dir_node (files w !! p)) eqn:Hd; [|reflexivity].
    destruct Hc. intros q Hq. destruct (decide (q = p)) as [->|Hne].
    - by destruct (files w !! p) as [[]|].
    - apply is_dir_node_Some in Hd.
      by rewrite (tree_above _ _ _ _ Ht Hd Hq Hne). }
  unfold clean_output_directory, exists_, is_dir, get_files,
    mbind, io_mbind, io_bind, mret, io_mret, io_ret.
  rewrite Hd, andb_false_r. by apply mkdir_blocked.
Qed.

(** X3.  On a file tree [clean_output_directory] returns exactly when
    neither the path nor anything above it is a regular file.  It then
    leaves the path an empty directory below directories, keeps all that
    is neither below nor above the path, keeps the log, and the result is
    a file tree again.  When it raises, nothing has changed: the error
    is [FileExistsError] when the path is a regular file and
    [NotADirectoryError] when a regular file is above it. *)
Theorem clean_output_directory_empties p w :
  tree (files w) →
  (clear_way (files w) p →
   ∃ w', clean_output_directory p w = (Ok tt, w') ∧
         empty_dir (files w') p ∧
         (∀ q, ¬ p `prefix_of` q → ¬ q `prefix_of` p →
               files w' !! q = files w !! q) ∧
         logs w' = logs w ∧ tree (files w')) ∧
  (¬ clear_way (files w) p →
   clean_output_directory p w
   = (Err (if is_file_node (files w !! p)
           then FileExistsError else NotADirectoryError), w)).
Proof.
  intros Ht. split.
  - intros Hc.
    destruct (clean_output_directory_clear p w Ht Hc)
      as (w' & Hrun & Hempty & Hframe & Hlogs).
    exists w'. repeat (split; [assumption|]).
    eapply empty_dir_tree; eassumption.
  - by apply clean_output_directory_blocked.
Qed.

Lemma sample_gold_clear : clear_way (files Sample.used_world) Sample.gold_path.
Proof. apply clear_way_existsb. vm_compute. reflexivity. Qed.

Lemma sample_tree : tree (files Sample.used_world).
Proof. compute_done. Qed.

Lemma clean_output_directory_empties_witness :
  ∃ w', clean_output_directory Sample.gold_path Sample.used_world = (Ok tt, w') ∧
        files Sample.used_world !! (Sample.gold_path ++ ["notes.txt"])
          = Some (File (Bytes "stale")) ∧
        files w' !! (Sample.gold_path ++ ["notes.txt"]) = None ∧
        files w' !! Sample.gold_path = Some Dir.
Proof.
  destruct (clean_output_directory_empties Sample.gold_path Sample.used_world
              sample_tree) as [Hok _].
  destruct (Hok sample_gold_clear) as (w' & Hrun & [Hup Hdown] & _).
  exists w'. split; [assumption|]. split; [reflexivity|]. split.
  - apply Hdown; [by exists ["notes.txt"]|].
    intros H. apply (f_equal length) in H. discriminate.
  - by apply Hup.
Defined.

(** X4.  Clearing a cleared directory changes nothing: after
    [clean_output_directory] has returned on a file tree, it returns
    again and leaves the files and the log as they are. *)
Theorem clean_output_directory_idempotent p w w' :
  tree (files w) →
  clean_output_directory p w = (Ok tt, w') →
  clean_output_directory p w' = (Ok tt, w').
Proof.
  intros Ht Hrun.
  destruct (clear_way_dec (files w) p) as [Hc|Hc];
    [|rewrite (clean_output_directory_blocked _ _ Ht Hc) in Hrun; discriminate].
  destruct (clean_output_directory_clear p w Ht Hc)
    as (w1 & Hrun1 & [Hup Hdown] & Hframe & Hlogs).
  rewrite Hrun in Hrun1. injection Hrun1 as <-.
  assert (tree (files w')) as Ht'
    by (eapply empty_dir_tree; [exact Ht|split|]; eassumption).
  assert (clear_way (files w') p) as Hc'
    by (intros q Hq; by rewrite (Hup q Hq)).
  destruct (clean_output_directory_clear p w' Ht' Hc')
    as (w2 & Hrun2 & [Hup2 Hdown2] & Hframe2 & Hlogs2).
  rewrite Hrun2. f_equal. destruct w' as [fs' l'], w2 as [fs2 l2].
  simpl in *. f_equal; [|assumption].
  apply map_eq. intros q.
  destruct (decide (q `prefix_of` p)) as [H1|H1];
    [by rewrite Hup, Hup2|].
  destruct (decide (p `prefix_of` q)) as [H2|H2].
  - assert (q ≠ p) as Hne by (intros ->; by apply H1).
    by rewrite Hdown, Hdown2.
  - by apply Hframe2.
Qed.

Lemma clean_output_directory_idempotent_witness :
  ∃ w', clean_output_directory Sample.gold_path Sample.used_world = (Ok tt, w') ∧
        clean_output_directory Sample.gold_path w' = (Ok tt, w').
Proof.
  destruct (clean_output_directory_clear Sample.gold_path Sample.used_world
              sample_tree sample_gold_clear) as (w' & Hrun & _).
  exists w'. split; [assumption|].
  exact (clean_output_directory_idempotent _ _ _ sample_tree Hrun).
Defined.

(** ** The columns after [with_columns] *)

Lemma with_columns_columns es df out :
  LazyFrame.with_columns es df = Ok out →
  columns out = columns df ++
                filter (λ c, c ∉ columns df) (map output_name es).
Proof.
  unfold LazyFrame.with_columns. intros H. do 3 inv_bind H.
  by injection H as <-.
Qed.

Lemma with_columns_has es df out e :
  LazyFrame.with_columns es df = Ok out → e ∈ es →
  output_name e ∈ columns out.
Proof.
  intros H He. rewrite (with_columns_columns _ _ _ H).
  apply elem_of_app. destruct (decide (output_name e ∈ columns df));
    [by left|right].
  apply list_elem_of_filter. split; [assumption|].
  apply list_elem_of_fmap. eauto.
Qed.

(** ** What a failed run leaves *)

Lemma scan_csv_same p w : (scan_csv p w).2 = w.
Proof.
  unfold scan_csv, get_files, mbind, io_mbind, io_bind, raise.
  by destruct (files w !! p) as [[|[]]|].
Qed.

Lemma read_json_same p w : (read_json p w).2 = w.
Proof.
  unfold read_json, get_files, mbind, io_mbind, io_bind, raise.
  by destruct (files w !! p) as [[|[]]|].
Qed.

Lemma scan_parquet_same p w : (scan_parquet p w).2 = w.
Proof.
  unfold scan_parquet, get_files, mbind, io_mbind, io_bind, raise.
  by destruct (parquet_frames p (files w)).
Qed.

(** The shape of the silver transforms: log, load, transform, log,
    persist.  When loading leaves the world alone, a run that raises has
    left the files alone or has reached the persisting step with a
    table. *)
Lemma transform_failure {A} (m1 m2 : string) (load : io frame)
    (q : frame → result frame) (persist : frame → io A) w e w' :
  (∀ w0, (load w0).2 = w0) →
  (_ ← log_msg INFO m1; lf ← load; df ← lift (q lf);
   _ ← log_msg INFO m2; persist df) w = (Err e, w') →
  files w' = files w ∨
  ∃ lf df w1 w2, files w1 = files w ∧ (load w1).1 = Ok lf ∧ q lf = Ok df ∧
                 files w2 = files w ∧ persist df w2 = (Err e, w').
Proof.
  intros Hload. unfold mbind, io_mbind, io_bind. cbn [log_msg].
  set (w0 := {| files := files w; logs := _ |}).
  pose proof (Hload w0) as Hl. destruct (load w0) as [[lf|e0] w1] eqn:Hrun.
  2: { intros [= _ <-]. simpl in Hl. subst w1. by left. }
  simpl in Hl. subst w1. unfold lift.
  destruct (q lf) as [df|e1] eqn:Hq; [|intros [= _ <-]; by left].
  intros H. right. exists lf, df, w0. eexists. split; [reflexivity|].
  split; [by rewrite Hrun|]. split; [assumption|]. split; [|exact H].
  reflexivity.
Qed.

(** Clearing and then writing: a failure has changed nothing, or the
    way to the destination was clear. *)
Lemma persist_failure {A} (write : io unit) p (ret : A) w e w' :
  tree (files w) →
  (_ ← clean_output_directory p; _ ← write; mret ret) w = (Err e, w') →
  w' = w ∨ clear_way (files w) p.
Proof.
  intros Ht H. destruct (clear_way_dec (files w) p) as [Hc|Hc]; [by right|].
  left. revert H. unfold mbind, io_mbind, io_bind.
  rewrite (clean_output_directory_blocked _ _ Ht Hc). by intros [= _ <-].
Qed.

Lemma load_same (read : list string → io frame) (input : input_data)
    (msg : string) w :
  (∀ p w, (read p w).2 = w) →
  (match input with
   | Path p => read p
   | DataFrame df => mret df
   | Unsupported => raise (TypeError msg)
   end w).2 = w.
Proof. intros H. destruct input; [reflexivity|apply H|reflexivity]. Qed.

Lemma load_loads (read : list string → io frame) (input : input_data)
    (msg : string) w1 w lf :
  (∀ p, (read p w1).1 = (read p w).1) →
  (match input with
   | Path p => read p
   | DataFrame df => mret df
   | Unsupported => raise (TypeError msg)
   end w1).1 = Ok lf →
  loads read input w lf.
Proof.
  intros Hread. destruct input as [df|p|]; simpl.
  - by intros [= ->].
  - by rewrite Hread.
  - discriminate.
Qed.

Lemma silver_failure {A} (m1 m2 msg : string) (read : list string → io frame)
    (input : input_data) (q : frame → result frame)
    (write : frame → io unit) (ret : frame → A) p w e w' :
  (∀ p w, (read p w).2 = w) →
  (∀ p w1 w2, files w1 = files w2 → (read p w1).1 = (read p w2).1) →
  tree (files w) →
  (_ ← log_msg INFO m1;
   lf ← match input with
        | Path p => read p
        | DataFrame df => mret df
        | Unsupported => raise (TypeError msg)
        end;
   df ← lift (q lf);
   _ ← log_msg INFO m2;
   _ ← clean_output_directory p; _ ← write df; mret (ret df)) w = (Err e, w') →
  files w' = files w ∨
  ∃ lf df, loads read input w lf ∧ q lf = Ok df ∧ clear_way (files w) p.
Proof.
  intros Hsame Hfiles Ht H.
  apply transform_failure in H as [H|(lf & df & w1 & w2 & H1 & Hl & Hq & H2 & H)];
    [by left| |intros w0; by apply load_same].
  rewrite <- H2 in Ht.
  apply (persist_failure _ _ _ _ _ _ Ht) in H as [->|Hc]; [by left|].
  right. exists lf, df. split; [|split; [assumption|by rewrite <- H2]].
  eapply load_loads; [|exact Hl]. intros p0. by apply Hfiles.
Qed.

Lemma scan_parquet_files p w1 w2 :
  files w1 = files w2 → (scan_parquet p w1).1 = (scan_parquet p w2).1.
Proof.
  unfold scan_parquet, get_files, mbind, io_mbind, io_bind. intros ->.
  by destruct (parquet_frames p (files w2)).
Qed.

Lemma normalize_input_same input name w :
  files (GoldProcessor._normalize_input input name w).2 = files w.
Proof.
  unfold GoldProcessor._normalize_input, mbind, io_mbind, io_bind.
  destruct input as [df|path|]; cbn [log_msg]; [reflexivity| |reflexivity].
  by rewrite scan_parquet_same.
Qed.

Lemma normalize_input_loads input name w0 w lf w1 :
  files w0 = files w →
  GoldProcessor._normalize_input input name w0 = (Ok lf, w1) →
  loads scan_parquet input w lf.
Proof.
  intros Hw. unfold GoldProcessor._normalize_input, mbind, io_mbind, io_bind.
  destruct input as [df|path|]; cbn [log_msg]; simpl.
  - by intros [= ->].
  - intros H. rewrite <- (scan_parquet_files path _ w Hw).
    rewrite (scan_parquet_files path w0 {| files := files w0; logs := logs w0 ++
      [(INFO, "Input '" +:+ name +:+ "': scanning disk at " +:+
              path_to_string path +:+ "/**/*.parquet")] |}) by reflexivity.
    by rewrite H.
  - discriminate.
Qed.

Lemma process_gold_data_failure c h wd p w e w' :
  tree (files w) →
  GoldProcessor.process_gold_data c h wd p w = (Err e, w') →
  files w' = files w ∨
  ∃ lc lh lw enriched,
    loads scan_parquet c w lc ∧ loads scan_parquet h w lh ∧
    loads scan_parquet wd w lw ∧
    GoldProcessor._enrich_collisions lc lh lw = Ok enriched ∧
    is_ok (GoldProcessor._aggregate_stats enriched) = true ∧
    clear_way (files w) p.
Proof.
  intros Ht. unfold GoldProcessor.process_gold_data.
  unfold mbind, io_mbind, io_bind.
  pose proof (normalize_input_same c "collisions" w) as H1.
  destruct (GoldProcessor._normalize_input c "collisions" w) as [[lc|e1] w1]
    eqn:Hc; simpl in H1; [|intros [= _ <-]; by left].
  pose proof (normalize_input_same h "holidays" w1) as H2.
  destruct (GoldProcessor._normalize_input h "holidays" w1) as [[lh|e2] w2]
    eqn:Hh; simpl in H2; [|intros [= _ <-]; left; congruence].
  pose proof (normalize_input_same wd "weather" w2) as H3.
  destruct (GoldProcessor._normalize_input wd "weather" w2) as [[lw|e3] w3]
    eqn:Hw; simpl in H3; [|intros [= _ <-]; left; congruence].
  cbn [log_msg]. unfold lift.
  destruct (GoldProcessor._enrich_collisions lc lh lw) as [enriched|e4] eqn:He;
    [|intros [= _ <-]; left; simpl; congruence].
  destruct (GoldProcessor._aggregate_stats enriched) as [gold|e5] eqn:Hg;
    [|intros [= _ <-]; left; simpl; congruence].
  match goal with
  | |- context [clean_output_directory p ?w0] => set (w4 := w0)
  end.
  assert (files w4 = files w) as H4 by (simpl; congruence).
  assert (tree (files w4)) as Ht4 by (by rewrite H4).
  destruct (clear_way_dec (files w4) p) as [Hclear|Hblocked].
  - intros _. right. exists lc, lh, lw, enriched.
    split; [by eapply normalize_input_loads; [|exact Hc]|].
    split; [eapply normalize_input_loads; [|exact Hh]; congruence|].
    split; [eapply normalize_input_loads; [|exact Hw]; congruence|].
    split; [exact He|]. split; [by rewrite Hg|]. by rewrite <- H4.
  - rewrite (clean_output_directory_blocked _ _ Ht4 Hblocked).
    intros [= _ <-]. by left.
Qed.

(** X5.  On a file tree, a persisting operation that raises has changed
    no file, unless its table was computed and the way to its
    destination was clear, so that it failed while writing: whatever is
    wrong with the input (its type, a missing file, a missing column, a
    text that is no date or no number) or with the destination (a regular
    file at or above it) is found before anything is deleted.  This holds
    for the three silver transforms and for the gold output. *)
Theorem persisting_fails_before_clearing :
  (∀ self input p w e w',
     tree (files w) →
     SilverProcessor.process_collisions self input p w = (Err e, w') →
     files w' = files w ∨
     ∃ lf df, loads scan_csv input w lf ∧
              SilverProcessor.collisions_query self lf = Ok df ∧
              clear_way (files w) p) ∧
  (∀ input p w e w',
     tree (files w) →
     SilverProcessor.process_holidays input p w = (Err e, w') →
     files w' = files w ∨
     ∃ lf df, loads read_json input w lf ∧
              SilverProcessor.holidays_query lf = Ok df ∧
              clear_way (files w) p) ∧
  (∀ input p w e w',
     tree (files w) →
     SilverProcessor.process_weather input p w = (Err e, w') →
     files w' = files w ∨
     ∃ lf df, loads scan_csv input w lf ∧
              SilverProcessor.weather_query lf = Ok df ∧
              clear_way (files w) p) ∧
  (∀ collisions holidays weather p w e w',
     tree (files w) →
     GoldProcessor.process_gold_data collisions holidays weather p w
       = (Err e, w') →
     files w' = files w ∨
     ∃ lc lh lw enriched,
       loads scan_parquet collisions w lc ∧ loads scan_parquet holidays w lh ∧
       loads scan_parquet weather w lw ∧
       GoldProcessor._enrich_collisions lc lh lw = Ok enriched ∧
       is_ok (GoldProcessor._aggregate_stats enriched) = true ∧
       clear_way (files w) p).
Proof.
  split; [|split; [|split]].
  - intros self input p w e w' Ht H.
    unfold SilverProcessor.process_collisions in H.
    apply (silver_failure _ _ _ scan_csv) in H;
      [assumption|apply scan_csv_same|apply scan_csv_files|assumption].
  - intros input p w e w' Ht H.
    unfold SilverProcessor.process_holidays in H.
    apply (silver_failure _ _ _ read_json) in H;
      [assumption|apply read_json_same|apply read_json_files|assumption].
  - intros input p w e w' Ht H.
    unfold SilverProcessor.process_weather in H.
    apply (silver_failure _ _ _ scan_csv) in H;
      [assumption|apply scan_csv_same|apply scan_csv_files|assumption].
  - apply process_gold_data_failure.
Qed.

Lemma persisting_fails_before_clearing_witness :
  ∃ e w',
    SilverProcessor.process_collisions Sample.config
      (DataFrame (Frame (map fst (SilverProcessor.rename_map Sample.config))
                        [Sample.raw_collision (VStr "31/12/2023") VNull VNull]))
      Sample.silver_path Sample.used_world = (Err e, w') ∧
    files w' !! (Sample.silver_path ++ ["year=2018"; "old.parquet"])
      = Some (File (Bytes "stale")).
Proof.
  assert (is_ok (SilverProcessor.process_collisions Sample.config
                   (DataFrame
                      (Frame (map fst (SilverProcessor.rename_map Sample.config))
                         [Sample.raw_collision (VStr "31/12/2023") VNull VNull]))
                   Sample.silver_path Sample.used_world).1 = false) as Hb
    by (vm_compute; reflexivity).
  assert (is_ok (SilverProcessor.collisions_query Sample.config
                   (Frame (map fst (SilverProcessor.rename_map Sample.config))
                      [Sample.raw_collision (VStr "31/12/2023") VNull VNull]))
          = false) as Hq by (vm_compute; reflexivity).
  destruct (SilverProcessor.process_collisions _ _ _ _) as [[a|e] w'] eqn:Hrun;
    [discriminate|].
  exists e, w'. split; [reflexivity|].
  destruct persisting_fails_before_clearing as [Hcollisions _].
  destruct (Hcollisions _ _ _ _ _ _ sample_tree Hrun)
    as [->|(lf & df & Hload & Hdf & _)]; [reflexivity|].
  cbv [loads] in Hload. subst lf. rewrite Hdf in Hq. discriminate.
Defined.

(** ** Groups *)

Lemma add_to_groups_weight (f : gmap string value → Z) k r gs :
  foldr Z.add 0 (map (λ kg, foldr Z.add 0 (map f kg.2)) (add_to_groups k r gs))
  = foldr Z.add 0 (map (λ kg : list value * list (gmap string value),
                          foldr Z.add 0 (map f kg.2)) gs) + f r.
Proof.
  induction gs as [|[k' g] gs IH]; simpl; [lia|].
  case_bool_decide; simpl.
  - rewrite map_app, foldr_app. simpl.
    assert (∀ (l : list Z) a, foldr Z.add a l = foldr Z.add 0 l + a) as Hf
      by (induction l; intros; simpl; [lia|rewrite IHl; lia]).
    rewrite (Hf _ (f r + 0)). lia.
  - rewrite IH. lia.
Qed.

(** The groups split the rows: a sum over the rows is the sum of the
    sums over the groups. *)
Lemma groups_of_weight (f : gmap string value → Z) by_ l :
  foldr Z.add 0 (map (λ kg, foldr Z.add 0 (map f kg.2)) (groups_of by_ l))
  = foldr Z.add 0 (map f l).
Proof.
  unfold groups_of.
  enough (∀ acc,
    foldr Z.add 0 (map (λ kg, foldr Z.add 0 (map f kg.2))
                     (foldl (λ gs r, add_to_groups (group_key by_ r) r gs) acc l))
    = foldr Z.add 0 (map (λ kg : list value * list (gmap string value),
                            foldr Z.add 0 (map f kg.2)) acc)
      + foldr Z.add 0 (map f l)) as H by (rewrite H; simpl; lia).
  induction l as [|r l IH]; intros acc; simpl; [lia|].
  rewrite IH, add_to_groups_weight. lia.
Qed.

Lemma add_to_groups_keys k r gs :
  map fst (add_to_groups k r gs)
  = if bool_decide (k ∈ map fst gs) then map fst gs else map fst gs ++ [k].
Proof.
  induction gs as [|[k' g] gs IH]; simpl; [reflexivity|].
  destruct (decide (k = k')) as [->|Hne].
  - rewrite (bool_decide_eq_true_2 (k' = k')) by reflexivity. simpl.
    rewrite bool_decide_eq_true_2; [reflexivity|left].
  - rewrite (bool_decide_eq_false_2 (k = k')) by assumption. simpl.
    rewrite IH. destruct (decide (k ∈ map fst gs)) as [Hin|Hin].
    + rewrite !bool_decide_eq_true_2; [reflexivity|by right|assumption].
    + rewrite !bool_decide_eq_false_2; [reflexivity| |assumption].
      intros H. apply elem_of_cons in H as [?|?]; contradiction.
Qed.

Lemma add_to_groups_NoDup k r gs :
  NoDup (map fst gs) → NoDup (map fst (add_to_groups k r gs)).
Proof.
  intros H. rewrite add_to_groups_keys. case_bool_decide as Hk; [assumption|].
  apply NoDup_app. split; [assumption|]. split.
  - intros x Hx Hx'. apply list_elem_of_singleton in Hx' as ->. contradiction.
  - apply NoDup_singleton.
Qed.

Lemma groups_of_NoDup by_ l : NoDup (map fst (groups_of by_ l)).
Proof.
  unfold groups_of.
  enough (∀ acc : list (list value * list (gmap string value)),
            NoDup (map fst acc) →
            NoDup (map fst (foldl (λ gs r, add_to_groups (group_key by_ r) r gs)
                              acc l))) as H by (apply H; constructor).
  induction l as [|r l IH]; intros acc Hacc; simpl; [assumption|].
  apply IH. by apply add_to_groups_NoDup.
Qed.

(** Every group has a row, and its rows have its key. *)
Lemma add_to_groups_keyed by_ r gs :
  Forall (λ kg, kg.2 ≠ [] ∧ ∀ x, x ∈ kg.2 → group_key by_ x = kg.1) gs →
  Forall (λ kg, kg.2 ≠ [] ∧ ∀ x, x ∈ kg.2 → group_key by_ x = kg.1)
         (add_to_groups (group_key by_ r) r gs).
Proof.
  induction 1 as [|[k g] gs [Hne Hk] Hgs IH]; simpl.
  - repeat constructor; [discriminate|].
    simpl. intros x Hx. by apply list_elem_of_singleton in Hx as ->.
  - simpl in *. case_bool_decide as Heq.
    + constructor; [|assumption]. simpl.
      split; [by destruct g|]. intros x Hx.
      apply elem_of_app in Hx as [Hx|Hx]; [by apply Hk|].
      by apply list_elem_of_singleton in Hx as ->.
    + constructor; [|assumption]. simpl. auto.
Qed.

Lemma groups_of_keyed by_ l :
  Forall (λ kg, kg.2 ≠ [] ∧ ∀ x, x ∈ kg.2 → group_key by_ x = kg.1)
         (groups_of by_ l).
Proof.
  unfold groups_of.
  enough (∀ acc,
            Forall (λ kg : list value * list (gmap string value),
                      kg.2 ≠ [] ∧ ∀ x, x ∈ kg.2 → group_key by_ x = kg.1) acc →
            Forall (λ kg, kg.2 ≠ [] ∧ ∀ x, x ∈ kg.2 → group_key by_ x = kg.1)
                   (foldl (λ gs r, add_to_groups (group_key by_ r) r gs) acc l))
    as H by (apply H; constructor).
  induction l as [|r l IH]; intros acc Hacc; simpl; [assumption|].
  apply IH. by apply add_to_groups_keyed.
Qed.

(** Every row is in the group of its key. *)
Lemma add_to_groups_covers k r gs :
  (∃ g, (k, g) ∈ add_to_groups k r gs ∧ r ∈ g) ∧
  (∀ k' g x, (k', g) ∈ gs → x ∈ g →
             ∃ g', (k', g') ∈ add_to_groups k r gs ∧ x ∈ g').
Proof.
  induction gs as [|[k0 g0] gs [IH1 IH2]]; simpl.
  - split; [|intros k' g x H; inversion H].
    exists [r]. split; left.
  - case_bool_decide as Heq.
    + subst. split.
      * exists (g0 ++ [r]). split; [left|]. apply elem_of_app. right. left.
      * intros k' g x Hin Hx. apply elem_of_cons in Hin as [[= -> ->]|Hin].
        -- exists (g0 ++ [r]). split; [left|]. apply elem_of_app. by left.
        -- exists g. split; [by right|assumption].
    + split.
      * destruct IH1 as (g & Hg & Hr). exists g. split; [by right|assumption].
      * intros k' g x Hin Hx. apply elem_of_cons in Hin as [[= -> ->]|Hin].
        -- exists g0. split; [left|assumption].
        -- destruct (IH2 _ _ _ Hin Hx) as (g' & Hg' & Hx').
           exists g'. split; [by right|assumption].
Qed.

Lemma groups_of_covers by_ l r :
  r ∈ l → ∃ g, (group_key by_ r, g) ∈ groups_of by_ l ∧ r ∈ g.
Proof.
  unfold groups_of.
  enough (∀ acc,
    (r ∈ l ∨ ∃ g, (group_key by_ r, g) ∈ acc ∧ r ∈ g) →
    ∃ g, (group_key by_ r, g)
           ∈ foldl (λ gs r, add_to_groups (group_key by_ r) r gs) acc l ∧ r ∈ g)
    as H by (intros Hr; apply H; by left).
  induction l as [|x l IH]; intros acc; simpl.
  - intros [H|H]; [inversion H|assumption].
  - intros [H|(g & Hg & Hr)]; apply IH.
    + apply elem_of_cons in H as [->|H]; [|by left]. right.
      apply add_to_groups_covers.
    + right. by apply (proj2 (add_to_groups_covers _ x acc) _ g r).
Qed.

Lemma filter_none {A} (P : A → Prop) `{∀ x, Decision (P x)} (l : list A) :
  (∀ x, x ∈ l → ¬ P x) → filter P l = [].
Proof.
  induction l as [|a l IH]; intros Hl; [reflexivity|].
  rewrite filter_cons_False by (apply Hl; left).
  apply IH. intros x Hx. apply Hl. by right.
Qed.

(** Every group holds, in order, the rows of its key. *)
Lemma add_to_groups_filter by_ r (pre : list (gmap string value)) gs :
  NoDup (map fst gs) →
  Forall (λ kg, kg.2 = filter (λ x, group_key by_ x = kg.1) pre) gs →
  (∀ x, x ∈ pre → group_key by_ x ∈ map fst gs) →
  Forall (λ kg, kg.2 = filter (λ x, group_key by_ x = kg.1) (pre ++ [r]))
         (add_to_groups (group_key by_ r) r gs).
Proof.
  intros Hnd Hgs Hcov.
  assert (group_key by_ r ∉ map fst gs →
          filter (λ x, group_key by_ x = group_key by_ r) pre = []) as Hnew.
  { intros Hk. apply filter_none. intros x Hx Heq. apply Hk.
    rewrite <- Heq. by apply Hcov. }
  clear Hcov. induction Hgs as [|[k g] gs Hg Hgs IH]; simpl in *.
  - constructor; [|constructor]. simpl. rewrite filter_app, Hnew.
    + by rewrite filter_cons_True, filter_nil.
    + apply not_elem_of_nil.
  - apply NoDup_cons in Hnd as [Hk Hnd].
    destruct (decide (group_key by_ r = k)) as [Heq|Hne].
    + rewrite (bool_decide_eq_true_2 _ Heq). constructor; simpl.
      * rewrite filter_app, <- Hg.
        by rewrite filter_cons_True, filter_nil.
      * apply Forall_forall. intros [k' g'] Hin. simpl.
        rewrite Forall_forall in Hgs. specialize (Hgs _ Hin). simpl in Hgs.
        rewrite filter_app, <- Hgs.
        rewrite filter_cons_False, filter_nil, app_nil_r; [reflexivity|].
        intros Heq'. apply Hk. rewrite <- Heq, Heq'.
        apply list_elem_of_fmap. by exists (k', g').
    + rewrite (bool_decide_eq_false_2 _ Hne). constructor; simpl.
      * rewrite filter_app, <- Hg.
        by rewrite filter_cons_False, filter_nil, app_nil_r.
      * apply IH; [assumption|]. intros Hk'. apply Hnew. intros Hin.
        apply elem_of_cons in Hin as [?|?]; contradiction.
Qed.

Lemma add_to_groups_has_key k r gs k' :
  k' ∈ map fst (add_to_groups k r gs) ↔ k' = k ∨ k' ∈ map fst gs.
Proof.
  rewrite add_to_groups_keys. case_bool_decide as Hk.
  - split; [by right|]. by intros [->|?].
  - rewrite elem_of_app, list_elem_of_singleton. tauto.
Qed.

Lemma groups_of_filter by_ l :
  Forall (λ kg, kg.2 = filter (λ x, group_key by_ x = kg.1) l)
         (groups_of by_ l).
Proof.
  unfold groups_of.
  enough (∀ pre acc,
    NoDup (map fst acc) →
    Forall (λ kg : list value * list (gmap string value),
              kg.2 = filter (λ x, group_key by_ x = kg.1) pre) acc →
    (∀ x, x ∈ pre → group_key by_ x ∈ map fst acc) →
    Forall (λ kg, kg.2 = filter (λ x, group_key by_ x = kg.1) (pre ++ l))
           (foldl (λ gs r, add_to_groups (group_key by_ r) r gs) acc l)) as H.
  { apply (H [] []); [constructor|constructor|]. intros x Hx. inversion Hx. }
  induction l as [|r l IH]; intros pre acc Hnd Hacc Hcov; simpl.
  - by rewrite app_nil_r.
  - replace (pre ++ r :: l) with ((pre ++ [r]) ++ l)
      by (by rewrite <- app_assoc).
    apply IH.
    + by apply add_to_groups_NoDup.
    + by apply add_to_groups_filter.
    + intros x Hx. apply add_to_groups_has_key.
      apply elem_of_app in Hx as [Hx|Hx]; [right; by apply Hcov|].
      apply list_elem_of_singleton in Hx as ->. by left.
Qed.

(** ** The cells of a fact row *)

Lemma agg_cells_names aggs g cells :
  agg_cells aggs g = Ok cells → map fst cells = map agg_name aggs.
Proof.
  revert cells. induction aggs as [|a aggs IH]; intros cells H; simpl in H.
  - by injection H as <-.
  - do 2 inv_bind H. injection H as <-. simpl. f_equal. by apply IH.
Qed.

Lemma agg_cells_elem aggs g cells a :
  agg_cells aggs g = Ok cells → a ∈ aggs →
  ∃ v, agg_eval a g = Ok v ∧ (agg_name a, v) ∈ cells.
Proof.
  revert cells. induction aggs as [|a0 aggs IH]; intros cells H Ha;
    [inversion Ha|].
  simpl in H. do 2 inv_bind H. injection H as <-.
  apply elem_of_cons in Ha as [->|Ha].
  - exists a1. split; [assumption|left].
  - destruct (IH _ Ha1 Ha) as (v & Hv & Hin). exists v. split; [assumption|].
    by right.
Qed.

Lemma group_row_cells by_ aggs g r :
  NoDup (by_ ++ map agg_name aggs) →
  LazyFrame.group_row by_ aggs g = Ok r →
  (∀ c, c ∈ by_ → cell c r = cell c (default ∅ (head g))) ∧
  (∀ a, a ∈ aggs → agg_eval a g = Ok (cell (agg_name a) r)).
Proof.
  intros Hnd H. unfold LazyFrame.group_row in H. inv_bind H. injection H as <-.
  assert (NoDup (map fst (a ++ map (λ c, (c, cell c (default ∅ (head g)))) by_)))
    as Hnd'.
  { rewrite map_app, map_map, (agg_cells_names _ _ _ Ha). simpl.
    rewrite map_id. eapply NoDup_Permutation_proper; [|exact Hnd].
    apply Permutation_app_comm. }
  split.
  - intros c Hc. unfold cell at 1.
    erewrite elem_of_list_to_map_1; [reflexivity|exact Hnd'|].
    apply elem_of_app. right. apply list_elem_of_fmap. by exists c.
  - intros a0 Ha0. destruct (agg_cells_elem _ _ _ _ Ha Ha0) as (v & Hv & Hin).
    rewrite Hv. f_equal. unfold cell.
    erewrite elem_of_list_to_map_1; [reflexivity|exact Hnd'|].
    apply elem_of_app. by left.
Qed.

Lemma group_by_agg_full by_ aggs df out :
  LazyFrame.group_by_agg by_ aggs df = Ok out →
  NoDup (by_ ++ map agg_name aggs) ∧
  columns out = by_ ++ map agg_name aggs ∧
  Forall2 (λ kg r, LazyFrame.group_row by_ aggs kg.2 = Ok r)
          (groups_of by_ (rows df)) (rows out).
Proof.
  intros H. pose proof (group_by_agg_Ok _ _ _ _ H) as Hrows.
  unfold LazyFrame.group_by_agg in H. do 3 inv_bind H. injection H as <-.
  destruct a0. split; [by apply check_unique_Ok|]. by split.
Qed.

(** ** Sums that wrap around *)

Lemma wrap_add bits a b :
  0 < bits → wrap bits (wrap bits a + b) = wrap bits (a + b).
Proof.
  intros Hb. unfold wrap.
  assert (0 < 2 ^ bits) as Hpos by (apply Z.pow_pos_nonneg; lia).
  f_equal.
  replace ((a + 2 ^ (bits - 1)) mod 2 ^ bits - 2 ^ (bits - 1) + b
           + 2 ^ (bits - 1))
    with ((a + 2 ^ (bits - 1)) mod 2 ^ bits + b) by lia.
  rewrite Zplus_mod_idemp_l. f_equal. lia.
Qed.

Lemma wrap_wrap bits a : 0 < bits → wrap bits (wrap bits a) = wrap bits a.
Proof.
  intros Hb. rewrite <- (Z.add_0_r (wrap bits a)) at 1.
  rewrite wrap_add by assumption. by rewrite Z.add_0_r.
Qed.

Lemma wrap_small bits a :
  0 < bits → - 2 ^ (bits - 1) <= a < 2 ^ (bits - 1) → wrap bits a = a.
Proof.
  intros Hb Ha. unfold wrap.
  assert (2 ^ bits = 2 * 2 ^ (bits - 1)) as ->.
  { rewrite <- Z.pow_succ_r by lia. f_equal. lia. }
  rewrite Z.mod_small by lia. lia.
Qed.

(** The sum of integer cells of one width: an integer of that width (or
    still nothing), the exact sum after wrap-around. *)
Lemma sum_cells_wrap bits acc l :
  bits = 32 ∨ bits = 64 →
  integral bits acc → wrap bits (int_cell acc) = int_cell acc →
  Forall (integral bits) l →
  ∃ v, sum_cells acc l = Ok v ∧ integral bits v ∧
       (v = VNull → acc = VNull) ∧
       int_cell v = wrap bits (int_cell acc + foldr Z.add 0 (map int_cell l)).
Proof.
  intros Hbits Hacc Hw Hl. revert acc Hacc Hw.
  assert (0 < bits) as Hpos by (destruct Hbits; subst; lia).
  induction Hl as [|x l Hx _ IH]; intros acc Hacc Hw.
  - exists acc. split; [reflexivity|]. split; [assumption|]. split; [done|].
    cbn [map foldr]. by rewrite Z.add_0_r.
  - cbn [map foldr].
    assert (∀ acc', integral bits acc' →
                    wrap bits (int_cell acc') = int_cell acc' →
                    acc' ≠ VNull →
                    wrap bits (int_cell acc' + foldr Z.add 0 (map int_cell l))
                    = wrap bits (int_cell acc +
                                 (int_cell x + foldr Z.add 0 (map int_cell l))) →
                    ∃ v, sum_cells acc' l = Ok v ∧ integral bits v ∧
                         (v = VNull → acc = VNull) ∧
                         int_cell v
                         = wrap bits (int_cell acc +
                             (int_cell x + foldr Z.add 0 (map int_cell l))))
      as Hstep.
    { intros acc' Hacc' Hw' Hne Heq.
      destruct (IH acc' Hacc' Hw') as (v & Hv & Hint & Hnull & Hsum).
      exists v. split; [assumption|]. split; [assumption|].
      split; [|congruence]. intros ->. by destruct Hne; apply Hnull. }
    destruct x as [| |b| | | | |b]; try contradiction; cbn [integral] in Hx.
    + destruct (IH acc Hacc Hw) as (v & Hv & Hint & Hnull & Hsum).
      exists v. cbn [sum_cells]. split; [by destruct acc|].
      split; [assumption|]. split; [assumption|]. by rewrite Hsum.
    + subst bits.
      destruct acc as [| |a| | | | |a]; try contradiction;
        cbn [integral] in Hacc; try discriminate; cbn [sum_cells int_cell].
      * apply Hstep; [reflexivity|cbn; by rewrite wrap_wrap|discriminate|].
        cbn [int_cell]. rewrite wrap_add by lia. f_equal.
      * apply Hstep; [reflexivity|cbn; by rewrite wrap_wrap|discriminate|].
        cbn [int_cell]. rewrite wrap_add by lia. f_equal. lia.
    + subst bits.
      destruct acc as [| |a| | | | |a]; try contradiction;
        cbn [integral] in Hacc; try discriminate; cbn [sum_cells int_cell].
      * apply Hstep; [reflexivity|cbn; by rewrite wrap_wrap|discriminate|].
        cbn [int_cell]. rewrite wrap_add by lia. f_equal.
      * apply Hstep; [reflexivity|cbn; by rewrite wrap_wrap|discriminate|].
        cbn [int_cell]. rewrite wrap_add by lia. f_equal. lia.
Qed.

(** The cell [pl.col(m).sum()] gives for a group of integer cells of one
    width. *)
Lemma sum_eval_wrap bits m g v :
  bits = 32 ∨ bits = 64 →
  (∀ r, r ∈ g → integral bits (cell m r)) →
  agg_eval (sum m) g = Ok v →
  int_value v = Some (wrap bits (column_sum m g)).
Proof.
  intros Hbits Hint. cbn [sum agg_eval].
  assert (0 < bits) as Hpos by (destruct Hbits; subst; lia).
  destruct (sum_cells_wrap bits VNull (map (cell m) g) Hbits I)
    as (x & -> & Hx & _ & Hsum).
  { cbn [int_cell]. apply wrap_small; [assumption|].
    assert (0 < 2 ^ (bits - 1)) by (apply Z.pow_pos_nonneg; lia). lia. }
  { apply Forall_forall. intros y Hy.
    apply list_elem_of_fmap in Hy as (r & -> & Hr). by apply Hint. }
  cbn [mbind result_mbind result_bind]. intros [= <-].
  cbn [int_cell] in Hsum. rewrite Z.add_0_l, map_map in Hsum.
  unfold column_sum. rewrite <- Hsum.
  destruct x as [| |z| | | | |z]; try contradiction; cbn in *;
    try reflexivity.
Qed.

(** How a fact row comes from its group. *)
Lemma fact_row by_ aggs g k r :
  NoDup (by_ ++ map agg_name aggs) →
  g ≠ [] → (∀ x, x ∈ g → group_key by_ x = k) →
  LazyFrame.group_row by_ aggs g = Ok r →
  group_key by_ r = k ∧
  (∀ a, a ∈ aggs → agg_eval a g = Ok (cell (agg_name a) r)).
Proof.
  intros Hnd Hne Hk H. destruct (group_row_cells _ _ _ _ Hnd H) as [Hby Haggs].
  split; [|assumption].
  destruct g as [|x g]; [contradiction|]. simpl in Hby.
  rewrite <- (Hk x) by left. unfold group_key.
  apply map_ext_in. intros c Hc. f_equal. apply Hby. by apply list_elem_of_In.
Qed.

Lemma aggregate_stats_rows df out :
  GoldProcessor._aggregate_stats df = Ok out →
  ∃ q, rows out ≡ₚ q ∧
       Forall2 (λ kg r,
                  group_key GoldProcessor.group_cols r = kg.1 ∧
                  kg.2 ≠ [] ∧
                  kg.2 = filter (λ x, group_key GoldProcessor.group_cols x = kg.1)
                                (rows df) ∧
                  cell "total_accidents" r = VInt (Z.of_nat (length kg.2)) ∧
                  ∀ m, m ∈ GoldProcessor.METRIC_COLS →
                       agg_eval (sum m) kg.2 = Ok (cell m r))
               (groups_of GoldProcessor.group_cols (rows df)) q.
Proof.
  intros H. unfold GoldProcessor._aggregate_stats in H. inv_bind H.
  apply sort_Ok in H as (_ & Hperm & _).
  apply group_by_agg_full in Ha as (Hnd & _ & Hrows).
  exists (rows a). split; [assumption|].
  pose proof (groups_of_keyed GoldProcessor.group_cols (rows df)) as Hkeyed.
  pose proof (groups_of_filter GoldProcessor.group_cols (rows df)) as Hfilter.
  rewrite Forall_forall in Hkeyed, Hfilter.
  eapply Forall2_impl_elem_of; [exact Hrows|]. cbv beta.
  intros kg r Hkg Hrow.
  destruct (Hkeyed kg Hkg) as [Hne Hk].
  destruct (fact_row _ _ _ _ _ Hnd Hne Hk Hrow) as [Hkey Haggs].
  split; [assumption|]. split; [assumption|].
  split; [by apply Hfilter|]. split.
  - assert (agg_eval (agg_alias "total_accidents" len) kg.2
            = Ok (cell "total_accidents" r)) as Hlen
      by (apply (Haggs (agg_alias "total_accidents" len)); left).
    simpl in Hlen. by injection Hlen as <-.
  - intros m Hm.
    apply (Haggs (sum m)). right. apply list_elem_of_fmap. by exists m.
Qed.

(** X6.  Whenever [_aggregate_stats] returns, there is exactly one fact
    row for each grouping key that occurs in the enriched table: no two
    fact rows have the same key, every enriched row has the key of a fact
    row, and for every fact row the enriched rows of its key are at
    least one, [total_accidents] is their number, and every metric column
    whose cells in these rows are integers of one width (32 bits, as the
    silver layer writes them, or 64) or null holds an integer, their sum
    after wrap-around in that width, null counting as 0: the exact sum
    when it fits the width. *)
Theorem aggregate_stats_per_key df out :
  GoldProcessor._aggregate_stats df = Ok out →
  NoDup (map (group_key GoldProcessor.group_cols) (rows out)) ∧
  (∀ r, r ∈ rows df →
        ∃ g, g ∈ rows out ∧
             group_key GoldProcessor.group_cols g
             = group_key GoldProcessor.group_cols r) ∧
  (∀ g, g ∈ rows out →
        same_group g df ≠ [] ∧
        cell "total_accidents" g = VInt (Z.of_nat (length (same_group g df))) ∧
        ∀ m bits, m ∈ GoldProcessor.METRIC_COLS → bits = 32 ∨ bits = 64 →
             (∀ r, r ∈ same_group g df → integral bits (cell m r)) →
             int_value (cell m g)
             = Some (wrap bits (column_sum m (same_group g df))) ∧
             (- 2 ^ (bits - 1) <= column_sum m (same_group g df)
                               < 2 ^ (bits - 1) →
              int_value (cell m g) = Some (column_sum m (same_group g df)))).
Proof.
  intros H. destruct (aggregate_stats_rows _ _ H) as (q & Hperm & Hrows).
  split; [|split].
  - rewrite Hperm.
    assert (map (group_key GoldProcessor.group_cols) q
            = map fst (groups_of GoldProcessor.group_cols (rows df))) as ->.
    { clear -Hrows. induction Hrows as [|kg r gs rs (Hk & _) _ IH];
        [reflexivity|]. cbn [map]. by f_equal. }
    apply groups_of_NoDup.
  - intros r Hr.
    destruct (groups_of_covers GoldProcessor.group_cols _ _ Hr) as (g & Hg & _).
    destruct (Forall2_elem_of_l _ _ _ _ Hrows Hg) as (r' & Hr' & Hk & _).
    exists r'. split; [by rewrite Hperm|assumption].
  - intros g Hg. rewrite Hperm in Hg.
    destruct (Forall2_elem_of_r _ _ _ _ Hrows Hg)
      as (kg & _ & Hk & Hne & Hf & Hlen & Hsum).
    unfold same_group. rewrite Hk, <- Hf.
    split; [assumption|]. split; [assumption|].
    intros m bits Hm Hbits Hint. specialize (Hsum m Hm).
    pose proof (sum_eval_wrap bits m _ _ Hbits Hint Hsum) as Hv.
    split; [assumption|]. intros Hfit. rewrite Hv. f_equal.
    apply wrap_small; [destruct Hbits; subst; lia|assumption].
Qed.

Lemma aggregate_stats_per_key_witness :
  ∃ out, GoldProcessor._aggregate_stats Sample.enriched = Ok out ∧
         NoDup (map (group_key GoldProcessor.group_cols) (rows out)) ∧
         ∀ g, g ∈ rows out →
              cell "total_accidents" g
              = VInt (Z.of_nat (length (same_group g Sample.enriched))).
Proof.
  assert (is_ok (GoldProcessor._aggregate_stats Sample.enriched) = true) as Hb
    by (vm_compute; reflexivity).
  destruct (GoldProcessor._aggregate_stats Sample.enriched) as [out|e] eqn:Hok;
    [|discriminate].
  exists out. split; [reflexivity|].
  destruct (aggregate_stats_per_key _ _ Hok) as (Hnd & _ & Hrows).
  split; [assumption|]. intros g Hg. by destruct (Hrows g Hg) as (_ & ? & _).
Defined.

Lemma wrap_sum bits (f g : list Z) :
  0 < bits → Forall2 (λ x y, x = wrap bits y) f g →
  wrap bits (foldr Z.add 0 f) = wrap bits (foldr Z.add 0 g).
Proof.
  intros Hb. induction 1 as [|x y f g -> _ IH]; [reflexivity|].
  cbn [foldr]. rewrite wrap_add by assumption.
  rewrite (Z.add_comm y (foldr Z.add 0 f)), (Z.add_comm y (foldr Z.add 0 g)).
  rewrite <- (wrap_add bits (foldr Z.add 0 f)) by assumption.
  rewrite <- (wrap_add bits (foldr Z.add 0 g)) by assumption.
  by rewrite IH.
Qed.

(** X7.  Whenever [_aggregate_stats] returns, every metric column whose
    cells in the enriched table are integers of one width (32 or 64
    bits) or null has the same total in the fact table as in the
    enriched table up to wrap-around in that width, and exactly the same
    total when the sum of every group fits the width: then no injury or
    death is lost or counted twice. *)
Theorem aggregate_stats_metric_totals df out m bits :
  GoldProcessor._aggregate_stats df = Ok out →
  m ∈ GoldProcessor.METRIC_COLS → bits = 32 ∨ bits = 64 →
  (∀ r, r ∈ rows df → integral bits (cell m r)) →
  wrap bits (column_sum m (rows out)) = wrap bits (column_sum m (rows df)) ∧
  ((∀ g, g ∈ rows out →
         - 2 ^ (bits - 1) <= column_sum m (same_group g df) < 2 ^ (bits - 1)) →
   column_sum m (rows out) = column_sum m (rows df)).
Proof.
  intros H Hm Hbits Hint.
  assert (0 < bits) as Hpos by (destruct Hbits; subst; lia).
  destruct (aggregate_stats_rows _ _ H) as (q & Hperm & Hrows).
  assert (Forall2 (λ x kg, x = wrap bits (column_sum m kg.2) ∧
                           ∃ g, g ∈ rows out ∧ kg.2 = same_group g df)
                  (map (λ r, int_cell (cell m r)) q)
                  (groups_of GoldProcessor.group_cols (rows df))) as Hcells.
  { assert (∀ r, r ∈ q → r ∈ rows out) as Hin
      by (intros r Hr; by rewrite Hperm).
    clear Hperm.
    induction Hrows as [|kg r gs rs (Hk & _ & Hf & _ & Hsum) _ IH];
      [constructor|].
    cbn [map]. constructor.
    - specialize (Hsum m Hm).
      apply (sum_eval_wrap bits) in Hsum; [|assumption|].
      + split.
        * destruct (cell m r); try discriminate; cbn in *; congruence.
        * exists r. split; [apply Hin; left|].
          unfold same_group. by rewrite Hk.
      + intros x Hx. apply Hint. rewrite Hf in Hx.
        by apply list_elem_of_filter in Hx as [_ ?].
    - apply IH. intros x Hx. apply Hin. by right. }
  assert (column_sum m (rows out)
          = foldr Z.add 0 (map (λ r, int_cell (cell m r)) q)) as Hout.
  { unfold column_sum. apply sum_Permutation. by rewrite Hperm. }
  assert (column_sum m (rows df)
          = foldr Z.add 0 (map (λ kg, column_sum m kg.2)
                               (groups_of GoldProcessor.group_cols (rows df))))
    as Hdf.
  { unfold column_sum.
    by rewrite <- (groups_of_weight (λ r, int_cell (cell m r))
                     GoldProcessor.group_cols (rows df)). }
  rewrite Hout, Hdf. split.
  - apply wrap_sum; [assumption|].
    apply Forall2_fmap_r. eapply Forall2_impl; [exact Hcells|].
    cbv beta. by intros x kg [-> _].
  - intros Hfit. f_equal. revert Hcells.
    generalize (map (λ r, int_cell (cell m r)) q).
    generalize (groups_of GoldProcessor.group_cols (rows df)).
    intros gs xs Hcells.
    induction Hcells as [|x kg xs gs [-> (g & Hg & Hkg)] _ IH];
      [reflexivity|].
    cbn [map]. f_equal; [|exact IH].
    apply wrap_small; [assumption|]. rewrite Hkg. by apply Hfit.
Qed.

Lemma aggregate_stats_metric_totals_witness :
  ∃ out, GoldProcessor._aggregate_stats Sample.enriched = Ok out ∧
         wrap 64 (column_sum "number_of_persons_injured" (rows out))
         = wrap 64 (column_sum "number_of_persons_injured"
                      (rows Sample.enriched)).
Proof.
  assert (is_ok (GoldProcessor._aggregate_stats Sample.enriched) = true) as Hb
    by (vm_compute; reflexivity).
  destruct (GoldProcessor._aggregate_stats Sample.enriched) as [out|e] eqn:Hok;
    [|discriminate].
  exists out. split; [reflexivity|].
  apply (aggregate_stats_metric_totals _ _ _ 64 Hok);
    [apply list_elem_of_here|by right|].
  assert (forallb (λ r, match cell "number_of_persons_injured" r with
                        | VNull | VInt _ => true
                        | _ => false
                        end) (rows Sample.enriched) = true) as Hall
    by (vm_compute; reflexivity).
  intros r Hr. rewrite forallb_forall in Hall.
  specialize (Hall r (proj1 (list_elem_of_In _ _) Hr)).
  unfold integral. by destruct (cell _ r).
Defined.

(** ** From the enrichment to the aggregation *)

Lemma enrich_columns c h w out k :
  GoldProcessor._enrich_collisions c h w = Ok out →
  k ∈ columns c → k ∈ columns out.
Proof.
  intros H Hk.
  destruct (enrich_stages _ _ _ _ H) as (wc & q1 & q2 & _ & Hq1 & Hq2 & Hout).
  destruct (join_left_Ok _ _ _ _ Hq1) as (_ & _ & _ & Hc1 & _).
  destruct (join_left_Ok _ _ _ _ Hq2) as (_ & _ & _ & Hc2 & _).
  rewrite (with_columns_columns _ _ _ Hout), Hc2, Hc1.
  do 3 (apply elem_of_app; left). exact Hk.
Qed.

Lemma enrich_has_date c h w out :
  GoldProcessor._enrich_collisions c h w = Ok out → "date" ∈ columns c.
Proof.
  intros H.
  destruct (enrich_stages _ _ _ _ H) as (wc & q1 & q2 & _ & Hq1 & _).
  by destruct (join_left_Ok _ _ _ _ Hq1) as (? & _).
Qed.

Lemma enrich_derived_columns c h w out k :
  GoldProcessor._enrich_collisions c h w = Ok out →
  k ∈ map output_name GoldProcessor.derived_columns → k ∈ columns out.
Proof.
  intros H Hk.
  destruct (enrich_stages _ _ _ _ H) as (wc & q1 & q2 & _ & _ & _ & Hout).
  apply list_elem_of_fmap in Hk as (e & -> & He).
  by eapply with_columns_has.
Qed.

(** Every enriched row carries the cells of a kept collision row. *)
Lemma enrich_row_origin c h w out r :
  GoldProcessor._enrich_collisions c h w = Ok out → r ∈ rows out →
  ∃ lr, lr ∈ rows c ∧ in_window lr = true ∧
        ∀ k, k ∈ columns c →
             k ∉ map output_name GoldProcessor.derived_columns →
             r !! k = lr !! k.
Proof.
  intros H Hr.
  destruct (enrich_stages _ _ _ _ H) as (wc & q1 & q2 & _ & Hq1 & Hq2 & Hout).
  destruct (out_chain _ _ _ _ _ _ Hq1 Hq2 Hout r Hr) as (lr & r1 & r2 & Hch).
  exists lr. split; [apply Hch|]. split; [apply Hch|].
  intros k Hk Hd. eapply chain_left; eassumption.
Qed.

Lemma aggregate_stats_total df :
  aggregable df → ∃ out, GoldProcessor._aggregate_stats df = Ok out.
Proof.
  intros [Hcols Hcells].
  unfold GoldProcessor._aggregate_stats, LazyFrame.group_by_agg.
  assert (check_columns (columns df)
            (GoldProcessor.group_cols ++
             concat (map agg_roots (agg_alias "total_accidents" len ::
                                    map sum GoldProcessor.METRIC_COLS)))
          = Ok tt) as -> by (apply check_columns_Ok; exact Hcols).
  simpl mbind at 1.
  assert (is_ok (mapR (λ kg, LazyFrame.group_row GoldProcessor.group_cols
                               (agg_alias "total_accidents" len ::
                                map sum GoldProcessor.METRIC_COLS) kg.2)
                   (groups_of GoldProcessor.group_cols (rows df))) = true) as Hb.
  { apply mapR_is_ok, Forall_forall. intros [k g] Hg.
    unfold LazyFrame.group_row.
    cbn [snd agg_cells agg_alias agg_eval len agg_name].
    pose proof (agg_cells_sums_is_ok GoldProcessor.METRIC_COLS g) as Hs.
    destruct (agg_cells (map sum GoldProcessor.METRIC_COLS) g);
      [reflexivity|].
    discriminate Hs. intros r m Hr Hm. apply Hcells; [|assumption].
    eapply groups_of_elem; eassumption. }
  destruct (mapR _ _) as [rs|]; [|discriminate].
  eexists. reflexivity.
Qed.

(** X8.  The enrichment feeds the aggregation: whenever
    [_enrich_collisions] returns on a collisions table that has the
    locality, weekend and metric columns with numeric or null metric
    cells, the enriched table has every grouping and metric column, its
    metric cells are numbers or null, and [_aggregate_stats] returns on
    it. *)
Theorem enrich_then_aggregate c h w out :
  GoldProcessor._enrich_collisions c h w = Ok out →
  (∀ k, k ∈ ["borough"; "zip_code"; "is_weekend"] ++ GoldProcessor.METRIC_COLS →
        k ∈ columns c) →
  (∀ r m, r ∈ rows c → m ∈ GoldProcessor.METRIC_COLS → summable (cell m r)) →
  aggregable out ∧ ∃ gold, GoldProcessor._aggregate_stats out = Ok gold.
Proof.
  intros H Hcols Hcells.
  assert (aggregable out) as Hagg.
  { split.
    - intros k Hk. apply elem_of_app in Hk as [Hk|Hk].
      + unfold GoldProcessor.group_cols in Hk.
        apply elem_of_cons in Hk as [->|Hk];
          [eapply enrich_columns, enrich_has_date; eassumption|].
        do 3 (apply elem_of_cons in Hk as [->|Hk];
              [eapply enrich_columns; [eassumption|apply Hcols; compute_done]|]).
        eapply enrich_derived_columns; [eassumption|].
        rewrite derived_names. exact Hk.
      + eapply enrich_columns; [eassumption|]. apply Hcols.
        apply elem_of_app. by right.
    - intros r m Hr Hm.
      destruct (enrich_row_origin _ _ _ _ _ H Hr) as (lr & Hlr & _ & Hsame).
      unfold cell. rewrite (Hsame m).
      + by apply Hcells.
      + apply Hcols. apply elem_of_app. by right.
      + rewrite derived_names. intros Hin.
        unfold GoldProcessor.METRIC_COLS in Hm.
        repeat (apply elem_of_cons in Hm as [->|Hm];
                [revert Hin; compute_done|]).
        inversion Hm. }
  split; [assumption|]. by apply aggregate_stats_total.
Qed.

Lemma sample_enrich_Ok :
  ∃ out, GoldProcessor._enrich_collisions Sample.collisions Sample.holidays
           Sample.weather = Ok out.
Proof.
  assert (is_ok (GoldProcessor._enrich_collisions Sample.collisions
                   Sample.holidays Sample.weather) = true) as Hb
    by (vm_compute; reflexivity).
  destruct (GoldProcessor._enrich_collisions _ _ _) as [out|e];
    [by exists out|discriminate].
Qed.

Lemma enrich_then_aggregate_witness :
  ∃ out gold,
    GoldProcessor._enrich_collisions Sample.collisions Sample.holidays
      Sample.weather = Ok out ∧
    GoldProcessor._aggregate_stats out = Ok gold.
Proof.
  destruct sample_enrich_Ok as [out Hok]. exists out.
  assert (∀ k, k ∈ ["borough"; "zip_code"; "is_weekend"] ++
                   GoldProcessor.METRIC_COLS → k ∈ columns Sample.collisions)
    as Hcols by (apply Forall_forall; compute_done).
  assert (∀ r m, r ∈ rows Sample.collisions → m ∈ GoldProcessor.METRIC_COLS →
                 summable (cell m r)) as Hcells.
  { assert (forallb (λ r, forallb (λ m, match cell m r with
                                        | VNull | VInt _ | VFloat _ => true
                                        | _ => false
                                        end) GoldProcessor.METRIC_COLS)
                    (rows Sample.collisions) = true) as Hall
      by (vm_compute; reflexivity).
    intros r m Hr Hm. rewrite forallb_forall in Hall.
    specialize (Hall r (proj1 (list_elem_of_In _ _) Hr)).
    rewrite forallb_forall in Hall.
    specialize (Hall m (proj1 (list_elem_of_In _ _) Hm)).
    unfold summable. by destruct (cell m r). }
  destruct (enrich_then_aggregate _ _ _ _ Hok Hcols Hcells) as [_ [gold Hgold]].
  exists gold. by split.
Defined.

(** X9.  The enrichment does not touch the collision data: whenever
    [_enrich_collisions] returns, every column of the collisions table
    is a column of the enriched table, and every enriched row comes from
    a collision row dated in 2020 or later whose cells it has in all
    these columns, but for the columns the enrichment computes itself. *)
Theorem enrich_keeps_collision_fields c h w out :
  GoldProcessor._enrich_collisions c h w = Ok out →
  (∀ k, k ∈ columns c → k ∈ columns out) ∧
  (∀ r, r ∈ rows out →
        ∃ lr, lr ∈ rows c ∧ in_window lr = true ∧
              ∀ k, k ∈ columns c →
                   k ∉ map output_name GoldProcessor.derived_columns →
                   cell k r = cell k lr).
Proof.
  intros H. split.
  - intros k Hk. by eapply enrich_columns.
  - intros r Hr.
    destruct (enrich_row_origin _ _ _ _ _ H Hr) as (lr & Hlr & Hw & Hsame).
    exists lr. split; [assumption|]. split; [assumption|].
    intros k Hk Hd. unfold cell. by rewrite (Hsame k Hk Hd).
Qed.

Lemma enrich_keeps_collision_fields_witness :
  ∃ out,
    GoldProcessor._enrich_collisions Sample.collisions Sample.holidays
      Sample.weather = Ok out ∧
    ∀ r, r ∈ rows out →
         ∃ lr, lr ∈ rows Sample.collisions ∧
               cell "borough" r = cell "borough" lr ∧
               cell "number_of_persons_injured" r
               = cell "number_of_persons_injured" lr.
Proof.
  destruct sample_enrich_Ok as [out Hok]. exists out. split; [assumption|].
  intros r Hr.
  destruct (enrich_keeps_collision_fields _ _ _ _ Hok) as [_ Hrows].
  destruct (Hrows r Hr) as (lr & Hlr & _ & Hsame).
  exists lr. split; [assumption|].
  split; apply Hsame; compute_done.
Defined.

(** ** The calendar *)

(** The year of the era and the day of the March-based year are read
    back from the day of the era. *)
Lemma doe_yoe yoe doy :
  0 <= yoe <= 399 → 0 <= doy <= 365 →
  (doy = 365 → (yoe + 1) mod 4 = 0 ∧ ((yoe + 1) mod 100 ≠ 0 ∨ yoe = 399)) →
  let doe := yoe * 365 + yoe / 4 - yoe / 100 + doy in
  0 <= doe <= 146096 ∧
  (doe - doe / 1460 + doe / 36524 - doe / 146096) / 365 = yoe.
Proof.
  intros Hy Hd Hleap. cbv zeta.
  Z.div_mod_to_equations; lia.
Qed.

Lemma doy_month mp d :
  0 <= mp <= 11 →
  1 <= d <= (153 * (mp + 1) + 2) / 5 - (153 * mp + 2) / 5 →
  let doy := (153 * mp + 2) / 5 + d - 1 in
  (5 * doy + 2) / 153 = mp ∧ 0 <= doy.
Proof.
  intros Hm Hd. cbv zeta. Z.div_mod_to_equations; lia.
Qed.

Lemma civil_from_days_parts era yoe mp d :
  0 <= yoe <= 399 → 0 <= mp <= 11 →
  1 <= d <= (153 * (mp + 1) + 2) / 5 - (153 * mp + 2) / 5 →
  (153 * mp + 2) / 5 + d - 1 <= 365 →
  ((153 * mp + 2) / 5 + d - 1 = 365 →
   (yoe + 1) mod 4 = 0 ∧ ((yoe + 1) mod 100 ≠ 0 ∨ yoe = 399)) →
  civil_from_days
    (era * 146097 +
     (yoe * 365 + yoe / 4 - yoe / 100 + ((153 * mp + 2) / 5 + d - 1))
     - 719468)
  = (if (if mp <? 10 then mp + 3 else mp - 9) <=? 2
     then yoe + era * 400 + 1 else yoe + era * 400,
     if mp <? 10 then mp + 3 else mp - 9, d).
Proof.
  intros Hy Hm Hd Hmax Hleap.
  destruct (doy_month mp d Hm Hd) as [Hmp Hdoy]. cbv zeta in Hmp, Hdoy.
  set (doy := (153 * mp + 2) / 5 + d - 1) in *.
  destruct (doe_yoe yoe doy Hy (conj Hdoy Hmax) Hleap) as [Hdoe Hyoe].
  cbv zeta in Hdoe, Hyoe.
  set (doe := yoe * 365 + yoe / 4 - yoe / 100 + doy) in *.
  unfold civil_from_days. cbv zeta.
  replace (era * 146097 + doe - 719468 + 719468) with (doe + era * 146097)
    by lia.
  rewrite Z.div_add by lia. rewrite (Z.div_small doe) by lia.
  replace (doe + era * 146097 - (0 + era) * 146097) with doe by lia.
  rewrite Hyoe.
  replace (doe - (365 * yoe + yoe / 4 - yoe / 100)) with doy
    by (subst doe; lia).
  rewrite Hmp. f_equal. subst doy. lia.
Qed.

Lemma is_leap_yoe y' :
  is_leap (y' + 1) = true →
  (y' - y' / 400 * 400 + 1) mod 4 = 0 ∧
  ((y' - y' / 400 * 400 + 1) mod 100 ≠ 0 ∨ y' - y' / 400 * 400 = 399).
Proof.
  unfold is_leap. intros H. apply orb_true_iff in H as [H|H].
  - apply andb_true_iff in H as [H4 H100]. apply Z.eqb_eq in H4.
    apply negb_true_iff, Z.eqb_neq in H100.
    split; [|left]; revert H4 H100; Z.div_mod_to_equations; lia.
  - apply Z.eqb_eq in H.
    split; [|right]; revert H; Z.div_mod_to_equations; lia.
Qed.

Lemma civil_round_trip y m d :
  1 <= m <= 12 → 1 <= d <= days_in_month y m →
  civil_from_days (days_from_civil y m d) = (y, m, d).
Proof.
  intros Hm Hd.
  set (y' := if m <=? 2 then y - 1 else y).
  set (mp := if 2 <? m then m - 3 else m + 9).
  assert (days_from_civil y m d
          = (y' / 400) * 146097 +
            ((y' - y' / 400 * 400) * 365 + (y' - y' / 400 * 400) / 4
             - (y' - y' / 400 * 400) / 100 + ((153 * mp + 2) / 5 + d - 1))
            - 719468) as -> by reflexivity.
  assert (0 <= y' - y' / 400 * 400 <= 399) as Hyoe
    by (Z.div_mod_to_equations; lia).
  assert (m = 1 ∨ m = 2 ∨ m = 3 ∨ m = 4 ∨ m = 5 ∨ m = 6 ∨ m = 7 ∨ m = 8 ∨
          m = 9 ∨ m = 10 ∨ m = 11 ∨ m = 12) as Hcases by lia.
  assert (0 <= mp <= 11 ∧
          1 <= d <= (153 * (mp + 1) + 2) / 5 - (153 * mp + 2) / 5 ∧
          (153 * mp + 2) / 5 + d - 1 <= 365 ∧
          ((153 * mp + 2) / 5 + d - 1 = 365 → m = 2 ∧ d = 29) ∧
          (if mp <? 10 then mp + 3 else mp - 9) = m) as (Hmp & Hlen & Hmax & Hfeb & Hback).
  { unfold days_in_month in Hd. subst mp.
    destruct Hcases as [->|[->|[->|[->|[->|[->|[->|[->|[->|[->|[->| ->]]]]]]]]]]];
      simpl in Hd |- *; try (destruct (is_leap y));
      try (destruct (bool_decide _) eqn:Hb in Hd;
           try (vm_compute in Hb; discriminate));
      Z.div_mod_to_equations; lia. }
  rewrite civil_from_days_parts; try assumption.
  - rewrite Hback. do 2 f_equal.
    subst y'. destruct (Z.leb_spec m 2); lia.
  - intros H365. destruct (Hfeb H365) as [-> ->].
    subst y'. simpl. unfold days_in_month in Hd. simpl in Hd.
    destruct (is_leap y) eqn:Hleap; [|lia].
    replace y with (y - 1 + 1) in Hleap by lia.
    exact (is_leap_yoe _ Hleap).
Qed.

(** ** Dates written in digits *)

Lemma digit_cases n :
  ∃ k, n mod 10 = k ∧
       (k = 0 ∨ k = 1 ∨ k = 2 ∨ k = 3 ∨ k = 4 ∨ k = 5 ∨ k = 6 ∨ k = 7 ∨
        k = 8 ∨ k = 9).
Proof. exists (n mod 10). split; [reflexivity|]. pose proof (Z.mod_pos_bound n 10). lia. Qed.

Ltac digit_case n :=
  unfold digit_char;
  destruct (digit_cases n) as (? & -> & [->|[->|[->|[->|[->|[->|[->|[->|[->| ->]]]]]]]]]).

Lemma digit_of_char n : digit_of (digit_char n) = Some (n mod 10).
Proof.
  unfold digit_char. destruct (digit_cases n) as (k & Hk & Hc). rewrite Hk.
  destruct Hc as [->|[->|[->|[->|[->|[->|[->|[->|[->| ->]]]]]]]]]; reflexivity.
Qed.

(** A digit is no white space and no sign. *)
Lemma strip_chars_start_digit n s :
  strip_chars_start (String (digit_char n) s) = String (digit_char n) s.
Proof.
  unfold digit_char. destruct (digit_cases n) as (k & Hk & Hc). rewrite Hk.
  destruct Hc as [->|[->|[->|[->|[->|[->|[->|[->|[->| ->]]]]]]]]];
    destruct s as [|b [|c s]]; reflexivity.
Qed.

Lemma take_number_digit w n s acc got :
  take_number (S w) (String (digit_char n) s) acc got
  = take_number w s (10 * acc + n mod 10) true.
Proof. cbn [take_number]. by rewrite digit_of_char. Qed.

Lemma take_number_stop w a s acc :
  digit_of a = None →
  take_number w (String a s) acc true = Some (acc, String a s).
Proof. intros H. destruct w; cbn [take_number]; [reflexivity|]. by rewrite H. Qed.

Lemma take_number_end w acc : take_number w "" acc true = Some (acc, "").
Proof. by destruct w. Qed.

Lemma scan_number_digit signed w n s :
  scan_number signed w (String (digit_char n) s)
  = take_number w (String (digit_char n) s) 0 false.
Proof.
  unfold scan_number. rewrite strip_chars_start_digit.
  unfold digit_char. destruct (digit_cases n) as (k & Hk & Hc). rewrite Hk.
  destruct Hc as [->|[->|[->|[->|[->|[->|[->|[->|[->| ->]]]]]]]]];
    destruct signed; reflexivity.
Qed.

Lemma scan_two_digits signed n s :
  0 <= n <= 99 →
  (s = "" ∨ ∃ a s', s = String a s' ∧ digit_of a = None) →
  scan_number signed 2 (two_digits n +:+ s) = Some (n, s).
Proof.
  intros Hn Hs. unfold two_digits. rewrite !app_cons, app_empty.
  rewrite scan_number_digit, !take_number_digit.
  assert (10 * (10 * 0 + (n / 10) mod 10) + n mod 10 = n) as ->
    by (Z.div_mod_to_equations; lia).
  destruct Hs as [->|(a & s' & -> & Ha)]; reflexivity.
Qed.

Lemma scan_four_digits n s :
  0 <= n <= 9999 →
  scan_number true 4 (four_digits n +:+ s) = Some (n, s).
Proof.
  intros Hn. unfold four_digits, two_digits. rewrite !app_cons, app_empty.
  rewrite scan_number_digit, !take_number_digit.
  assert (10 * (10 * (10 * (10 * 0 + (n / 1000) mod 10) + (n / 100) mod 10)
                + (n / 10) mod 10) + n mod 10 = n) as ->
    by (Z.div_mod_to_equations; lia).
  by destruct s.
Qed.

(** The year-month-day text of a date is read as that date. *)
Lemma scan_iso_date y m d :
  0 <= y <= 9999 → 0 <= m <= 99 → 0 <= d <= 99 →
  scan_date (parse_format "%Y-%m-%d") (iso_date y m d) None None None
  = Some (Some y, Some m, Some d).
Proof.
  intros Hy Hm Hd. unfold iso_date.
  change (parse_format "%Y-%m-%d")
    with [FYear; FLit "-"%char; FMonth; FLit "-"%char; FDay].
  cbn [scan_date]. rewrite scan_four_digits by assumption.
  cbn [mbind option_bind]. rewrite app_cons, app_empty.
  change (bool_decide ("-"%char = "-"%char)) with true. cbv iota.
  rewrite scan_two_digits; [|assumption|right; by eexists _, _].
  cbn [mbind option_bind]. rewrite app_cons, app_empty. cbv beta iota.
  change (bool_decide ("-"%char = "-"%char)) with true. cbv iota.
  rewrite <- (app_nil (two_digits d)).
  rewrite scan_two_digits; [|assumption|by left].
  reflexivity.
Qed.

Lemma scan_us_date m d y :
  0 <= y <= 9999 → 0 <= m <= 99 → 0 <= d <= 99 →
  scan_date (parse_format "%m/%d/%Y") (us_date m d y) None None None
  = Some (Some y, Some m, Some d).
Proof.
  intros Hy Hm Hd. unfold us_date.
  change (parse_format "%m/%d/%Y")
    with [FMonth; FLit "/"%char; FDay; FLit "/"%char; FYear].
  cbn [scan_date].
  rewrite scan_two_digits; [|assumption|right; by eexists _, _].
  cbn [mbind option_bind]. rewrite app_cons, app_empty.
  change (bool_decide ("/"%char = "/"%char)) with true. cbv iota.
  rewrite scan_two_digits; [|assumption|right; by eexists _, _].
  cbn [mbind option_bind]. rewrite app_cons, app_empty. cbv beta iota.
  change (bool_decide ("/"%char = "/"%char)) with true. cbv iota.
  rewrite <- (app_nil (four_digits y)).
  rewrite scan_four_digits by assumption.
  reflexivity.
Qed.

(** A text that the strict reader takes as year [y], month [m] and day
    [d] names a day that exists, the date is that day, and the year and
    the month of the date are the ones written. *)
Lemma to_date_fields fmt s y m d v :
  scan_date (parse_format fmt) s None None None = Some (Some y, Some m, Some d) →
  str_to_date_v fmt (VStr s) = Ok v →
  (1 <= m <= 12 ∧ 1 <= d <= days_in_month y m) ∧
  v = VDate (days_from_civil y m d) ∧
  dt_year_v v = Ok (VInt32 y) ∧ dt_month_v v = Ok (VInt m).
Proof.
  intros Hs. cbn [str_to_date_v]. unfold strptime_date. rewrite Hs.
  cbn [mbind option_bind]. unfold make_date.
  destruct ((MIN_YEAR <=? y) && (y <=? MAX_YEAR) && (1 <=? m) && (m <=? 12) &&
            (1 <=? d) && (d <=? days_in_month y m)) eqn:Hc; [|discriminate].
  intros [= <-].
  repeat (apply andb_true_iff in Hc as [Hc ?]).
  assert (1 <= m <= 12) as Hm by lia.
  assert (1 <= d <= days_in_month y m) as Hd by lia.
  split; [by split|]. split; [reflexivity|].
  unfold dt_year_v, dt_month_v, dt_v, year_of, month_of.
  by rewrite (civil_round_trip y m d Hm Hd).
Qed.

(** ** The columns the collisions transform computes *)

Lemma weekend_weekday d : (6 <=? weekday_of d) = weekend d.
Proof.
  unfold weekday_of, weekend.
  destruct (Z.leb_spec 6 ((d + 3) mod 7 + 1)) as [H|H];
    destruct (Z.eqb_spec (d mod 7) 2) as [H2|H2];
    destruct (Z.eqb_spec (d mod 7) 3) as [H3|H3];
    simpl; try reflexivity; exfalso; revert H; try revert H2; try revert H3;
    Z.div_mod_to_equations; lia.
Qed.

Lemma calendar_eval r v_year v_month v_weekend :
  eval (alias "year" (dt_year (col "date"))) r = Ok v_year →
  eval (alias "month" (dt_month (col "date"))) r = Ok v_month →
  eval (alias "is_weekend" (ge_lit (dt_weekday (col "date")) (VInt 6))) r
    = Ok v_weekend →
  dated (cell "date" r) v_year v_month v_weekend.
Proof.
  cbn [alias dt_year dt_month dt_weekday ge_lit col map_expr eval
       mbind result_mbind result_bind].
  unfold dated. destruct (cell "date" r) as [| | | | |d| |]; cbn;
    try discriminate.
  - by intros [= <-] [= <-] [= <-].
  - intros [= <-] [= <-] [= <-]. split; [reflexivity|]. split; [reflexivity|].
    rewrite <- weekend_weekday. rewrite Z.leb_compare, (Z.compare_antisym 6).
    by destruct (6 ?= weekday_of d).
Qed.

Lemma cast_int32_filled v x :
  cast_int32_v true (if is_null v then VInt 0 else v) = Ok x →
  ∃ z, x = VInt32 z ∧ in_int32 z = true.
Proof.
  destruct v as [|b|z|f|s|d|l|z]; simpl; try discriminate.
  - intros [= <-]. by exists 0.
  - intros [= <-]. exists (if b then 1 else 0). by destruct b.
  - destruct (in_int32 z) eqn:Hz; [|discriminate]. intros [= <-]. eauto.
  - destruct (f64_trunc f) as [z|]; [|discriminate].
    destruct (in_int32 z) eqn:Hz; [|discriminate]. intros [= <-]. eauto.
  - destruct (parse_int s) as [z|]; [|discriminate].
    destruct (in_int32 z) eqn:Hz; [|discriminate]. intros [= <-]. eauto.
  - destruct (in_int32 z) eqn:Hz; [|discriminate]. intros [= <-]. eauto.
Qed.

Lemma calendar_names :
  map output_name SilverProcessor.calendar = ["is_weekend"; "year"; "month"].
Proof. reflexivity. Qed.

Lemma collisions_query_cells self lf df r :
  SilverProcessor.collisions_query self lf = Ok df → r ∈ rows df →
  is_null (cell "borough" r) = false ∧
  (∀ m, m ∈ SilverProcessor.metric_cols self →
        m ∉ ["is_weekend"; "year"; "month"] →
        ∃ z, cell m r = VInt32 z ∧ in_int32 z = true) ∧
  dated (cell "date" r) (cell "year" r) (cell "month" r) (cell "is_weekend" r) ∧
  ("crash_date" ∉ recomputed self →
   str_to_date_v "%m/%d/%Y" (cell "crash_date" r) = Ok (cell "date" r)).
Proof.
  unfold SilverProcessor.collisions_query. intros H Hr. do 4 inv_bind H.
  apply with_columns_cells in Ha2, H.
  destruct (Forall2_elem_of_r _ _ _ _ H Hr) as (r4 & Hr4 & Hcal & Hkeep).
  destruct (Forall2_elem_of_r _ _ _ _ Ha2 Hr4) as (r3 & _ & Hclean & Hkeep3).
  rewrite calendar_names in Hkeep.
  assert (∀ k, k ∉ ["is_weekend"; "year"; "month"] → cell k r = cell k r4)
    as Hsame by (intros k Hk; unfold cell; by rewrite Hkeep).
  split; [|split; [|split]].
  - rewrite Hsame by compute_done.
    assert (eval (fill_null (VStr "UNKNOWN") (col "borough")) r3
            = Ok (cell "borough" r4)) as Hb.
    { apply (Hclean (fill_null (VStr "UNKNOWN") (col "borough"))).
      unfold SilverProcessor.cleaned. apply elem_of_app. left.
      apply list_elem_of_further, list_elem_of_here. }
    simpl in Hb. injection Hb as <-. by destruct (cell "borough" r3).
  - intros m Hm Hn. rewrite (Hsame m Hn).
    assert (eval (cast_int32 true (fill_null (VInt 0) (col m))) r3
            = Ok (cell m r4)) as Hc.
    { apply (Hclean (cast_int32 true (fill_null (VInt 0) (col m)))).
      unfold SilverProcessor.cleaned. apply elem_of_app. right.
      apply list_elem_of_fmap. by exists m. }
    simpl in Hc. by apply cast_int32_filled in Hc.
  - rewrite (Hsame "date") by compute_done.
    apply calendar_eval.
    + apply (Hcal (alias "year" (dt_year (col "date")))).
      unfold SilverProcessor.calendar.
      apply list_elem_of_further, list_elem_of_here.
    + apply (Hcal (alias "month" (dt_month (col "date")))).
      unfold SilverProcessor.calendar.
      do 2 apply list_elem_of_further. apply list_elem_of_here.
    + apply (Hcal (alias "is_weekend" (ge_lit (dt_weekday (col "date")) (VInt 6)))).
      unfold SilverProcessor.calendar. apply list_elem_of_here.
  - intros Hn. unfold recomputed in Hn. rewrite map_app, not_elem_of_app in Hn.
    destruct Hn as [Hn3 Hn4]. rewrite calendar_names in Hn4.
    rewrite (Hsame "crash_date" Hn4), (Hsame "date") by compute_done.
    assert (cell "crash_date" r4 = cell "crash_date" r3) as ->
      by (unfold cell; by rewrite (Hkeep3 _ Hn3)).
    apply (Hclean (alias "date" (str_to_date "%m/%d/%Y" (col "crash_date")))).
    unfold SilverProcessor.cleaned. apply elem_of_app. left.
    apply list_elem_of_here.
Qed.

(** X10.  Whenever [process_collisions] returns, in every row of its
    table the borough is not null, every metric column of the
    configuration that is not named is_weekend, year or month (names the
    transform computes afterwards) holds a 32-bit integer, never null,
    the date is a date or null, and [year], [month] and [is_weekend] are
    the year, the month and the Saturday or Sunday test of that date
    (null for a null date). *)
Theorem process_collisions_columns self input p w df p' w' :
  SilverProcessor.process_collisions self input p w = (Ok (df, p'), w') →
  ∀ r, r ∈ rows df →
       is_null (cell "borough" r) = false ∧
       (∀ m, m ∈ SilverProcessor.metric_cols self →
             m ∉ ["is_weekend"; "year"; "month"] →
             ∃ z, cell m r = VInt32 z ∧ - 2 ^ 31 <= z < 2 ^ 31) ∧
       dated (cell "date" r) (cell "year" r) (cell "month" r)
             (cell "is_weekend" r).
Proof.
  intros H r Hr. apply process_collisions_Ok in H as (lf & _ & Hq & _).
  destruct (collisions_query_cells _ _ _ _ Hq Hr) as (Hb & Hm & Hd & _).
  split; [assumption|]. split; [|assumption].
  intros m Hin Hn. destruct (Hm m Hin Hn) as (z & Hz & Hr32).
  exists z. split; [assumption|]. unfold in_int32 in Hr32.
  apply andb_true_iff in Hr32 as [H1 H2]. lia.
Qed.

Lemma process_collisions_columns_witness :
  ∃ df p w',
    SilverProcessor.process_collisions Sample.config
      (DataFrame Sample.raw_collisions) Sample.silver_path Sample.empty_world
      = (Ok (df, p), w') ∧
    ∀ r, r ∈ rows df →
         is_null (cell "borough" r) = false ∧
         dated (cell "date" r) (cell "year" r) (cell "month" r)
               (cell "is_weekend" r).
Proof.
  assert (is_ok (SilverProcessor.process_collisions Sample.config
                   (DataFrame Sample.raw_collisions) Sample.silver_path
                   Sample.empty_world).1 = true) as Hb
    by (vm_compute; reflexivity).
  destruct (SilverProcessor.process_collisions _ _ _ _)
    as [[[df p]|e] w'] eqn:Hrun; [|discriminate].
  exists df, p, w'. split; [reflexivity|]. intros r Hr.
  destruct (process_collisions_columns _ _ _ _ _ _ _ Hrun r Hr)
    as (Hb' & _ & Hd).
  by split.
Defined.

(** X13.  Whenever [process_collisions] returns and the configuration
    leaves the crash date text in place, a row whose crash date is
    written MM/DD/YYYY, in two, two and four digits, names a day that
    exists, its date is that day, and its [year] and [month] (the
    partition it is stored under) are the year and the month written. *)
Theorem process_collisions_partition self input p w df p' w' r y m d :
  SilverProcessor.process_collisions self input p w = (Ok (df, p'), w') →
  "crash_date" ∉ recomputed self →
  r ∈ rows df →
  0 <= y <= 9999 → 0 <= m <= 99 → 0 <= d <= 99 →
  cell "crash_date" r = VStr (us_date m d y) →
  (1 <= m <= 12 ∧ 1 <= d <= days_in_month y m) ∧
  cell "date" r = VDate (days_from_civil y m d) ∧
  cell "year" r = VInt32 y ∧ cell "month" r = VInt m ∧
  civil_from_days (days_from_civil y m d) = (y, m, d).
Proof.
  intros H Hn Hr Hy Hm Hd Hs.
  apply process_collisions_Ok in H as (lf & _ & Hq & _).
  destruct (collisions_query_cells _ _ _ _ Hq Hr) as (_ & _ & Hdated & Hdate).
  specialize (Hdate Hn). rewrite Hs in Hdate.
  destruct (to_date_fields _ _ _ _ _ _ (scan_us_date m d y Hy Hm Hd) Hdate)
    as ([Hm' Hd'] & Hv & Hyear & Hmonth).
  rewrite Hv in Hdated, Hyear, Hmonth |- *. cbn [dated] in Hdated.
  destruct Hdated as (Hyr & Hmr & _).
  unfold dt_year_v, dt_month_v, dt_v in Hyear, Hmonth.
  injection Hyear as Hyear. injection Hmonth as Hmonth.
  split; [by split|]. split; [reflexivity|].
  split; [by rewrite Hyr, Hyear|]. split; [by rewrite Hmr, Hmonth|].
  by apply civil_round_trip.
Qed.

Lemma process_collisions_partition_witness :
  ∃ df p w' r,
    SilverProcessor.process_collisions Sample.config
      (DataFrame Sample.raw_collisions) Sample.silver_path Sample.empty_world
      = (Ok (df, p), w') ∧
    r ∈ rows df ∧ cell "crash_date" r = VStr "01/01/2024" ∧
    cell "year" r = VInt32 2024 ∧ cell "month" r = VInt 1.
Proof.
  assert (match (SilverProcessor.process_collisions Sample.config
                   (DataFrame Sample.raw_collisions) Sample.silver_path
                   Sample.empty_world).1 with
          | Ok (df, _) =>
              match head (rows df) with
              | Some r => bool_decide (cell "crash_date" r = VStr "01/01/2024")
              | None => false
              end
          | Err _ => false
          end = true) as Hb by (vm_compute; reflexivity).
  destruct (SilverProcessor.process_collisions _ _ _ _)
    as [[[df p]|e] w'] eqn:Hrun; [|discriminate].
  simpl in Hb. destruct (rows df) as [|r l] eqn:Hrows; [discriminate|].
  simpl in Hb. apply bool_decide_eq_true_1 in Hb.
  exists df, p, w', r. split; [reflexivity|].
  assert (r ∈ rows df) as Hr by (rewrite Hrows; apply list_elem_of_here).
  rewrite Hrows at 1. split; [apply list_elem_of_here|].
  split; [assumption|].
  destruct (process_collisions_partition _ _ _ _ _ _ _ r 2024 1 1
              Hrun ltac:(compute_done) Hr ltac:(lia) ltac:(lia) ltac:(lia) Hb)
    as (_ & _ & Hy & Hm & _).
  by split.
Defined.

(** ** The holidays transform *)

Lemma select_Ok es df out :
  LazyFrame.select es df = Ok out →
  NoDup (map output_name es) ∧ columns out = map output_name es ∧
  Forall2 (λ r r', project es r = Ok r') (rows df) (rows out).
Proof.
  unfold LazyFrame.select. intros H. do 3 inv_bind H. injection H as <-.
  destruct a0. split; [by apply check_unique_Ok|]. split; [reflexivity|].
  simpl. by apply mapR_Forall2.
Qed.

Lemma remove_dups_length {A} `{EqDecision A} (l : list A) :
  (length (remove_dups l) ≤ length l)%nat.
Proof.
  induction l as [|x l IH]; simpl; [lia|].
  destruct (decide_rel elem_of x l); simpl; lia.
Qed.

Lemma process_holidays_Ok input output_path w df p w' :
  SilverProcessor.process_holidays input output_path w = (Ok (df, p), w') →
  ∃ lf, loads read_json input w lf ∧
        SilverProcessor.holidays_query lf = Ok df ∧ p = output_path.
Proof.
  unfold SilverProcessor.process_holidays. intros H. do 6 inv_io H.
  injection H as <- <- <-.
  exists a0. split; [|split; [|reflexivity]].
  - apply log_msg_Ok in Ha. destruct input as [df'|path|]; simpl.
    + by injection Ha0 as ->.
    + rewrite <- (read_json_files path w0 w Ha), Ha0. reflexivity.
    + discriminate.
  - unfold lift in Ha1. by injection Ha1 as ->.
Qed.

(** The year and the month computed from a date cell. *)
Lemma keyed_eval date year month :
  dt_year_v date = Ok year → dt_month_v date = Ok month →
  keyed date year month.
Proof.
  unfold dt_year_v, dt_month_v, dt_v, keyed.
  destruct date; try discriminate; by intros [= <-] [= <-].
Qed.

(** A date read from a text cell, and the year and month computed from
    it. *)
Lemma to_date_keyed fmt raw date year month :
  str_to_date_v fmt raw = Ok date →
  dt_year_v date = Ok year → dt_month_v date = Ok month →
  keyed date year month ∧
  (raw = VNull ∨ ∃ s, raw = VStr s) ∧
  (raw = VNull ↔ date = VNull) ∧
  ∀ s y m d,
    raw = VStr s →
    scan_date (parse_format fmt) s None None None
      = Some (Some y, Some m, Some d) →
    (1 <= m <= 12 ∧ 1 <= d <= days_in_month y m) ∧
    date = VDate (days_from_civil y m d) ∧
    year = VInt32 y ∧ month = VInt m.
Proof.
  intros Hdate Hyear Hmonth. split; [by apply keyed_eval|].
  split; [|split].
  - destruct raw; try discriminate; eauto.
  - destruct raw as [| | | |s| | |]; try discriminate; cbn in Hdate.
    + by injection Hdate as <-.
    + destruct (strptime_date fmt s); [|discriminate].
      injection Hdate as <-. split; discriminate.
  - intros s y m d -> Hs.
    destruct (to_date_fields _ _ _ _ _ _ Hs Hdate) as (Hv & -> & Hy & Hm).
    split; [assumption|]. split; [reflexivity|]. split; congruence.
Qed.

Lemma holidays_query_rows lf df :
  SilverProcessor.holidays_query lf = Ok df →
  ∃ q, rows df = remove_dups q ∧ Forall2 holiday_row (rows lf) q.
Proof.
  unfold SilverProcessor.holidays_query. intros H. do 2 inv_bind H.
  injection H as <-. exists (rows a0). split; [reflexivity|].
  apply select_Ok in Ha as (Hnd & _ & Hsel).
  apply with_columns_cells in Ha0.
  pose proof (Forall2_compose _ _ _ _ _ Hsel Ha0) as Hall.
  eapply Forall2_impl; [exact Hall|]. cbv beta.
  intros r r2 (r1 & Hproj & Hcells & Hkeep).
  assert (∀ k, k ∉ ["year"; "month"] → cell k r2 = cell k r1) as Hsame
    by (intros k Hk; unfold cell; by rewrite (Hkeep k Hk)).
  assert (∀ e, e ∈ [ str_to_date "%Y-%m-%d" (col "date");
                     alias "holiday_name" (col "name");
                     cast_list_string (col "types") ] →
               eval e r = Ok (cell (output_name e) r1)) as Hsel1.
  { intros e He. destruct (project_lookup _ _ _ _ Hproj Hnd He) as (v & Hv & Hl).
    unfold cell. by rewrite Hl. }
  assert (str_to_date_v "%Y-%m-%d" (cell "date" r) = Ok (cell "date" r2)) as Hd.
  { rewrite Hsame by compute_done.
    apply (Hsel1 (str_to_date "%Y-%m-%d" (col "date"))). apply list_elem_of_here. }
  assert (dt_year_v (cell "date" r2) = Ok (cell "year" r2)) as Hy.
  { rewrite (Hsame "date") by compute_done.
    apply (Hcells (alias "year" (dt_year (col "date")))). apply list_elem_of_here. }
  assert (dt_month_v (cell "date" r2) = Ok (cell "month" r2)) as Hm.
  { rewrite (Hsame "date") by compute_done.
    apply (Hcells (alias "month" (dt_month (col "date")))).
    apply list_elem_of_further, list_elem_of_here. }
  destruct (to_date_keyed _ _ _ _ _ Hd Hy Hm) as (Hkeyed & Hraw & Hnull & Htext).
  assert (cast_list_string_v (cell "types" r) = Ok (cell "types" r2)) as Ht.
  { rewrite Hsame by compute_done.
    apply (Hsel1 (cast_list_string (col "types"))).
    do 2 apply list_elem_of_further. apply list_elem_of_here. }
  unfold holiday_row.
  split; [|split; [|split; [|split; [|split; [|split]]]]]; try assumption.
  - rewrite Hsame by compute_done.
    assert (eval (alias "holiday_name" (col "name")) r
            = Ok (cell "holiday_name" r1)) as Hn
      by (apply Hsel1; apply list_elem_of_further, list_elem_of_here).
    simpl in Hn. by injection Hn as ->.
  - destruct (cell "types" r); try discriminate; by injection Ht as <-.
  - destruct (cell "types" r); try discriminate; eauto.
  - intros y m d Hy' Hm' Hd' Hs.
    apply (Htext _ y m d Hs). by apply scan_iso_date.
Qed.

(** X11.  Whenever [process_holidays] returns, no two rows of its table
    are equal, every raw holiday has its standardized row in the table
    and every row of the table is the standardized row of a raw holiday:
    the name and the list of types are the raw ones, the date is a date
    (null for a null raw date), which for a raw date written YYYY-MM-DD
    is that day, and year and month are those of the date.  So equal raw
    entries give one row, and the table has at most as many rows as the
    raw one. *)
Theorem process_holidays_rows input p w df p' w' :
  SilverProcessor.process_holidays input p w = (Ok (df, p'), w') →
  ∃ lf, loads read_json input w lf ∧
        NoDup (rows df) ∧
        (∀ r, r ∈ rows lf → ∃ r', r' ∈ rows df ∧ holiday_row r r') ∧
        (∀ r', r' ∈ rows df → ∃ r, r ∈ rows lf ∧ holiday_row r r') ∧
        (length (rows df) ≤ length (rows lf))%nat.
Proof.
  intros H. apply process_holidays_Ok in H as (lf & Hload & Hq & _).
  exists lf. split; [assumption|].
  destruct (holidays_query_rows _ _ Hq) as (q & -> & Hrows).
  split; [apply NoDup_remove_dups|]. split; [|split].
  - intros r Hr. destruct (Forall2_elem_of_l _ _ _ _ Hrows Hr) as (r' & Hr' & Hh).
    exists r'. split; [by apply elem_of_remove_dups|assumption].
  - intros r' Hr'. rewrite elem_of_remove_dups in Hr'.
    exact (Forall2_elem_of_r _ _ _ _ Hrows Hr').
  - rewrite (Forall2_length _ _ _ Hrows). apply remove_dups_length.
Qed.

Lemma process_holidays_rows_witness :
  ∃ df p w',
    SilverProcessor.process_holidays (DataFrame Sample.raw_holidays)
      Sample.silver_path Sample.empty_world = (Ok (df, p), w') ∧
    NoDup (rows df) ∧
    (length (rows df) ≤ length (rows Sample.raw_holidays))%nat ∧
    ∀ r', r' ∈ rows df → cell "year" r' = VInt32 2024 ∧ cell "month" r' = VInt 1.
Proof.
  assert (is_ok (SilverProcessor.process_holidays (DataFrame Sample.raw_holidays)
                   Sample.silver_path Sample.empty_world).1 = true) as Hb
    by (vm_compute; reflexivity).
  destruct (SilverProcessor.process_holidays _ _ _)
    as [[[df p]|e] w'] eqn:Hrun; [|discriminate].
  exists df, p, w'. split; [reflexivity|].
  destruct (process_holidays_rows _ _ _ _ _ _ Hrun)
    as (lf & Hload & Hnd & _ & Hfrom & Hlen).
  simpl in Hload. subst lf. split; [assumption|]. split; [assumption|].
  intros r' Hr'. destruct (Hfrom r' Hr') as (r & Hr & Hrow).
  destruct Hrow as (_ & _ & _ & _ & _ & _ & Htext).
  assert (cell "date" r = VStr (iso_date 2024 1 1)) as Hd.
  { apply list_elem_of_In in Hr.
    assert (forallb (λ r, bool_decide (cell "date" r = VStr (iso_date 2024 1 1)))
                    (rows Sample.raw_holidays) = true) as Hall
      by (vm_compute; reflexivity).
    rewrite forallb_forall in Hall. specialize (Hall r Hr). cbv beta in Hall.
    by apply bool_decide_eq_true in Hall. }
  destruct (Htext 2024 1 1 ltac:(lia) ltac:(lia) ltac:(lia) Hd)
    as (_ & _ & Hy & Hm).
  by split.
Defined.

(** ** The weather flags *)

(** A reading is the number its raw cell parses to, or null. *)
Lemma reading_cell c r v :
  eval (SilverProcessor.reading c) r = Ok v →
  ∃ o, parsed (cell c r) = Some o ∧ v = float_cell o.
Proof.
  intros H. apply reading_eval in H.
  destruct (parsed (cell c r)) as [[f|]|]; [| |contradiction]; subst v; eauto.
Qed.

Lemma positive_eval c name r o v :
  eval (SilverProcessor.reading c) r = Ok (float_cell o) →
  eval (alias name (fill_null (VBool false)
                      (gt_lit (SilverProcessor.reading c) (VInt 0)))) r = Ok v →
  v = VBool (above_zero o).
Proof.
  cbn [alias fill_null gt_lit map_expr eval]. intros -> H.
  cbn [mbind result_mbind result_bind] in H.
  destruct o as [f|]; cbn in H; injection H as <-; [|reflexivity].
  unfold above_zero, f64_compare. change (f64_of_Z 0) with (S754_zero false).
  by destruct (f64_gt f (S754_zero false)), (f64_gt (S754_zero false) f).
Qed.

Lemma tenth_eval c name r o v :
  eval (SilverProcessor.reading c) r = Ok (float_cell o) →
  eval (alias name (truediv (SilverProcessor.reading c) (VInt 10))) r = Ok v →
  v = float_cell (tenth o).
Proof.
  cbn [alias truediv map_expr eval]. intros -> H.
  cbn [mbind result_mbind result_bind] in H.
  destruct o as [f|]; cbn in H; by injection H as <-.
Qed.

Lemma weather_query_schema lf df :
  SilverProcessor.weather_query lf = Ok df →
  columns df = SilverProcessor.clean_columns ++ ["year"; "month"] ∧
  ∀ r', r' ∈ rows df →
        dt_year_v (cell "date" r') = Ok (cell "year" r') ∧
        dt_month_v (cell "date" r') = Ok (cell "month" r').
Proof.
  unfold SilverProcessor.weather_query. intros H. do 4 inv_bind H.
  apply select_cols_Ok in Ha2 as (Hcols & _).
  split.
  - rewrite (with_columns_columns _ _ _ H), Hcols. reflexivity.
  - intros r' Hr'. apply with_columns_cells in H.
    destruct (Forall2_elem_of_r _ _ _ _ H Hr') as (r4 & _ & Hcells & Hkeep).
    assert (cell "date" r' = cell "date" r4) as ->
      by (unfold cell; rewrite Hkeep; [reflexivity|compute_done]).
    split.
    + apply (Hcells (alias "year" (dt_year (col "date")))).
      apply list_elem_of_here.
    + apply (Hcells (alias "month" (dt_month (col "date")))).
      apply list_elem_of_further, list_elem_of_here.
Qed.

(** A year-month-day text that is not before "2020-01-01" has a year
    from 2020 on. *)
Lemma compare_digit_char a b s t :
  0 <= a <= 9 → 0 <= b <= 9 →
  (String (digit_char a) s ?= String (digit_char b) t)%string
  = match a ?= b with
    | Eq => (s ?= t)%string
    | c => c
    end.
Proof.
  intros Ha Hb.
  assert (a = 0 ∨ a = 1 ∨ a = 2 ∨ a = 3 ∨ a = 4 ∨ a = 5 ∨ a = 6 ∨ a = 7 ∨
          a = 8 ∨ a = 9) as Hca by lia.
  assert (b = 0 ∨ b = 1 ∨ b = 2 ∨ b = 3 ∨ b = 4 ∨ b = 5 ∨ b = 6 ∨ b = 7 ∨
          b = 8 ∨ b = 9) as Hcb by lia.
  destruct Hca as [->|[->|[->|[->|[->|[->|[->|[->|[->| ->]]]]]]]]];
    destruct Hcb as [->|[->|[->|[->|[->|[->|[->|[->|[->| ->]]]]]]]]];
    reflexivity.
Qed.

Lemma iso_date_window y m d :
  0 <= y <= 9999 →
  String.ltb (iso_date y m d) "2020-01-01" = false → 2020 <= y.
Proof.
  intros Hy. unfold String.ltb, iso_date, four_digits, two_digits.
  rewrite !app_cons.
  change "2020-01-01"%string
    with (String (digit_char 2) (String (digit_char 0) (String (digit_char 2)
            (String (digit_char 0) "-01-01")))).
  assert (∀ n, digit_char n = digit_char (n mod 10)) as Hmod.
  { intros n. unfold digit_char. by rewrite Z.mod_mod. }
  rewrite (Hmod (y / 1000)), (Hmod (y / 100)), (Hmod (y / 10)), (Hmod y).
  pose proof (Z.mod_pos_bound (y / 1000) 10 ltac:(lia)).
  pose proof (Z.mod_pos_bound (y / 100) 10 ltac:(lia)).
  pose proof (Z.mod_pos_bound (y / 10) 10 ltac:(lia)).
  pose proof (Z.mod_pos_bound y 10 ltac:(lia)).
  rewrite !compare_digit_char by lia.
  destruct (Z.compare_spec ((y / 1000) mod 10) 2) as [E1|E1|E1];
    [|discriminate|intros _; revert E1; Z.div_mod_to_equations; lia].
  destruct (Z.compare_spec ((y / 100) mod 10) 0) as [E2|E2|E2];
    [|discriminate|intros _; revert E1 E2; Z.div_mod_to_equations; lia].
  destruct (Z.compare_spec ((y / 10) mod 10) 2) as [E3|E3|E3];
    [|discriminate|intros _; revert E1 E2 E3; Z.div_mod_to_equations; lia].
  destruct (Z.compare_spec (y mod 10) 0) as [E4|E4|E4];
    [|discriminate|];
    intros _; revert E1 E2 E3 E4; Z.div_mod_to_equations; lia.
Qed.

(** X12.  Whenever [process_weather] returns, its table has the eight
    clean columns and then [year] and [month]; its rows are, in order,
    the raw rows that pass the date filters.  In each of them "PRCP" and
    "SNOW" parse to a reading, a number or nothing, such that
    [precipitation_mm] is the tenth of the one and [snow_mm] is the
    other as it is (not divided by ten), and [has_rain] and [has_snow]
    are true exactly when the reading is above zero, false when there is
    none; [is_foggy] is true or false, never null; [year] and [month]
    are those of the date; and a raw date written YYYY-MM-DD is a day
    that exists, from the year 2020 on, and the date is that day. *)
Theorem process_weather_flags input p w df p' w' :
  SilverProcessor.process_weather input p w = (Ok (df, p'), w') →
  ∃ lf, loads scan_csv input w lf ∧
        columns df = SilverProcessor.clean_columns ++ ["year"; "month"] ∧
        Forall2 (λ r r',
                   (∃ prcp snow,
                      parsed (cell "PRCP" r) = Some prcp ∧
                      parsed (cell "SNOW" r) = Some snow ∧
                      cell "precipitation_mm" r' = float_cell (tenth prcp) ∧
                      cell "has_rain" r' = VBool (above_zero prcp) ∧
                      cell "snow_mm" r' = float_cell snow ∧
                      cell "has_snow" r' = VBool (above_zero snow)) ∧
                   (∃ b, cell "is_foggy" r' = VBool b) ∧
                   keyed (cell "date" r') (cell "year" r') (cell "month" r') ∧
                   ∀ y m d, 0 <= y <= 9999 → 0 <= m <= 99 → 0 <= d <= 99 →
                            cell "DATE" r = VStr (iso_date y m d) →
                            2020 <= y ∧
                            (1 <= m <= 12 ∧ 1 <= d <= days_in_month y m) ∧
                            cell "date" r' = VDate (days_from_civil y m d) ∧
                            cell "year" r' = VInt32 y ∧
                            cell "month" r' = VInt m)
                (List.filter survives (rows lf)) (rows df).
Proof.
  intros H. apply process_weather_Ok in H as (lf & Hload & Hq & _).
  exists lf. split; [assumption|].
  destruct (weather_query_schema _ _ Hq) as [Hcols Hkeys].
  split; [assumption|].
  pose proof (weather_query_rows _ _ Hq) as Hrows.
  assert (Forall2 (λ r r', survives r = true ∧ r' ∈ rows df ∧
                           ∀ e, e ∈ SilverProcessor.weather_exprs →
                                eval e r = Ok (cell (output_name e) r'))
                  (List.filter survives (rows lf)) (rows df)) as Hrows'.
  { apply Forall2_same_length_lookup. split; [by eapply Forall2_length|].
    intros i r r' Hr Hr'.
    split; [|split].
    - apply list_elem_of_lookup_2 in Hr. apply list_elem_of_In in Hr.
      by apply filter_In in Hr as [_ ?].
    - by eapply list_elem_of_lookup_2.
    - by eapply (Forall2_lookup_lr _ _ _ _ _ _ Hrows). }
  eapply Forall2_impl; [exact Hrows'|]. cbv beta.
  intros r r' (Hsurv & Hin & Hcells).
  unfold SilverProcessor.weather_exprs in Hcells.
  destruct (Hkeys r' Hin) as [Hyear Hmonth].
  assert (str_to_date_v "%Y-%m-%d" (cell "DATE" r) = Ok (cell "date" r')) as Hd
    by (apply (Hcells SilverProcessor.date_expr); apply list_elem_of_here).
  destruct (to_date_keyed _ _ _ _ _ Hd Hyear Hmonth) as (Hkeyed & _ & _ & Htext).
  split; [|split; [|split; [assumption|]]].
  - assert (eval SilverProcessor.precipitation_mm r
            = Ok (cell "precipitation_mm" r')) as Hp.
    { apply (Hcells SilverProcessor.precipitation_mm).
      do 3 apply list_elem_of_further. apply list_elem_of_here. }
    assert (eval SilverProcessor.snow_mm r = Ok (cell "snow_mm" r')) as Hs.
    { apply (Hcells SilverProcessor.snow_mm).
      do 4 apply list_elem_of_further. apply list_elem_of_here. }
    assert (eval SilverProcessor.has_rain r = Ok (cell "has_rain" r')) as Hhr.
    { apply (Hcells SilverProcessor.has_rain).
      do 6 apply list_elem_of_further. apply list_elem_of_here. }
    assert (eval SilverProcessor.has_snow r = Ok (cell "has_snow" r')) as Hhs.
    { apply (Hcells SilverProcessor.has_snow).
      do 7 apply list_elem_of_further. apply list_elem_of_here. }
    assert (∃ o, parsed (cell "PRCP" r) = Some o ∧
                 eval (SilverProcessor.reading "PRCP") r = Ok (float_cell o))
      as (prcp & Hpp & Hprcp).
    { unfold SilverProcessor.precipitation_mm in Hp.
      cbn [alias truediv map_expr eval] in Hp. inv_bind Hp.
      destruct (reading_cell _ _ _ Ha) as (o & Ho & ->). eauto. }
    assert (∃ o, parsed (cell "SNOW" r) = Some o ∧
                 eval (SilverProcessor.reading "SNOW") r = Ok (float_cell o))
      as (snow & Hps & Hsnow).
    { unfold SilverProcessor.snow_mm in Hs. cbn [alias eval] in Hs.
      destruct (reading_cell _ _ _ Hs) as (o & Ho & Hv). rewrite Hv in Hs.
      eauto. }
    exists prcp, snow. split; [assumption|]. split; [assumption|].
    split; [|split; [|split]].
    + by apply (tenth_eval "PRCP" "precipitation_mm" r).
    + by apply (positive_eval "PRCP" "has_rain" r).
    + unfold SilverProcessor.snow_mm in Hs. cbn [alias eval] in Hs.
      rewrite Hsnow in Hs. by injection Hs as <-.
    + by apply (positive_eval "SNOW" "has_snow" r).
  - eexists. apply is_foggy_eval. apply (Hcells SilverProcessor.is_foggy).
    do 5 apply list_elem_of_further. apply list_elem_of_here.
  - intros y m d Hy Hm Hd' Hs.
    split.
    + unfold survives in Hsurv. rewrite Hs in Hsurv.
      apply negb_true_iff in Hsurv. by apply (iso_date_window y m d).
    + apply (Htext _ y m d Hs). by apply scan_iso_date.
Qed.

Lemma process_weather_flags_witness :
  ∃ df p w',
    SilverProcessor.process_weather (DataFrame Sample.raw_weather)
      Sample.weather_path Sample.empty_world = (Ok (df, p), w') ∧
    columns df = SilverProcessor.clean_columns ++ ["year"; "month"] ∧
    Forall (λ r', ∃ b, cell "is_foggy" r' = VBool b) (rows df).
Proof.
  assert (is_ok (SilverProcessor.process_weather
                   (DataFrame Sample.raw_weather) Sample.weather_path
                   Sample.empty_world).1 = true) as Hb
    by (vm_compute; reflexivity).
  destruct (SilverProcessor.process_weather _ _ _)
    as [[[df p]|e] w'] eqn:Hrun; [|discriminate].
  exists df, p, w'. split; [reflexivity|].
  destruct (process_weather_flags _ _ _ _ _ _ Hrun)
    as (lf & Hload & Hcols & Hrows).
  split; [assumption|].
  apply Forall_forall. intros r' Hr'.
  destruct (Forall2_elem_of_r _ _ _ _ Hrows Hr') as (r & _ & _ & Hf & _).
  exact Hf.
Defined.

(** End of the development. *)
